(** * holo.c: a 14-segment ASCII-art renderer, verified against its specification

    A shallow embedding of [src/holo.c].  Every C function that takes part in
    the per-frame pipeline is translated into a Rocq function of the same
    name:

    - [float] values are IEEE 754 binary32 data ([spec_float] at precision 24,
      exponent bound 128); every arithmetic operator rounds to nearest-even,
      as a C implementation with [FLT_EVAL_METHOD == 0] and no contraction
      of products and sums does; [double] is binary64 and [size_t] has 64
      bits;
    - [int] values are integers in [[-2^31, 2^31)]; signed overflow, an
      out-of-range float-to-int conversion and an out-of-bounds array access
      have no defined behaviour in C and yield [Undefined];
    - the loops of the rasterizer step a [float] counter and need not
      terminate, so they carry fuel and yield [OutOfFuel] when it is used up;
    - the two frame buffers are lists, read and written by index. *)

From Stdlib Require Import ZArith Bool Ascii String Lia.
From Stdlib Require Import Floats.SpecFloat.
From stdpp Require Import base option list.

Local Open Scope Z_scope.

(* ===================================================================== *)
(** * Part I: the model                                                   *)
(* ===================================================================== *)

(** ** Outcomes of running a piece of C code *)

Inductive result (A : Type) : Type :=
| Ok (a : A)
| Undefined
| OutOfFuel.
Arguments Ok {A} a.
Arguments Undefined {A}.
Arguments OutOfFuel {A}.

#[global] Instance result_ret : MRet result := fun A a => Ok a.
#[global] Instance result_bind : MBind result := fun A B f m =>
  match m with
  | Ok a => f a
  | Undefined => Undefined
  | OutOfFuel => OutOfFuel
  end.

#[global] Instance result_fmap : FMap result := fun A B f m =>
  match m with
  | Ok a => Ok (f a)
  | Undefined => Undefined
  | OutOfFuel => OutOfFuel
  end.

(** ** Machine integers *)

Module Int.
Definition min_signed : Z := - 2 ^ 31.
Definition max_signed : Z := 2 ^ 31 - 1.

Definition in_range (z : Z) : bool :=
  (min_signed <=? z) && (z <=? max_signed).

(** The value of a signed [int] expression: undefined on overflow. *)
Definition checked (z : Z) : result Z :=
  if in_range z then Ok z else Undefined.

Definition add (a b : Z) : result Z := checked (a + b).
Definition mul (a b : Z) : result Z := checked (a * b).

(** Conversion of a [size_t] value to [int], as the usual implementations
    do it (two's complement wrap-around of the low 32 bits). *)
Definition of_size_t (u : Z) : Z :=
  let w := u mod 2 ^ 32 in
  if w <? 2 ^ 31 then w else w - 2 ^ 32.

(** [size_t] subtraction wraps around modulo [2^64]. *)
Definition size_t_sub (a b : Z) : Z := (a - b) mod 2 ^ 64.
End Int.

(** ** Binary floating point *)

Abbreviation float := spec_float.

Module F32.
Definition prec : Z := 24.
Definition emax : Z := 128.

Definition add : float -> float -> float := SFadd prec emax.
Definition sub : float -> float -> float := SFsub prec emax.
Definition mul : float -> float -> float := SFmul prec emax.
Definition div : float -> float -> float := SFdiv prec emax.
Definition sqrtf : float -> float := SFsqrt prec emax.
Definition neg : float -> float := SFopp.
Definition ltb : float -> float -> bool := SFltb.
Definition leb : float -> float -> bool := SFleb.
Definition valid : float -> bool := valid_binary prec emax.

Definition is_nan (x : float) : bool :=
  match x with S754_nan => true | _ => false end.

(** Conversion of an [int] to [float] (rounds when [|z| > 2^24]). *)
Definition of_int (z : Z) : float := binary_normalize prec emax z 0 false.

(** Narrowing of a wider floating value (a [double]) to [float]. *)
Definition of_double (x : float) : float :=
  match x with
  | S754_finite s m e => binary_round prec emax s m e
  | _ => x
  end.

(** The integer part of a finite value, rounded toward zero. *)
Definition trunc (x : float) : option Z :=
  match x with
  | S754_zero _ => Some 0
  | S754_finite s m e => Some (cond_Zopp s (Z.shiftl (Z.pos m) e))
  | _ => None
  end.

(** The greatest integer below or equal to a finite value. *)
Definition floor (x : float) : option Z :=
  match x with
  | S754_zero _ => Some 0
  | S754_finite s m e => Some (Z.shiftl (cond_Zopp s (Z.pos m)) e)
  | _ => None
  end.

(** The cast [(int)x]: the value is truncated toward zero; the behaviour is
    undefined when the integral part cannot be represented in [int]
    (C11 6.3.1.4), in particular for infinities and NaN. *)
Definition to_int (x : float) : result Z :=
  match trunc x with
  | Some z => Int.checked z
  | None => Undefined
  end.

(** [fminf] of the C library (C11 7.12.12.3 and F.10.9.3): the smaller
    argument, a NaN argument being treated as missing data. *)
Definition fminf (x y : float) : float :=
  if is_nan x then y
  else if is_nan y then x
  else if ltb y x then y else x.

Definition zero : float := S754_zero false.
Definition one : float := S754_finite false 8388608 (-23).
Definition two : float := S754_finite false 8388608 (-22).
Definition four : float := S754_finite false 8388608 (-21).
End F32.

Module F64.
Definition prec : Z := 53.
Definition emax : Z := 1024.
Definition mul : float -> float -> float := SFmul prec emax.
Definition div : float -> float -> float := SFdiv prec emax.
Definition ltb : float -> float -> bool := SFltb.

(** Promotion of a [float] to [double]: exact, the significand is
    re-aligned to 53 bits. *)
Definition of_float (x : float) : float :=
  match x with
  | S754_finite s m e => binary_round prec emax s m e
  | _ => x
  end.
End F64.

Declare Scope f32_scope.
Delimit Scope f32_scope with f32.
Infix "+" := F32.add : f32_scope.
Infix "-" := F32.sub : f32_scope.
Infix "*" := F32.mul : f32_scope.
Infix "/" := F32.div : f32_scope.
Notation "- x" := (F32.neg x) : f32_scope.
Infix "<?" := F32.ltb : f32_scope.
Infix "<=?" := F32.leb : f32_scope.

(** ** Constants of the program *)

Definition NUM_SEGMENTS : Z := 14.
Definition ASCII_OFFSET : Z := 32.
Definition SUPPORTED_CHARS : Z := 96.
(** [25.0f] *)
Definition CAMERA_DISTANCE : float := S754_finite false 13107200 (-19).
(** [0.85f], the binary32 value nearest to 85/100 *)
Definition SCREEN_PADDING_FACTOR : float := S754_finite false 14260634 (-24).
(** The [double] constant [1e-5] of [draw_pointy_segment]. *)
Definition NL_THRESHOLD : float := S754_finite false 5902958103587057 (-69).
(** The [double] constant [M_PI]. *)
Definition M_PI : float := S754_finite false 7074237752028440 (-51).

(** ** Data structures *)

Record RenderContext : Type := {
  zbuffer : list float;
  bbuffer : list ascii;
  sw : Z;
  sh : Z;
  cosA : float; sinA : float; cosB : float; sinB : float;
  zoom : float;
  tilt_factor : float;
  light_x : float; light_y : float; contrast : float;
  palette : list ascii;
  palette_len : Z
}.

(** The context after the stores [ctx->zbuffer[..] = ..] and
    [ctx->bbuffer[..] = ..]: the pointed-to arrays change, nothing else. *)
Definition set_buffers (ctx : RenderContext) (zb : list float)
    (bb : list ascii) : RenderContext :=
  {| zbuffer := zb; bbuffer := bb; sw := sw ctx; sh := sh ctx;
     cosA := cosA ctx; sinA := sinA ctx; cosB := cosB ctx; sinB := sinB ctx;
     zoom := zoom ctx; tilt_factor := tilt_factor ctx;
     light_x := light_x ctx; light_y := light_y ctx;
     contrast := contrast ctx;
     palette := palette ctx; palette_len := palette_len ctx |}.

Record SegmentDef : Type := {
  pos_x : float; pos_y : float;
  rot_z_rad : float;
  cos_ra : float; sin_ra : float
}.

(** ** Array accesses *)

Definition load {A : Type} (buf : list A) (idx : Z) : result A :=
  if idx <? 0 then Undefined
  else match buf !! Z.to_nat idx with
       | Some v => Ok v
       | None => Undefined
       end.

Definition store {A : Type} (buf : list A) (idx : Z) (v : A) : result (list A) :=
  if (0 <=? idx) && (idx <? Z.of_nat (length buf))
  then Ok (<[Z.to_nat idx := v]> buf)
  else Undefined.

(** A C string read at [idx]: the characters, then the terminating NUL. *)
Definition load_cstring (s : list ascii) (idx : Z) : result ascii :=
  if idx =? Z.of_nat (length s) then Ok "000"%char else load s idx.

(** ** The projector *)

Section Projector.
Variable ctx : RenderContext.
(** The point and its normal, in character-local space. *)
Variables x y z : float.

(** [x += y * ctx->tilt_factor] *)
Definition sheared_x : float := (x + y * tilt_factor ctx)%f32.

Definition rot_x : float := (sheared_x * cosB ctx - z * sinB ctx)%f32.
Definition rot_z : float := (sheared_x * sinB ctx + z * cosB ctx)%f32.

Definition final_y : float := (y * cosA ctx - rot_z * sinA ctx)%f32.
Definition final_z : float :=
  (y * sinA ctx + rot_z * cosA ctx + CAMERA_DISTANCE)%f32.

(** [1.0f / final_z] *)
Definition ooz : float := (F32.one / final_z)%f32.

(** The operands of the two casts to [int]. *)
Definition screen_x : float :=
  (F32.of_int (sw ctx) / F32.two + (zoom ctx * F32.two) * rot_x * ooz)%f32.
Definition screen_y : float :=
  (F32.of_int (sh ctx) / F32.two - zoom ctx * final_y * ooz)%f32.
End Projector.

Section Lighting.
Variable ctx : RenderContext.
Variables nx ny nz : float.

Definition n_rot_x : float := (nx * cosB ctx - nz * sinB ctx)%f32.
Definition n_rot_z : float := (nx * sinB ctx + nz * cosB ctx)%f32.
Definition n_final_y : float := (ny * cosA ctx - n_rot_z * sinA ctx)%f32.

(** [L = n_final_y * light_y + n_rot_x * light_x] *)
Definition luminance : float :=
  (n_final_y * light_y ctx + n_rot_x * light_x ctx)%f32.
End Lighting.

(** The clamp
    [palette_idx < 0 ? 0 : (palette_idx >= len ? len - 1 : palette_idx)].
    [len] is a [size_t]: the comparison and the subtraction are unsigned, and
    the selected value is converted back to [int]. *)
Definition clamp_palette_idx (palette_idx len : Z) : Z :=
  if palette_idx <? 0 then 0
  else Int.of_size_t
         (if len <=? palette_idx then Int.size_t_sub len 1 else palette_idx).

(** The palette position selected for a surface normal. *)
Definition palette_index (ctx : RenderContext) (nx ny nz : float) : result Z :=
  raw ← F32.to_int (luminance ctx nx ny nz * contrast ctx)%f32;
  mret (clamp_palette_idx raw (palette_len ctx)).

Definition project_and_draw (x y z nx ny nz : float) (ctx : RenderContext)
    : result RenderContext :=
  (* Don't render points behind the camera *)
  if (final_z ctx x y z <=? F32.zero)%f32 then Ok ctx else
  (* Perspective projection *)
  xp ← F32.to_int (screen_x ctx x y z);
  yp ← F32.to_int (screen_y ctx x y z);
  (* Bounds and Z-buffer check *)
  swyp ← Int.mul (sw ctx) yp;
  buffer_idx ← Int.add xp swyp;
  if (xp <? 0) || (sw ctx <=? xp) || (yp <? 0) || (sh ctx <=? yp)
  then Ok ctx else
  stored ← load (zbuffer ctx) buffer_idx;
  if (ooz ctx x y z <=? stored)%f32 then Ok ctx else
  (* Update buffers *)
  zb ← store (zbuffer ctx) buffer_idx (ooz ctx x y z);
  palette_idx ← palette_index ctx nx ny nz;
  c ← load_cstring (palette ctx) palette_idx;
  bb ← store (bbuffer ctx) buffer_idx c;
  mret (set_buffers ctx zb bb).

(** ** The segment rasterizer *)

(** [for (float i = start; i < bound; i += step) body] *)
Fixpoint for_float {St : Type} (fuel : nat) (i bound step : float)
    (body : float -> St -> result St) (s : St) : result St :=
  match fuel with
  | O => OutOfFuel
  | S fuel' =>
      if (i <? bound)%f32
      then s' ← body i s; for_float fuel' (i + step)%f32 bound step body s'
      else Ok s
  end.

(** The loop nests of [draw_pointy_segment], over any consumer [emit] of the
    sample points ([px py pz nx ny], in segment-local space). *)
Section Sampling.
Context {St : Type}.
Variable emit : float -> float -> float -> float -> float -> St -> result St.
Variable fuel : nat.
Variables length seg_w seg_t point_len density : float.

(** The two main flat faces of the segment. *)
Definition flat_faces (s : St) : result St :=
  for_float fuel (- length / F32.two)%f32 (length / F32.two)%f32 density
    (fun i s =>
       for_float fuel (- seg_t / F32.two)%f32 (seg_t / F32.two)%f32 density
         (fun j s =>
            (* Top face (normal points up in local Y) *)
            s ← emit i (seg_w / F32.two)%f32 j F32.zero F32.one s;
            (* Bottom face (normal points down in local Y) *)
            emit i (- seg_w / F32.two)%f32 j F32.zero (F32.of_int (-1)) s)
         s)
    s.

Definition half_w : float := (seg_w / F32.two)%f32.
(** Normal vector length *)
Definition nl : float :=
  F32.sqrtf (half_w * half_w + point_len * point_len)%f32.
Definition cnx : float := (half_w / nl)%f32.
Definition cny : float := (point_len / nl)%f32.

(** [nl < 1e-5], compared in [double]. *)
Definition nl_degenerate : bool := F64.ltb (F64.of_float nl) NL_THRESHOLD.

(** The four triangular faces of the pointy ends. *)
Definition end_caps (s : St) : result St :=
  for_float fuel F32.zero point_len density
    (fun u s =>
       for_float fuel (- seg_t / F32.two)%f32 (seg_t / F32.two)%f32 density
         (fun pz s =>
            let yp := (half_w * (F32.one - u / point_len))%f32 in
            let p1 := (length / F32.two + u)%f32 in
            let p2 := (- length / F32.two - u)%f32 in
            s ← emit p1 yp pz cnx cny s;
            s ← emit p1 (- yp)%f32 pz cnx (- cny)%f32 s;
            s ← emit p2 yp pz (- cnx)%f32 cny s;
            emit p2 (- yp)%f32 pz (- cnx)%f32 (- cny)%f32 s)
         s)
    s.

Definition sample_segment (s : St) : result St :=
  s ← flat_faces s;
  if nl_degenerate then Ok s (* Avoid division by zero *)
  else end_caps s.
End Sampling.

Definition draw_rotated_point (px py pz nx ny : float) (def : SegmentDef)
    (char_center_x : float) (ctx : RenderContext) : result RenderContext :=
  let rpx := (px * cos_ra def - py * sin_ra def)%f32 in
  let rpy := (px * sin_ra def + py * cos_ra def)%f32 in
  let rnx := (nx * cos_ra def - ny * sin_ra def)%f32 in
  let rny := (nx * sin_ra def + ny * cos_ra def)%f32 in
  project_and_draw (rpx + pos_x def + char_center_x)%f32 (rpy + pos_y def)%f32
    pz rnx rny F32.zero ctx.

Definition draw_pointy_segment (fuel : nat)
    (length seg_w seg_t point_len : float) (def : SegmentDef)
    (char_center_x density : float) (ctx : RenderContext)
    : result RenderContext :=
  sample_segment
    (fun px py pz nx ny ctx =>
       draw_rotated_point px py pz nx ny def char_center_x ctx)
    fuel length seg_w seg_t point_len density ctx.

(** A sample of the segment surface: local point and local normal. *)
Record sample : Type := {
  s_px : float; s_py : float; s_pz : float; s_nx : float; s_ny : float
}.

(** A consumer that only keeps the samples it is handed. *)
Definition record_sample (px py pz nx ny : float) (acc : list sample)
    : result (list sample) :=
  Ok (acc ++ [ {| s_px := px; s_py := py; s_pz := pz;
                  s_nx := nx; s_ny := ny |} ]).

(** The samples [draw_pointy_segment] hands to [draw_rotated_point], in the
    order of the calls. *)
Definition segment_samples (fuel : nat)
    (length seg_w seg_t point_len density : float) : result (list sample) :=
  sample_segment record_sample fuel length seg_w seg_t point_len density [].

(** ** Font data *)

(** Segments are bit-packed: 0=A, 1=B, 2=C, 3=D, 4=E, 5=F, 6=G1, 7=G2, 8=H,
    9=I, 10=J, 11=K, 12=L, 13=M.  The 96 entries of the source, written in
    hexadecimal, eight to a row as there. *)
Definition FourteenSegmentASCII : list Z := [
    0x0000; 0x2006; 0x0202; 0x12CE; 0x12ED; 0x3FE4; 0x2359; 0x0200;
    0x2400; 0x0900; 0x3FC0; 0x12C0; 0x0800; 0x00C0; 0x2000; 0x0C00;
    0x0C3F; 0x0406; 0x00DB; 0x008F; 0x00E6; 0x2069; 0x00FD; 0x0007;
    0x00FF; 0x00EF; 0x1200; 0x0A00; 0x2440; 0x00C8; 0x0980; 0x3083;
    0x02BB; 0x00F7; 0x128F; 0x0039; 0x120F; 0x0079; 0x0071; 0x00BD;
    0x00F6; 0x1209; 0x001E; 0x2470; 0x0038; 0x0536; 0x2136; 0x003F;
    0x00F3; 0x203F; 0x20F3; 0x00ED; 0x1201; 0x003E; 0x0C30; 0x2836;
    0x2D00; 0x00EE; 0x0C09; 0x0039; 0x2100; 0x000F; 0x2800; 0x0008;
    0x0100; 0x1058; 0x2078; 0x00D8; 0x088E; 0x0858; 0x14C0; 0x048E;
    0x1070; 0x1000; 0x0A10; 0x3600; 0x0030; 0x10D4; 0x1050; 0x00DC;
    0x0170; 0x0486; 0x0050; 0x2088; 0x0078; 0x001C; 0x0810; 0x2814;
    0x2D00; 0x028E; 0x0848; 0x0949; 0x1200; 0x2489; 0x0CC0; 0x0000
].

(** ** The C library and the platform *)

(** What the program takes from its environment: three [libm] functions, and
    whether plain [char] is a signed type. *)
Class Platform : Type := {
  cosf : float -> float;
  sinf : float -> float;
  atan2f : float -> float -> float;
  char_is_signed : bool
}.

(** The value of a [char] holding the byte [c], once promoted to [int]. *)
Definition char_value {pf : Platform} (c : ascii) : Z :=
  let n := Z.of_N (N_of_ascii c) in
  if char_is_signed && (128 <=? n) then n - 256 else n.

(** ** Configuration: the option variables of [main] *)

Module Cfg.
Record t : Type := {
  speedA : float; speedB : float;
  W : float; H : float; tilt : float;
  spacing_factor : float;
  seg_w : float; seg_t : float; point_len : float;
  light_x : float; light_y : float; contrast : float; density : float;
  palette : list ascii;
  manual_zoom : float
}.
End Cfg.

(** ** Program-level geometry *)

Section Geometry.
Context {pf : Platform}.
Variable cfg : Cfg.t.

Definition quarter_w : float := (Cfg.W cfg / F32.four)%f32.
Definition quarter_h : float := (Cfg.H cfg / F32.four)%f32.
Definition diag_angle_rad : float := atan2f quarter_h quarter_w.

(** [180.0f] *)
Definition c180 : float := S754_finite false 11796480 (-16).

(** [a * 180.0f / M_PI]: a [float] product divided in [double], then
    stored in a [float] member. *)
Definition to_degrees (a : float) : float :=
  F32.of_double (F64.div (F64.of_float (a * c180)%f32) M_PI).

(** An initializer [{x, y, rot}]; the members left out are zero. *)
Definition seg_init (x y rot : float) : SegmentDef :=
  {| pos_x := x; pos_y := y; rot_z_rad := rot;
     cos_ra := F32.zero; sin_ra := F32.zero |}.

Definition seg_defs_init : list SegmentDef :=
  let W := Cfg.W cfg in
  let H := Cfg.H cfg in
  let i0 := F32.of_int 0 in
  let i2 := F32.of_int 2 in
  let i4 := F32.of_int 4 in
  let i90 := F32.of_int 90 in
  [ seg_init i0 (H / i2)%f32 i0;
    seg_init (W / i2)%f32 (H / i4)%f32 i90;
    seg_init (W / i2)%f32 (- H / i4)%f32 i90;
    seg_init i0 (- H / i2)%f32 i0;
    seg_init (- W / i2)%f32 (- H / i4)%f32 i90;
    seg_init (- W / i2)%f32 (H / i4)%f32 i90;
    seg_init (- quarter_w)%f32 i0 i0;
    seg_init quarter_w i0 i0;
    seg_init (- quarter_w)%f32 quarter_h (to_degrees (- diag_angle_rad)%f32);
    seg_init i0 quarter_h i90;
    seg_init quarter_w quarter_h (to_degrees diag_angle_rad);
    seg_init (- quarter_w)%f32 (- quarter_h)%f32 (to_degrees diag_angle_rad);
    seg_init i0 (- quarter_h)%f32 i90;
    seg_init quarter_w (- quarter_h)%f32 (to_degrees (- diag_angle_rad)%f32) ].

(** The body of the conversion loop: degrees to radians (in [double]), then
    the cosine and sine of the angle. *)
Definition seg_def_of_init (d : SegmentDef) : SegmentDef :=
  let rad :=
    F32.of_double
      (F64.div (F64.mul (F64.of_float (rot_z_rad d)) M_PI)
               (F64.of_float c180)) in
  {| pos_x := pos_x d; pos_y := pos_y d; rot_z_rad := rad;
     cos_ra := cosf rad; sin_ra := sinf rad |}.

Definition seg_defs : list SegmentDef := seg_def_of_init <$> seg_defs_init.

Definition horiz_len : float :=
  (Cfg.W cfg / F32.two - Cfg.seg_w cfg / F32.two)%f32.
Definition vert_outer_len : float :=
  (Cfg.H cfg / F32.two - Cfg.seg_w cfg)%f32.
Definition vert_inner_len : float :=
  (quarter_h - Cfg.seg_w cfg / F32.two)%f32.
Definition diag_len : float :=
  (F32.sqrtf (quarter_w * quarter_w + quarter_h * quarter_h)
   - Cfg.seg_w cfg)%f32.

Definition segment_lengths : list float :=
  [ horiz_len; vert_outer_len; vert_outer_len; horiz_len;
    vert_outer_len; vert_outer_len;
    horiz_len; horiz_len; diag_len; vert_inner_len; diag_len;
    diag_len; vert_inner_len; diag_len ].

Definition char_spacing : float := (Cfg.W cfg * Cfg.spacing_factor cfg)%f32.
End Geometry.

(** ** The frame orchestrator: one iteration of the render loop *)

(** The variables of [main] that live across frames. *)
Module Loop.
Record t : Type := {
  sw : Z; sh : Z;
  zoom : float;
  zbuffer : list float;
  bbuffer : list ascii;
  (** whether [zbuffer] and [bbuffer] point to allocated memory: both are
      [NULL] until the first resize that succeeds, which sets both *)
  allocated : bool;
  A : float; B : float
}.

(** Their values before the first frame ([NULL] buffers are empty). *)
Definition init : t :=
  {| sw := 0; sh := 0; zoom := F32.one; zbuffer := []; bbuffer := [];
     allocated := false;
     A := F32.of_int 0; B := F32.of_int 0 |}.
End Loop.

(** What one frame reads from outside the program. *)
Module Env.
Record t : Type := {
  (** the characters of [text_to_display] for this frame *)
  text : list ascii;
  (** the flag set by [handle_sigwinch] *)
  terminal_resized : bool;
  (** the answer of [get_terminal_size] *)
  ws_col : Z; ws_row : Z;
  (** whether a [realloc] of this frame returns [NULL] *)
  realloc_fails : bool;
  (** the indeterminate contents of freshly allocated cells *)
  fresh_z : nat -> float;
  fresh_b : nat -> ascii
}.
End Env.

(** [realloc(old, n)]: the old cells are kept, new ones are indeterminate. *)
Definition realloc {A : Type} (old : list A) (n : Z) (fresh : nat -> A)
    : list A :=
  (fun i => default (fresh i) (old !! i)) <$> seq 0 (Z.to_nat n).

(** [memset(buf, v, n)] on an array of cells. *)
Definition memset {A : Type} (buf : list A) (v : A) (n : Z) : result (list A) :=
  if (0 <=? n) && (n <=? Z.of_nat (length buf))
  then Ok (replicate (Z.to_nat n) v ++ drop (Z.to_nat n) buf)
  else Undefined.

(** [text_len = strlen(text)], stored in an [int]. *)
Definition text_length (text : list ascii) : Z :=
  Int.of_size_t (Z.of_nat (length text)).

(** A counted loop over the elements of [l]. *)
Fixpoint for_each {A St : Type} (l : list A) (body : A -> St -> result St)
    (s : St) : result St :=
  match l with
  | [] => Ok s
  | a :: l' => s' ← body a s; for_each l' body s'
  end.

(** The outcome of an iteration: the loop goes on with new variables, having
    printed the rows of the screen, or it has cleared [running]. *)
Inductive outcome : Type :=
| Rendered (st : Loop.t) (rows : list (list ascii))
| Stopped.

Section Frame.
Context {pf : Platform}.
Variable cfg : Cfg.t.
Variable fuel : nat.

(** The glyph lookup of the character loop:
    [if (c < ASCII_OFFSET || c >= ASCII_OFFSET + SUPPORTED_CHARS) c = ' ';]
    then [FourteenSegmentASCII[c - ASCII_OFFSET]]. *)
Definition glyph_char (c : Z) : Z :=
  if (c <? ASCII_OFFSET) || (ASCII_OFFSET + SUPPORTED_CHARS <=? c)
  then 32 (* ' ' *) else c.

Definition font_lookup (c : Z) : result Z :=
  load FourteenSegmentASCII (glyph_char c - ASCII_OFFSET).

(** [(seg_data >> i) & 1] *)
Definition segment_on (seg_data i : Z) : bool :=
  negb (Z.land (Z.shiftr seg_data i) 1 =? 0).

(** Iterate through the 14 possible segments for the character. *)
Definition draw_segments (seg_data : Z) (char_center_x : float)
    (ctx : RenderContext) : result RenderContext :=
  for_each (seqZ 0 NUM_SEGMENTS)
    (fun i ctx =>
       if segment_on seg_data i then
         len ← load (segment_lengths cfg) i;
         def ← load (seg_defs cfg) i;
         draw_pointy_segment fuel len (Cfg.seg_w cfg) (Cfg.seg_t cfg)
           (Cfg.point_len cfg) def char_center_x (Cfg.density cfg) ctx
       else Ok ctx)
    ctx.

Definition start_x (text_len : Z) : float :=
  (F32.of_int (- (text_len - 1)) * char_spacing cfg / F32.two)%f32.

Definition total_text_3d_width (text_len : Z) : float :=
  if 1 <? text_len
  then (F32.of_int (text_len - 1) * char_spacing cfg + Cfg.W cfg)%f32
  else Cfg.W cfg.

(** The body of the character loop. *)
Definition draw_char (text_len : Z) (ic : Z * ascii) (ctx : RenderContext)
    : result RenderContext :=
  let '(char_idx, c) := ic in
  seg_data ← font_lookup (char_value c);
  let char_center_x :=
    (start_x text_len + F32.of_int char_idx * char_spacing cfg)%f32 in
  draw_segments seg_data char_center_x ctx.

(** Iterate through each character in the input string. *)
Definition draw_text (text : list ascii) (text_len : Z) (ctx : RenderContext)
    : result RenderContext :=
  for_each (zip (seqZ 0 text_len) text) (draw_char text_len) ctx.

(** The zoom chosen when a resize is handled. *)
Definition auto_zoom (sw sh : Z) (width : float) : float :=
  let zoom_h :=
    (F32.of_int sh * SCREEN_PADDING_FACTOR * CAMERA_DISTANCE / Cfg.H cfg)%f32 in
  let zoom_w :=
    (F32.of_int sw * SCREEN_PADDING_FACTOR * CAMERA_DISTANCE
     / (width * F32.two))%f32 in
  (F32.fminf zoom_h zoom_w / F32.of_int 1)%f32.

Definition resize_zoom (sw sh : Z) (width : float) : float :=
  if (Cfg.manual_zoom cfg <=? F32.of_int 0)%f32
  then auto_zoom sw sh width
  else Cfg.manual_zoom cfg.

(** Handle Terminal Resizing.  [None] stands for the failure branch
    ([running = 0; continue]).  That branch frees what [realloc] returned
    and then the old [zbuffer] and [bbuffer], which the cleanup after the
    loop frees again, the pointers being left as they were: with buffers
    allocated before, a block is freed twice (the one [realloc] could not
    resize, at the cleanup; the one it did resize or move, in the branch
    already), and only [NULL] buffers make it a clean stop. *)
Definition handle_resize (env : Env.t) (width : float) (st : Loop.t)
    : result (option Loop.t) :=
  if Env.terminal_resized env then
    let sw := Env.ws_col env in
    let sh := Env.ws_row env - 1 in
    buffer_size ← Int.mul sw sh;
    if (buffer_size <? 0) || Env.realloc_fails env then
      if Loop.allocated st then Undefined else Ok None
    else
      Ok (Some {| Loop.sw := sw; Loop.sh := sh;
                  Loop.zoom := resize_zoom sw sh width;
                  Loop.zbuffer :=
                    realloc (Loop.zbuffer st) buffer_size (Env.fresh_z env);
                  Loop.bbuffer :=
                    realloc (Loop.bbuffer st) buffer_size (Env.fresh_b env);
                  Loop.allocated := true;
                  Loop.A := Loop.A st; Loop.B := Loop.B st |})
  else Ok (Some st).

(** Create and populate the RenderContext for this frame. *)
Definition make_context (st : Loop.t) : RenderContext :=
  {| zbuffer := Loop.zbuffer st; bbuffer := Loop.bbuffer st;
     sw := Loop.sw st; sh := Loop.sh st;
     cosA := cosf (Loop.A st); sinA := sinf (Loop.A st);
     cosB := cosf (Loop.B st); sinB := sinf (Loop.B st);
     zoom := Loop.zoom st; tilt_factor := Cfg.tilt cfg;
     light_x := Cfg.light_x cfg; light_y := Cfg.light_y cfg;
     contrast := Cfg.contrast cfg;
     palette := Cfg.palette cfg;
     palette_len := Z.of_nat (length (Cfg.palette cfg)) |}.

(** Clear buffers for the new frame. *)
Definition clear_buffers (ctx : RenderContext) : result RenderContext :=
  n ← Int.mul (sw ctx) (sh ctx);
  bb ← memset (bbuffer ctx) " "%char n;
  zb ← memset (zbuffer ctx) F32.zero n;
  mret (set_buffers ctx zb bb).

(** The rows written by the [fwrite] loop. *)
Definition screen_rows (ctx : RenderContext) : list (list ascii) :=
  (fun y => take (Z.to_nat (sw ctx)) (drop (Z.to_nat (y * sw ctx)) (bbuffer ctx)))
    <$> seqZ 0 (sh ctx).

(** The buffers of a frame: context, clearing, character loop. *)
Definition render (text : list ascii) (st : Loop.t) : result RenderContext :=
  ctx ← clear_buffers (make_context st);
  draw_text text (text_length text) ctx.

(** One iteration of the main render loop. *)
Definition frame (env : Env.t) (st : Loop.t) : result outcome :=
  let text_len := text_length (Env.text env) in
  resized ← handle_resize env (total_text_3d_width text_len) st;
  match resized with
  | None => Ok Stopped
  | Some st =>
      ctx ← render (Env.text env) st;
      mret (Rendered
              {| Loop.sw := Loop.sw st; Loop.sh := Loop.sh st;
                 Loop.zoom := Loop.zoom st;
                 Loop.zbuffer := zbuffer ctx; Loop.bbuffer := bbuffer ctx;
                 Loop.allocated := Loop.allocated st;
                 (* Update animation angles for the next frame *)
                 Loop.A := (Loop.A st + Cfg.speedA cfg)%f32;
                 Loop.B := (Loop.B st + Cfg.speedB cfg)%f32 |}
              (screen_rows ctx))
  end.
End Frame.

(** The variables a frame leaves to the next one. *)
Definition next_variables (cfg : Cfg.t) (st : Loop.t) (ctx : RenderContext)
    : Loop.t :=
  {| Loop.sw := Loop.sw st; Loop.sh := Loop.sh st; Loop.zoom := Loop.zoom st;
     Loop.zbuffer := zbuffer ctx; Loop.bbuffer := bbuffer ctx;
     Loop.allocated := Loop.allocated st;
     Loop.A := (Loop.A st + Cfg.speedA cfg)%f32;
     Loop.B := (Loop.B st + Cfg.speedB cfg)%f32 |}.

(** The render loop, run for as long as [running] stays set: one environment
    per iteration. *)
Fixpoint main_loop {pf : Platform} (cfg : Cfg.t) (fuel : nat)
    (envs : list Env.t) (st : Loop.t) : result (list (list (list ascii))) :=
  match envs with
  | [] => Ok []
  | env :: envs' =>
      out ← frame cfg fuel env st;
      match out with
      | Stopped => Ok []
      | Rendered st' rows =>
          rest ← main_loop cfg fuel envs' st'; mret (rows :: rest)
      end
  end.

(** ** Notions used to state the properties *)

(** The screen cell a point is tested against: [None] when the point is
    dropped behind the camera or out of the screen.  This is the prefix of
    [project_and_draw] up to the bounds check. *)
Definition visible_cell (ctx : RenderContext) (x y z : float)
    : result (option Z) :=
  if (final_z ctx x y z <=? F32.zero)%f32 then Ok None else
  xp ← F32.to_int (screen_x ctx x y z);
  yp ← F32.to_int (screen_y ctx x y z);
  swyp ← Int.mul (sw ctx) yp;
  buffer_idx ← Int.add xp swyp;
  if (xp <? 0) || (sw ctx <=? xp) || (yp <? 0) || (sh ctx <=? yp)
  then Ok None else Ok (Some buffer_idx).

(** The character chosen for a normal: the end of [project_and_draw]. *)
Definition shade (ctx : RenderContext) (nx ny nz : float) : result ascii :=
  palette_idx ← palette_index ctx nx ny nz;
  load_cstring (palette ctx) palette_idx.

(** The context once cell [idx] has received depth [d] and character [c]. *)
Definition write_cell (ctx : RenderContext) (idx : Z) (d : float) (c : ascii)
    : RenderContext :=
  set_buffers ctx (<[Z.to_nat idx := d]> (zbuffer ctx))
                  (<[Z.to_nat idx := c]> (bbuffer ctx)).

(** The buffers of a frame in progress: one cell per screen position, and
    depths that are numbers. *)
Record frame_buffers (ctx : RenderContext) : Prop := {
  zbuffer_sized : Z.of_nat (length (zbuffer ctx)) = sw ctx * sh ctx;
  bbuffer_sized : Z.of_nat (length (bbuffer ctx)) = sw ctx * sh ctx;
  zbuffer_numbers : Forall (fun d => F32.is_nan d = false) (zbuffer ctx)
}.

(** The same for the variables of the loop. *)
Record well_sized (st : Loop.t) : Prop := {
  size_in_range : Int.in_range (Loop.sw st * Loop.sh st) = true;
  loop_zbuffer_sized :
    Z.of_nat (length (Loop.zbuffer st)) = Loop.sw st * Loop.sh st;
  loop_bbuffer_sized :
    Z.of_nat (length (Loop.bbuffer st)) = Loop.sw st * Loop.sh st
}.

(** Both buffers of the loop are about to have one cell per screen position:
    either this frame handles a resize that succeeds, or they had before. *)
Definition frame_ready (env : Env.t) (st : Loop.t) : Prop :=
  if Env.terminal_resized env
  then Env.realloc_fails env = false /\
       0 <= Env.ws_col env * (Env.ws_row env - 1) <= Int.max_signed
  else well_sized st.

(** Two environments that differ at most in the indeterminate contents of
    fresh memory. *)
Record same_inputs (env1 env2 : Env.t) : Prop := {
  same_text : Env.text env1 = Env.text env2;
  same_resized : Env.terminal_resized env1 = Env.terminal_resized env2;
  same_ws_col : Env.ws_col env1 = Env.ws_col env2;
  same_ws_row : Env.ws_row env1 = Env.ws_row env2;
  same_realloc : Env.realloc_fails env1 = Env.realloc_fails env2
}.

(** Two values of the loop variables that differ at most in the buffers:
    in what they hold, and in whether they are allocated. *)
Record same_variables (st1 st2 : Loop.t) : Prop := {
  same_sw : Loop.sw st1 = Loop.sw st2;
  same_sh : Loop.sh st1 = Loop.sh st2;
  same_zoom : Loop.zoom st1 = Loop.zoom st2;
  same_A : Loop.A st1 = Loop.A st2;
  same_B : Loop.B st1 = Loop.B st2
}.

(** A frame that handles a resize and gets its buffers. *)
Definition resize_succeeds (env : Env.t) : Prop :=
  Env.terminal_resized env = true /\ Env.realloc_fails env = false /\
  0 <= Env.ws_col env * (Env.ws_row env - 1).

(** Two contexts that differ at most in what the buffers hold. *)
Definition same_settings (ctx ctx' : RenderContext) : Prop :=
  ctx' = set_buffers ctx (zbuffer ctx') (bbuffer ctx').

(** The invariant of the drawing of a frame that started from [ctx0]. *)
Definition drawing_of (ctx0 ctx : RenderContext) : Prop :=
  frame_buffers ctx /\ same_settings ctx0 ctx.

(** A run in front of a terminal that keeps its size, with a fixed text and
    no allocation failure; resizes may be signalled at any frame. *)
Definition steady_run (text : list ascii) (cols rows : Z)
    (envs : list Env.t) : Prop :=
  Forall (fun env =>
            Env.text env = text /\ Env.ws_col env = cols /\
            Env.ws_row env = rows /\ Env.realloc_fails env = false)
         envs.

(** The loop variables of such a run at rest, right after a resize and a
    clear. *)
Definition rest_variables (cfg : Cfg.t) (text : list ascii) (cols rows : Z)
    : Loop.t :=
  let n := Z.to_nat (cols * (rows - 1)) in
  {| Loop.sw := cols; Loop.sh := rows - 1;
     Loop.zoom :=
       resize_zoom cfg cols (rows - 1)
         (total_text_3d_width cfg (text_length text));
     Loop.zbuffer := replicate n F32.zero;
     Loop.bbuffer := replicate n " "%char;
     Loop.allocated := true;
     Loop.A := F32.zero; Loop.B := F32.zero |}.

(** The rows such a run prints while it does not rotate. *)
Definition rest_rows {pf : Platform} (cfg : Cfg.t) (fuel : nat)
    (text : list ascii) (cols rows : Z) : list (list ascii) :=
  match render cfg fuel text (rest_variables cfg text cols rows) with
  | Ok ctx => screen_rows ctx
  | _ => []
  end.

(** A speed of zero, of either sign. *)
Definition is_zero (x : float) : Prop :=
  x = S754_zero false \/ x = S754_zero true.

(** A total order on the floating-point numbers, for the proofs about
    comparisons: the rank of a number grows with its value. *)
Definition rank (x : float) : Z * Z * Z :=
  match x with
  | S754_infinity true => (-2, 0, 0)
  | S754_finite true m e => (-1, - e, - Z.pos m)
  | S754_zero _ => (0, 0, 0)
  | S754_finite false m e => (1, e, Z.pos m)
  | S754_infinity false => (2, 0, 0)
  | S754_nan => (3, 0, 0)
  end.

Definition lex_lt (a b : Z * Z * Z) : Prop :=
  let '(a1, a2, a3) := a in
  let '(b1, b2, b3) := b in
  a1 < b1 \/ (a1 = b1 /\ (a2 < b2 \/ (a2 = b2 /\ a3 < b3))).

(** The four kinds of segment of the specification (section 4.2), and the
    kind of each segment in index order: A, D, G1, G2 lie flat; B, C, E, F
    are the outer uprights; I, L the inner uprights; H, J, K, M the
    diagonals. *)
Inductive segment_kind : Type :=
| Horizontal | VerticalOuter | VerticalInner | Diagonal.

#[global] Instance segment_kind_eq_dec : EqDecision segment_kind.
Proof. solve_decision. Defined.

Definition segment_kinds : list segment_kind :=
  [ Horizontal; VerticalOuter; VerticalOuter; Horizontal;
    VerticalOuter; VerticalOuter;
    Horizontal; Horizontal; Diagonal; VerticalInner; Diagonal;
    Diagonal; VerticalInner; Diagonal ].

(** The length the specification gives to each kind of segment. *)
Definition spec_segment_length (cfg : Cfg.t) (k : segment_kind) : float :=
  let W := Cfg.W cfg in
  let H := Cfg.H cfg in
  let segment_width := Cfg.seg_w cfg in
  match k with
  | Horizontal => (W / F32.two - segment_width / F32.two)%f32
  | VerticalOuter => (H / F32.two - segment_width)%f32
  | VerticalInner => (H / F32.four - segment_width / F32.two)%f32
  | Diagonal =>
      (F32.sqrtf ((W / F32.four) * (W / F32.four)
                  + (H / F32.four) * (H / F32.four)) - segment_width)%f32
  end.

(** How a segment of each kind is placed by [seg_defs_init]: flat segments
    are not rotated, uprights are turned by 90 degrees, the outer ones at
    half the glyph width and the inner ones on the axis, and diagonals are
    turned by the diagonal angle. *)
Definition placed_as {pf : Platform} (cfg : Cfg.t) (k : segment_kind)
    (d : SegmentDef) : Prop :=
  match k with
  | Horizontal => rot_z_rad d = F32.of_int 0
  | VerticalOuter =>
      rot_z_rad d = F32.of_int 90 /\
      (pos_x d = (Cfg.W cfg / F32.of_int 2)%f32 \/
       pos_x d = (- Cfg.W cfg / F32.of_int 2)%f32)
  | VerticalInner => rot_z_rad d = F32.of_int 90 /\ pos_x d = F32.of_int 0
  | Diagonal =>
      rot_z_rad d = to_degrees (diag_angle_rad cfg) \/
      rot_z_rad d = to_degrees (- diag_angle_rad cfg)%f32
  end.

(** The palette position the specification gives (section 4.3, step 10):
    [floor(luminance * contrast)], clamped to [[0, palette_length - 1]]. *)
Definition spec_palette_index (ctx : RenderContext) (nx ny nz : float)
    : option Z :=
  f ← F32.floor (luminance ctx nx ny nz * contrast ctx)%f32;
  Some (Z.max 0 (Z.min f (palette_len ctx - 1))).

(** The zoom the specification gives after a resize (section 4.5, step 3). *)
Definition spec_auto_zoom (cfg : Cfg.t) (sw sh : Z) (text_len : Z) : float :=
  let char_spacing := (Cfg.W cfg * Cfg.spacing_factor cfg)%f32 in
  let total_text_width :=
    if 1 <? text_len
    then (F32.of_int (text_len - 1) * char_spacing + Cfg.W cfg)%f32
    else Cfg.W cfg in
  F32.fminf
    (F32.of_int sh * SCREEN_PADDING_FACTOR * CAMERA_DISTANCE / Cfg.H cfg)%f32
    (F32.of_int sw * SCREEN_PADDING_FACTOR * CAMERA_DISTANCE
     / (F32.two * total_text_width))%f32.

(** A sample of a flat face: at half the segment width above or below the
    axis, with the normal pointing straight up or straight down. *)
Definition flat_sample (seg_w : float) (p : sample) : Prop :=
  (s_py p = (seg_w / F32.two)%f32 /\ s_nx p = F32.zero /\ s_ny p = F32.one) \/
  (s_py p = (- seg_w / F32.two)%f32 /\ s_nx p = F32.zero
   /\ s_ny p = F32.of_int (-1)).

(** The values that the variable of a loop
    [for (float i = start; i < bound; i += step)] takes, in order. *)
Fixpoint loop_values (fuel : nat) (i bound step : float)
    : result (list float) :=
  match fuel with
  | O => OutOfFuel
  | S fuel' =>
      if (i <? bound)%f32
      then rest ← loop_values fuel' (i + step)%f32 bound step; mret (i :: rest)
      else Ok []
  end.

(** The two samples of the flat faces at one point of the grid: on the top
    face with the normal up, on the bottom face with the normal down. *)
Definition flat_pair (seg_w i j : float) : list sample :=
  [ {| s_px := i; s_py := (seg_w / F32.two)%f32; s_pz := j;
       s_nx := F32.zero; s_ny := F32.one |};
    {| s_px := i; s_py := (- seg_w / F32.two)%f32; s_pz := j;
       s_nx := F32.zero; s_ny := F32.of_int (-1) |} ].

(** The samples of the two flat faces over a grid: for each position [i]
    along the segment, for each position [j] across its thickness, the top
    sample and then the bottom one. *)
Definition flat_face_samples (seg_w : float) (ivs jvs : list float)
    : list sample :=
  flat_map (fun i => flat_map (fun j => flat_pair seg_w i j) jvs) ivs.

(** A sample handed to [draw_rotated_point]. *)
Definition draw_sample (def : SegmentDef) (char_center_x : float)
    (p : sample) (ctx : RenderContext) : result RenderContext :=
  draw_rotated_point (s_px p) (s_py p) (s_pz p) (s_nx p) (s_ny p) def
    char_center_x ctx.

(** [1e-6f]: a point length whose slope normal, at width 0, is below the
    threshold. *)
Definition tiny_point : float := S754_finite false 8796093 (-43).

(** The configuration with the manual zoom replaced. *)
Definition with_manual_zoom (cfg : Cfg.t) (z : float) : Cfg.t :=
  {| Cfg.speedA := Cfg.speedA cfg; Cfg.speedB := Cfg.speedB cfg;
     Cfg.W := Cfg.W cfg; Cfg.H := Cfg.H cfg; Cfg.tilt := Cfg.tilt cfg;
     Cfg.spacing_factor := Cfg.spacing_factor cfg;
     Cfg.seg_w := Cfg.seg_w cfg; Cfg.seg_t := Cfg.seg_t cfg;
     Cfg.point_len := Cfg.point_len cfg;
     Cfg.light_x := Cfg.light_x cfg; Cfg.light_y := Cfg.light_y cfg;
     Cfg.contrast := Cfg.contrast cfg; Cfg.density := Cfg.density cfg;
     Cfg.palette := Cfg.palette cfg;
     Cfg.manual_zoom := z |}.

(** [manual_zoom = -1.0f]: the value [main] starts from, kept when no [-z]
    option is given. *)
Definition NO_MANUAL_ZOOM : float := S754_finite true 8388608 (-23).

(** ** Sample inputs *)

Module Sample.
(** The defaults of the program ([DEFAULT_*]), as binary32 values. *)
Definition default_cfg : Cfg.t :=
  {| Cfg.speedA := S754_finite false 10737418 (-28);        (* 0.04f *)
     Cfg.speedB := S754_finite false 10737418 (-29);        (* 0.02f *)
     Cfg.W := S754_finite false 8388608 (-20);              (* 8.0f *)
     Cfg.H := S754_finite false 12582912 (-20);             (* 12.0f *)
     Cfg.tilt := S754_finite false 10066330 (-25);          (* 0.3f *)
     Cfg.spacing_factor := S754_finite false 12582912 (-23);(* 1.5f *)
     Cfg.seg_w := S754_finite false 14680064 (-23);         (* 1.75f *)
     Cfg.seg_t := S754_finite false 14680064 (-23);         (* 1.75f *)
     Cfg.point_len := S754_finite false 14260634 (-24);     (* 0.85f *)
     Cfg.light_x := S754_finite false 10066330 (-25);       (* 0.3f *)
     Cfg.light_y := S754_finite false 11744051 (-24);       (* 0.7f *)
     Cfg.contrast := S754_finite false 10485760 (-19);      (* 20.0f *)
     Cfg.density := S754_finite false 13421773 (-27);       (* 0.1f *)
     Cfg.palette := list_ascii_of_string ".,-~:;=!*#$@";
     Cfg.manual_zoom := NO_MANUAL_ZOOM |}.

(** Whether two floating-point data are the same datum. *)
Definition same (x y : float) : bool :=
  match x, y with
  | S754_zero a, S754_zero b => Bool.eqb a b
  | S754_infinity a, S754_infinity b => Bool.eqb a b
  | S754_nan, S754_nan => true
  | S754_finite a m e, S754_finite b m' e' =>
      Bool.eqb a b && (m =? m')%positive && (e =? e')
  | _, _ => false
  end.

(** A function given by a table of values, NaN elsewhere. *)
Fixpoint tabulated (t : list (float * float)) (x : float) : float :=
  match t with
  | [] => S754_nan
  | (a, v) :: t' => if same a x then v else tabulated t' x
  end.

(** The angles of the default geometry at rest, in radians: 0, a right
    angle, and the two diagonal angles. *)
Definition right_angle : float := S754_finite false 13176795 (-23).
Definition diag_up : float := S754_finite false 16488544 (-24).
Definition diag_down : float := S754_finite true 16488544 (-24).

(** A platform whose [libm] is known at those angles only, with a signed
    plain [char]. *)
#[export] Instance platform : Platform :=
  {| cosf := tabulated
       [ (S754_zero false, F32.one);
         (right_angle, S754_finite true 12303662 (-48));
         (diag_up, S754_finite false 9306324 (-24));
         (diag_down, S754_finite false 9306324 (-24)) ];
     sinf := tabulated
       [ (S754_zero false, F32.zero);
         (right_angle, F32.one);
         (diag_up, S754_finite false 13959488 (-24));
         (diag_down, S754_finite true 13959488 (-24)) ];
     atan2f := fun y x =>
       if same y (S754_finite false 12582912 (-22))
          && same x (S754_finite false 8388608 (-22))
       then S754_finite false 16488543 (-24) else S754_nan;
     char_is_signed := true |}.

(** A frame that handles a resize: the terminal reports [cols] columns and
    [rows] rows, and fresh memory holds junk. *)
Definition resized_env (cols rows : Z) (text : string) : Env.t :=
  {| Env.text := list_ascii_of_string text;
     Env.terminal_resized := true;
     Env.ws_col := cols; Env.ws_row := rows;
     Env.realloc_fails := false;
     Env.fresh_z := fun _ => S754_nan;
     Env.fresh_b := fun _ => "?"%char |}.

(** The same environment with other junk in fresh memory. *)
Definition other_memory (env : Env.t) : Env.t :=
  {| Env.text := Env.text env;
     Env.terminal_resized := Env.terminal_resized env;
     Env.ws_col := Env.ws_col env; Env.ws_row := Env.ws_row env;
     Env.realloc_fails := Env.realloc_fails env;
     Env.fresh_z := fun _ => F32.one;
     Env.fresh_b := fun _ => "#"%char |}.

(** The initial loop variables, with buffers that hold leftovers. *)
Definition littered : Loop.t :=
  {| Loop.sw := 0; Loop.sh := 0; Loop.zoom := F32.one;
     Loop.zbuffer := [S754_nan; F32.one]; Loop.bbuffer := ["x"%char];
     Loop.allocated := true;
     Loop.A := F32.of_int 0; Loop.B := F32.of_int 0 |}.

(** The defaults under the option [-d 1]: a coarse sampling step. *)
Definition coarse_cfg : Cfg.t :=
  {| Cfg.speedA := Cfg.speedA default_cfg;
     Cfg.speedB := Cfg.speedB default_cfg;
     Cfg.W := Cfg.W default_cfg; Cfg.H := Cfg.H default_cfg;
     Cfg.tilt := Cfg.tilt default_cfg;
     Cfg.spacing_factor := Cfg.spacing_factor default_cfg;
     Cfg.seg_w := Cfg.seg_w default_cfg; Cfg.seg_t := Cfg.seg_t default_cfg;
     Cfg.point_len := Cfg.point_len default_cfg;
     Cfg.light_x := Cfg.light_x default_cfg;
     Cfg.light_y := Cfg.light_y default_cfg;
     Cfg.contrast := Cfg.contrast default_cfg;
     Cfg.density := F32.one;
     Cfg.palette := Cfg.palette default_cfg;
     Cfg.manual_zoom := NO_MANUAL_ZOOM |}.

(** The coarse configuration under the option [-s 0]: no rotation. *)
Definition still_cfg : Cfg.t :=
  {| Cfg.speedA := F32.zero; Cfg.speedB := F32.zero;
     Cfg.W := Cfg.W default_cfg; Cfg.H := Cfg.H default_cfg;
     Cfg.tilt := Cfg.tilt default_cfg;
     Cfg.spacing_factor := Cfg.spacing_factor default_cfg;
     Cfg.seg_w := Cfg.seg_w default_cfg; Cfg.seg_t := Cfg.seg_t default_cfg;
     Cfg.point_len := Cfg.point_len default_cfg;
     Cfg.light_x := Cfg.light_x default_cfg;
     Cfg.light_y := Cfg.light_y default_cfg;
     Cfg.contrast := Cfg.contrast default_cfg;
     Cfg.density := F32.one;
     Cfg.palette := Cfg.palette default_cfg;
     Cfg.manual_zoom := NO_MANUAL_ZOOM |}.

(** A later frame of the same run: no resize is pending. *)
Definition steady_env (cols rows : Z) (text : string) : Env.t :=
  {| Env.text := list_ascii_of_string text;
     Env.terminal_resized := false;
     Env.ws_col := cols; Env.ws_row := rows;
     Env.realloc_fails := false;
     Env.fresh_z := fun _ => F32.one;
     Env.fresh_b := fun _ => "!"%char |}.

(** A small upright context: a screen of 4 by 3 cells, no rotation, light
    from above, the default palette and contrast. *)
Definition ctx4x3 : RenderContext :=
  {| zbuffer := replicate 12 F32.zero;
     bbuffer := replicate 12 " "%char;
     sw := 4; sh := 3;
     cosA := F32.one; sinA := F32.zero; cosB := F32.one; sinB := F32.zero;
     zoom := F32.one; tilt_factor := F32.zero;
     light_x := F32.zero; light_y := F32.one;
     contrast := Cfg.contrast default_cfg;
     palette := Cfg.palette default_cfg;
     palette_len := 12 |}.

(** The same context under the option [-c 1e10]. *)
Definition ctx_high_contrast : RenderContext :=
  {| zbuffer := zbuffer ctx4x3; bbuffer := bbuffer ctx4x3;
     sw := 4; sh := 3;
     cosA := F32.one; sinA := F32.zero; cosB := F32.one; sinB := F32.zero;
     zoom := F32.one; tilt_factor := F32.zero;
     light_x := F32.zero; light_y := F32.one;
     contrast := S754_finite false 9765625 10;              (* 1e10f *)
     palette := Cfg.palette default_cfg;
     palette_len := 12 |}.

(** A segment definition without rotation, at the origin. *)
Definition upright : SegmentDef :=
  {| pos_x := F32.zero; pos_y := F32.zero; rot_z_rad := F32.zero;
     cos_ra := F32.one; sin_ra := F32.zero |}.
End Sample.


(* ===================================================================== *)
(** * Part I, continued: the rest of the program                          *)
(* ===================================================================== *)

(** ** More notions used to state properties *)

(** One cell of the frame, depth and character, from one call of the
    projector to the next: either it is left as it was, or its depth has
    strictly grown. *)
Definition cell_step (old new : float * ascii) : Prop :=
  new = old \/ F32.ltb old.1 new.1 = true.

(** A cell of a frame in progress: its depth is a number that is not
    negative, a cell still at depth 0 shows a space, and what a cell shows is
    a space or a character of the palette. *)
Definition cell_shown (pal : list ascii) (d : float) (c : ascii) : Prop :=
  F32.leb F32.zero d = true /\
  (F32.leb d F32.zero = true -> c = " "%char) /\
  (c = " "%char \/ c ∈ pal).

(** The context of a non-empty palette whose length is the recorded one, as
    [main] builds it. *)
Definition palette_usable (ctx : RenderContext) : Prop :=
  palette_len ctx = Z.of_nat (length (palette ctx)) /\
  0 < palette_len ctx <= Int.max_signed.

(** All the cells of [ctx'] against those of [ctx]: each one is unchanged or
    has a strictly greater depth. *)
Definition cells_raised (ctx ctx' : RenderContext) : Prop :=
  forall i d c d' c',
    zbuffer ctx !! i = Some d -> bbuffer ctx !! i = Some c ->
    zbuffer ctx' !! i = Some d' -> bbuffer ctx' !! i = Some c' ->
    cell_step (d, c) (d', c').

(** A very wide screen under the option [-z 1000000]. *)
Definition ctx_wide : RenderContext :=
  {| zbuffer := []; bbuffer := [];
     sw := 65535; sh := 3;
     cosA := F32.one; sinA := F32.zero; cosB := F32.one; sinB := F32.zero;
     zoom := F32.of_int 1000000; tilt_factor := F32.zero;
     light_x := F32.zero; light_y := F32.one;
     contrast := F32.of_int 20;
     palette := list_ascii_of_string ".,-~:;=!*#$@";
     palette_len := 12 |}.

(** The small upright context with an empty [-P] argument: an empty palette. *)
Definition ctx_no_palette : RenderContext :=
  {| zbuffer := replicate 12 F32.zero;
     bbuffer := replicate 12 " "%char;
     sw := 4; sh := 3;
     cosA := F32.one; sinA := F32.zero; cosB := F32.one; sinB := F32.zero;
     zoom := F32.one; tilt_factor := F32.zero;
     light_x := F32.zero; light_y := F32.one;
     contrast := F32.of_int 20;
     palette := []; palette_len := 0 |}.

(** [1e-9f], a sampling step far below the spacing of the numbers around
    the segment ends. *)
Definition tiny_density : float := S754_finite false 9007199 (-53).

(** A floating-point datum that is a number: a zero or a finite value. *)
Definition is_finite (x : float) : bool :=
  match x with
  | S754_zero _ | S754_finite _ _ _ => true
  | _ => false
  end.

(** A zero of either sign, as a test. *)
Definition is_zero_b (x : float) : bool :=
  match x with S754_zero _ => true | _ => false end.

(** A resize that the allocator refuses. *)
Definition no_memory_env (cols rows : Z) (text : string) : Env.t :=
  {| Env.text := list_ascii_of_string text;
     Env.terminal_resized := true;
     Env.ws_col := cols; Env.ws_row := rows;
     Env.realloc_fails := true;
     Env.fresh_z := fun _ => S754_nan;
     Env.fresh_b := fun _ => "?"%char |}.

(** ** Argument parsing *)

(** The [float] variables the options assign. *)
Inductive float_var : Type :=
| V_speedA | V_speedB | V_W | V_H | V_tilt | V_spacing_factor
| V_seg_w | V_seg_t | V_point_len | V_light_x | V_light_y
| V_contrast | V_density | V_manual_zoom.

#[global] Instance float_var_eq_dec : EqDecision float_var.
Proof. solve_decision. Defined.

(** The assignment [var = v]. *)
Definition assign (var : float_var) (v : float) (cfg : Cfg.t) : Cfg.t :=
  let pick (x : float_var) (old : float) : float :=
    if decide (x = var) then v else old in
  {| Cfg.speedA := pick V_speedA (Cfg.speedA cfg);
     Cfg.speedB := pick V_speedB (Cfg.speedB cfg);
     Cfg.W := pick V_W (Cfg.W cfg); Cfg.H := pick V_H (Cfg.H cfg);
     Cfg.tilt := pick V_tilt (Cfg.tilt cfg);
     Cfg.spacing_factor := pick V_spacing_factor (Cfg.spacing_factor cfg);
     Cfg.seg_w := pick V_seg_w (Cfg.seg_w cfg);
     Cfg.seg_t := pick V_seg_t (Cfg.seg_t cfg);
     Cfg.point_len := pick V_point_len (Cfg.point_len cfg);
     Cfg.light_x := pick V_light_x (Cfg.light_x cfg);
     Cfg.light_y := pick V_light_y (Cfg.light_y cfg);
     Cfg.contrast := pick V_contrast (Cfg.contrast cfg);
     Cfg.density := pick V_density (Cfg.density cfg);
     Cfg.palette := Cfg.palette cfg;
     Cfg.manual_zoom := pick V_manual_zoom (Cfg.manual_zoom cfg) |}.

(** The assignment [palette = optarg]. *)
Definition assign_palette (p : list ascii) (cfg : Cfg.t) : Cfg.t :=
  {| Cfg.speedA := Cfg.speedA cfg; Cfg.speedB := Cfg.speedB cfg;
     Cfg.W := Cfg.W cfg; Cfg.H := Cfg.H cfg; Cfg.tilt := Cfg.tilt cfg;
     Cfg.spacing_factor := Cfg.spacing_factor cfg;
     Cfg.seg_w := Cfg.seg_w cfg; Cfg.seg_t := Cfg.seg_t cfg;
     Cfg.point_len := Cfg.point_len cfg;
     Cfg.light_x := Cfg.light_x cfg; Cfg.light_y := Cfg.light_y cfg;
     Cfg.contrast := Cfg.contrast cfg; Cfg.density := Cfg.density cfg;
     Cfg.palette := p;
     Cfg.manual_zoom := Cfg.manual_zoom cfg |}.

(** The configuration variables of [main] that the options set. *)
Record settings : Type := {
  cfg_of : Cfg.t;
  time_date_format : list ascii
}.

(** How the option loop ends: [main] goes on, or returns a status. *)
Inductive parsed : Type :=
| Proceed (s : settings)
| Return (status : Z).

Section Options.
(** [atof], a [double]; and [sscanf(optarg, "%f,%f", ...)] when it
    converts both numbers. *)
Variable atof : list ascii -> float.
Variable sscanf_pair : list ascii -> option (float * float).

Definition set_cfg (s : settings) (cfg : Cfg.t) : settings :=
  {| cfg_of := cfg; time_date_format := time_date_format s |}.

(** [var = atof(optarg)], narrowed to [float]. *)
Definition assign_atof (var : float_var) (optarg : list ascii) (s : settings)
    : settings :=
  set_cfg s (assign var (F32.of_double (atof optarg)) (cfg_of s)).

(** The body of the [switch (opt)]. *)
Definition handle_option (opt : ascii) (optarg : list ascii) (s : settings)
    : parsed :=
  if Ascii.eqb opt "s" then
    let s := assign_atof V_speedA optarg s in
    Proceed (set_cfg s
               (assign V_speedB
                  (F32.of_double (F64.div (atof optarg) (F64.of_float F32.two)))
                  (cfg_of s)))
  else if Ascii.eqb opt "a" then Proceed (assign_atof V_speedA optarg s)
  else if Ascii.eqb opt "b" then Proceed (assign_atof V_speedB optarg s)
  else if Ascii.eqb opt "w" then Proceed (assign_atof V_W optarg s)
  else if Ascii.eqb opt "h" then Proceed (assign_atof V_H optarg s)
  else if Ascii.eqb opt "z" then Proceed (assign_atof V_manual_zoom optarg s)
  else if Ascii.eqb opt "t" then Proceed (assign_atof V_tilt optarg s)
  else if Ascii.eqb opt "W" then Proceed (assign_atof V_seg_w optarg s)
  else if Ascii.eqb opt "T" then Proceed (assign_atof V_seg_t optarg s)
  else if Ascii.eqb opt "p" then Proceed (assign_atof V_point_len optarg s)
  else if Ascii.eqb opt "P" then
    Proceed (set_cfg s (assign_palette optarg (cfg_of s)))
  else if Ascii.eqb opt "c" then Proceed (assign_atof V_contrast optarg s)
  else if Ascii.eqb opt "d" then
    let s := assign_atof V_density optarg s in
    if (Cfg.density (cfg_of s) <=? F32.of_int 0)%f32 then Return 1
    else Proceed s
  else if Ascii.eqb opt "L" then
    match sscanf_pair optarg with
    | Some (lx, ly) =>
        Proceed (set_cfg s (assign V_light_y ly
                              (assign V_light_x lx (cfg_of s))))
    | None => Return 1
    end
  else if Ascii.eqb opt "S" then
    Proceed (assign_atof V_spacing_factor optarg s)
  else if Ascii.eqb opt "f" then
    Proceed {| cfg_of := cfg_of s; time_date_format := optarg |}
  else Return (if Ascii.eqb opt "?" then 0 else 1).

(** The [while ((opt = getopt(...)) != -1)] loop, over the options that
    [getopt] returns with their arguments. *)
Fixpoint parse_options (opts : list (ascii * list ascii)) (s : settings)
    : parsed :=
  match opts with
  | [] => Proceed s
  | (opt, optarg) :: rest =>
      match handle_option opt optarg s with
      | Proceed s' => parse_options rest s'
      | Return status => Return status
      end
  end.
End Options.

(** ** Text Handling: the arguments joined by spaces *)

Definition NUL : ascii := "000"%char.

(** [total_len += strlen(argv[i]) + 1]; the sum of the sizes of strings
    that are in memory does not wrap around. *)
Definition total_len (args : list (list ascii)) : Z :=
  foldl (fun n a => n + (Z.of_nat (length a) + 1)) 0 args.

(** Characters stored from [pos] on, one after the other. *)
Fixpoint write_chars (buf : list ascii) (pos : Z) (s : list ascii)
    : result (list ascii) :=
  match s with
  | [] => Ok buf
  | c :: s' => buf ← store buf pos c; write_chars buf (pos + 1) s'
  end.

(** [strcpy(current_pos, src)]: the characters of [src] and its
    terminator. *)
Definition strcpy (buf : list ascii) (pos : Z) (src : list ascii)
    : result (list ascii) :=
  write_chars buf pos (src ++ [NUL]).

(** The copying loop; returns the buffer and [current_pos]. *)
Fixpoint copy_args (args : list (list ascii)) (buf : list ascii) (pos : Z)
    : result (list ascii * Z) :=
  match args with
  | [] => Ok (buf, pos)
  | a :: rest =>
      buf ← strcpy buf pos a;
      let pos := pos + Z.of_nat (length a) in
      match rest with
      | [] => copy_args rest buf pos
      | _ :: _ => buf ← store buf pos " "%char; copy_args rest buf (pos + 1)
      end
  end.

(** The block of [main] that builds [combined_args]: [malloc] fails
    ([None], and [main] returns 1, which is [None] here too) or gives
    [total_len] characters of indeterminate contents [fresh]. *)
Definition combine_args (args : list (list ascii))
    (malloc : option (nat -> ascii)) : result (option (list ascii)) :=
  match malloc with
  | None => Ok None
  | Some fresh =>
      let buf := fresh <$> seq 0 (Z.to_nat (total_len args)) in
      '(buf, pos) ← copy_args args buf 0;
      buf ← store buf pos NUL;
      mret (Some buf)
  end.

(** The arguments with one space between two of them. *)
Fixpoint spaced (args : list (list ascii)) : list ascii :=
  match args with
  | [] => []
  | [a] => a
  | a :: rest => a ++ " "%char :: spaced rest
  end.

(** ** Frame pacing (the POSIX branch, with [long] and [time_t] of 64
    bits) *)

Module Long.
Definition min_signed : Z := - 2 ^ 63.
Definition max_signed : Z := 2 ^ 63 - 1.

Definition in_range (z : Z) : bool :=
  (min_signed <=? z) && (z <=? max_signed).

(** The value of a [long] expression: undefined on overflow. *)
Definition checked (z : Z) : result Z :=
  if in_range z then Ok z else Undefined.

Definition add (a b : Z) : result Z := checked (a + b).
Definition sub (a b : Z) : result Z := checked (a - b).
Definition mul (a b : Z) : result Z := checked (a * b).
End Long.

Definition TARGET_FPS : Z := 30.

(** [1000000000L / TARGET_FPS] *)
Definition target_frame_ns : Z := 1000000000 ÷ TARGET_FPS.

Record timespec : Type := { tv_sec : Z; tv_nsec : Z }.

(** [(frame_end.tv_sec - frame_start.tv_sec) * 1000000000L
     + (frame_end.tv_nsec - frame_start.tv_nsec)] *)
Definition elapsed_ns (frame_start frame_end : timespec) : result Z :=
  s ← Long.sub (tv_sec frame_end) (tv_sec frame_start);
  s ← Long.mul s 1000000000;
  n ← Long.sub (tv_nsec frame_end) (tv_nsec frame_start);
  Long.add s n.

(** The argument of [nanosleep], if it is called. *)
Definition sleep_time (frame_start frame_end : timespec)
    : result (option timespec) :=
  elapsed ← elapsed_ns frame_start frame_end;
  if elapsed <? target_frame_ns then
    remainder_ns ← Long.sub target_frame_ns elapsed;
    mret (Some {| tv_sec := remainder_ns ÷ 1000000000;
                  tv_nsec := Z.rem remainder_ns 1000000000 |})
  else mret None.

(** A time in nanoseconds. *)
Definition nanoseconds (t : timespec) : Z := tv_sec t * 1000000000 + tv_nsec t.

(** A time as the clock gives it. *)
Definition clock_time (t : timespec) : Prop :=
  0 <= tv_sec t < 2 ^ 32 /\ 0 <= tv_nsec t < 1000000000.

(** Sample inputs of the parser. *)
Definition sample_atof (s : list ascii) : float :=
  if String.eqb (string_of_list_ascii s) "0.5"
  then S754_finite false 4503599627370496 (-53)
  else if String.eqb (string_of_list_ascii s) "nan" then S754_nan
  else S754_zero false.

Definition sample_sscanf_pair (s : list ascii) : option (float * float) :=
  if String.eqb (string_of_list_ascii s) "1,0" then Some (F32.one, F32.zero)
  else None.

Definition default_settings : settings :=
  {| cfg_of := Sample.default_cfg;
     time_date_format := list_ascii_of_string "%H:%M" |}.

(* ===================================================================== *)
(** * Part II: properties                                                 *)
(* ===================================================================== *)

(** ** The constants and the conversions, checked on values *)

(** The decimal constants of the source are the nearest binary data. *)
Example constants_are_nearest :
  F32.of_int 25 = CAMERA_DISTANCE /\
  F32.div (F32.of_int 85) (F32.of_int 100) = SCREEN_PADDING_FACTOR /\
  SFdiv F64.prec F64.emax
    (binary_normalize F64.prec F64.emax 1 0 false)
    (binary_normalize F64.prec F64.emax 100000 0 false) = NL_THRESHOLD /\
  F32.of_int 180 = c180 /\
  F32.of_int (-1) = NO_MANUAL_ZOOM /\
  (F32.of_int 1, F32.of_int 2, F32.of_int 4) = (F32.one, F32.two, F32.four).
Proof. repeat split; reflexivity. Qed.

Example M_PI_digits :
  exists m, M_PI = S754_finite false m (-51) /\
    3141592653589793 * 2 ^ 51 <= Z.pos m * 10 ^ 15
      < 3141592653589794 * 2 ^ 51.
Proof. eexists. split; [reflexivity|]. split; vm_compute; congruence. Qed.

Example default_cfg_values :
  let r a b := F32.div (F32.of_int a) (F32.of_int b) in
  Sample.default_cfg =
  {| Cfg.speedA := r 4 100; Cfg.speedB := r 2 100;
     Cfg.W := F32.of_int 8; Cfg.H := F32.of_int 12; Cfg.tilt := r 3 10;
     Cfg.spacing_factor := r 15 10;
     Cfg.seg_w := r 175 100; Cfg.seg_t := r 175 100;
     Cfg.point_len := r 85 100;
     Cfg.light_x := r 3 10; Cfg.light_y := r 7 10;
     Cfg.contrast := F32.of_int 20; Cfg.density := r 1 10;
     Cfg.palette := list_ascii_of_string ".,-~:;=!*#$@";
     Cfg.manual_zoom := F32.of_int (-1) |}.
Proof. reflexivity. Qed.

(** The cast to [int] truncates toward zero and is undefined out of range;
    [floor] rounds down. *)
Example to_int_values :
  let half := F32.div F32.one F32.two in
  F32.to_int (F32.add F32.two half) = Ok 2 /\
  F32.to_int (F32.neg (F32.add F32.two half)) = Ok (-2) /\
  F32.floor (F32.neg (F32.add F32.two half)) = Some (-3) /\
  F32.to_int (F32.neg half) = Ok 0 /\
  F32.floor (F32.neg half) = Some (-1) /\
  F32.to_int (F32.of_int (2 ^ 31 - 128)) = Ok (2 ^ 31 - 128) /\
  F32.to_int (F32.of_int (2 ^ 31)) = Undefined /\
  F32.to_int (F32.of_int (- 2 ^ 31)) = Ok (- 2 ^ 31) /\
  F32.to_int (F32.div F32.one F32.zero) = Undefined /\
  F32.to_int (F32.div F32.zero F32.zero) = Undefined.
Proof. repeat split; reflexivity. Qed.

(** A [float] compares with the [double] constant by value. *)
Example nl_threshold_values :
  let tiny := F32.div F32.one (F32.of_int 1000000) in
  let small := F32.div F32.one (F32.of_int 10000) in
  F64.ltb (F64.of_float tiny) NL_THRESHOLD = true /\
  F64.ltb (F64.of_float small) NL_THRESHOLD = false /\
  F64.ltb (F64.of_float F32.zero) NL_THRESHOLD = true.
Proof. repeat split; reflexivity. Qed.

(** ** Facts about binary floating-point arithmetic *)

(** *** Comparisons *)

Lemma SFcompare_rank (x y : float) :
  F32.is_nan x = false -> F32.is_nan y = false ->
  match SFcompare x y with
  | Some Lt => lex_lt (rank x) (rank y)
  | Some Eq => rank x = rank y
  | Some Gt => lex_lt (rank y) (rank x)
  | None => False
  end.
Proof.
  destruct x as [sx|sx| |sx mx ex], y as [sy|sy| |sy my ey]; try discriminate;
    intros _ _; try (destruct sx); try (destruct sy); simpl; try lia; auto.
  all: change (Pos.compare_cont Eq mx my) with (Pos.compare mx my).
  all: destruct (Z.compare_spec ex ey); try lia;
       destruct (Pos.compare_spec mx my); simpl; subst; try lia; auto.
Qed.

Lemma ltb_not_nan (x y : float) :
  F32.ltb x y = true -> F32.is_nan x = false /\ F32.is_nan y = false.
Proof. destruct x, y; try discriminate; auto. Qed.

Lemma leb_not_nan (x y : float) :
  F32.leb x y = true -> F32.is_nan x = false /\ F32.is_nan y = false.
Proof. destruct x, y; try discriminate; auto. Qed.

Lemma ltb_rank (x y : float) :
  F32.ltb x y = true <->
  F32.is_nan x = false /\ F32.is_nan y = false /\ lex_lt (rank x) (rank y).
Proof.
  split.
  - intros Hlt. destruct (ltb_not_nan _ _ Hlt) as [Hx Hy].
    pose proof (SFcompare_rank x y Hx Hy) as Hc.
    unfold F32.ltb, SFltb in Hlt.
    destruct (SFcompare x y) as [[]|]; try discriminate; auto.
  - intros (Hx & Hy & Hr). pose proof (SFcompare_rank x y Hx Hy) as Hc.
    unfold F32.ltb, SFltb.
    destruct (SFcompare x y) as [[]|]; try reflexivity; try contradiction;
      exfalso; destruct (rank x) as [[a1 a2] a3], (rank y) as [[b1 b2] b3];
      simpl in *; try (inversion Hc; subst); lia.
Qed.

Lemma leb_rank (x y : float) :
  F32.leb x y = true <->
  F32.is_nan x = false /\ F32.is_nan y = false /\
  (lex_lt (rank x) (rank y) \/ rank x = rank y).
Proof.
  split.
  - intros Hle. destruct (leb_not_nan _ _ Hle) as [Hx Hy].
    pose proof (SFcompare_rank x y Hx Hy) as Hc.
    unfold F32.leb, SFleb in Hle.
    destruct (SFcompare x y) as [[]|]; try discriminate; auto.
  - intros (Hx & Hy & Hr). pose proof (SFcompare_rank x y Hx Hy) as Hc.
    unfold F32.leb, SFleb.
    destruct (SFcompare x y) as [[]|]; try reflexivity; try contradiction.
    exfalso; destruct (rank x) as [[a1 a2] a3], (rank y) as [[b1 b2] b3].
    simpl in *. destruct Hr as [Hr|Hr]; [lia | inversion Hr; subst; lia].
Qed.

(** [a < b] excludes [b <= a]. *)
Lemma ltb_leb_false (a b : float) :
  F32.ltb a b = true -> F32.leb b a = false.
Proof.
  intros Hlt. apply ltb_rank in Hlt as (Ha & Hb & Hr).
  destruct (F32.leb b a) eqn:Hle; [|reflexivity].
  apply leb_rank in Hle as (_ & _ & Hr').
  exfalso; destruct (rank a) as [[a1 a2] a3], (rank b) as [[b1 b2] b3].
  simpl in *. destruct Hr' as [Hr'|Hr']; [lia | inversion Hr'; subst; lia].
Qed.

Lemma ltb_leb (a b : float) : F32.ltb a b = true -> F32.leb a b = true.
Proof.
  intros Hlt. apply ltb_rank in Hlt as (Ha & Hb & Hr).
  apply leb_rank; auto.
Qed.

(** [a < b] and [b <= c] give [a <= c]. *)
Lemma ltb_leb_trans (a b c : float) :
  F32.ltb a b = true -> F32.leb b c = true -> F32.leb a c = true.
Proof.
  intros Hab Hbc. apply ltb_rank in Hab as (Ha & Hb & Hr).
  apply leb_rank in Hbc as (_ & Hc & Hr').
  apply leb_rank. repeat split; auto. left.
  destruct (rank a) as [[a1 a2] a3], (rank b) as [[b1 b2] b3],
           (rank c) as [[c1 c2] c3].
  simpl in *. destruct Hr' as [Hr'|Hr']; [lia | inversion Hr'; subst; lia].
Qed.

Lemma leb_trans (a b c : float) :
  F32.leb a b = true -> F32.leb b c = true -> F32.leb a c = true.
Proof.
  intros Hab Hbc. apply leb_rank in Hab as (Ha & Hb & Hr).
  apply leb_rank in Hbc as (_ & Hc & Hr').
  apply leb_rank. repeat split; auto.
  destruct (rank a) as [[a1 a2] a3], (rank b) as [[b1 b2] b3],
           (rank c) as [[c1 c2] c3].
  simpl in *.
  destruct Hr as [Hr|Hr], Hr' as [Hr'|Hr'];
    try (inversion Hr; subst); try (inversion Hr'; subst); auto; left; lia.
Qed.

(** Between numbers, [a <= b] fails exactly when [b < a]. *)
Lemma leb_false_ltb (a b : float) :
  F32.is_nan a = false -> F32.is_nan b = false ->
  F32.leb a b = false -> F32.ltb b a = true.
Proof.
  intros Ha Hb Hle. pose proof (SFcompare_rank a b Ha Hb) as Hc.
  apply ltb_rank. repeat split; auto.
  unfold F32.leb, SFleb in Hle.
  destruct (SFcompare a b) as [[]|]; try discriminate; auto; contradiction.
Qed.

(** *** NaN is absorbing, and has no integer part *)

Lemma mul_nan_r (x : float) : F32.mul x S754_nan = S754_nan.
Proof. now destruct x. Qed.

Lemma add_nan_r (x : float) : F32.add x S754_nan = S754_nan.
Proof. now destruct x. Qed.

Lemma sub_nan_r (x : float) : F32.sub x S754_nan = S754_nan.
Proof. now destruct x. Qed.

Lemma to_int_nan : F32.to_int S754_nan = Undefined.
Proof. reflexivity. Qed.

(** *** Multiplication commutes *)

Lemma F32_mul_comm (x y : float) : F32.mul x y = F32.mul y x.
Proof.
  destruct x as [sx|sx| |sx mx ex], y as [sy|sy| |sy my ey]; cbn;
    try reflexivity; try (now rewrite xorb_comm).
  now rewrite xorb_comm, Pos.mul_comm, Z.add_comm.
Qed.

(** *** Rounding yields data of the format *)

Lemma digits2_pos_size p : digits2_pos p = Pos.size p.
Proof. induction p; simpl; congruence. Qed.

Lemma Zdigits2_log2 m : 0 < m -> Zdigits2 m = Z.log2 m + 1.
Proof.
  destruct m as [|p|p]; try lia. intros _. simpl. rewrite digits2_pos_size.
  destruct p; simpl; lia.
Qed.

Lemma Zdigits2_nonneg m : 0 <= Zdigits2 m.
Proof. destruct m; simpl; lia. Qed.

Lemma Zdigits2_mono a b : 0 <= a <= b -> Zdigits2 a <= Zdigits2 b.
Proof.
  intros [Ha Hab]. destruct (Z.eq_dec a 0) as [->|Hne].
  - apply Zdigits2_nonneg.
  - rewrite !Zdigits2_log2 by lia. pose proof (Z.log2_le_mono a b Hab). lia.
Qed.

Lemma Zdigits2_div_pow2 m n :
  0 <= n -> 0 < m / 2 ^ n -> Zdigits2 (m / 2 ^ n) = Zdigits2 m - n.
Proof.
  intros Hn Hpos.
  assert (Hm : 0 < m).
  { destruct (Z_lt_le_dec 0 m) as [|Hle]; [assumption|].
    assert (m / 2 ^ n <= 0); [|lia].
    apply Z.div_le_upper_bound; [apply Z.pow_pos_nonneg; lia | lia]. }
  rewrite !Zdigits2_log2 by lia.
  rewrite <- Z.shiftr_div_pow2 in * by lia.
  rewrite Z.log2_shiftr by lia.
  destruct (Z_lt_le_dec (Z.log2 m) n) as [Hlt|Hge]; [|lia].
  exfalso. rewrite Z.shiftr_div_pow2 in Hpos by lia.
  assert (m < 2 ^ n).
  { apply Z.log2_lt_pow2; lia. }
  rewrite Z.div_small in Hpos by lia. lia.
Qed.

Lemma shr_1_m mrs : 0 <= shr_m mrs -> shr_m (shr_1 mrs) = shr_m mrs / 2.
Proof.
  destruct mrs as [m r s]. cbn [shr_m]. intros Hm. rewrite <- Z.div2_div.
  destruct m as [|[p|p|]|p]; try reflexivity; lia.
Qed.

Lemma div_pow2_nonneg a b : 0 <= a -> 0 <= a / 2 ^ b.
Proof.
  intros Ha. destruct (Z_lt_le_dec b 0).
  - rewrite Z.pow_neg_r by lia. now rewrite Z.div_0_r.
  - apply Z.div_pos; [lia | apply Z.pow_pos_nonneg; lia].
Qed.

Lemma div_pow2_add a b c :
  0 <= b -> 0 <= c -> a / 2 ^ b / 2 ^ c = a / 2 ^ (b + c).
Proof.
  intros Hb Hc. rewrite Z.pow_add_r by lia.
  pose proof (Z.pow_pos_nonneg 2 b). pose proof (Z.pow_pos_nonneg 2 c).
  rewrite Z.div_div by lia. reflexivity.
Qed.

Lemma iter_shr_1_m p : forall mrs,
  0 <= shr_m mrs -> shr_m (SpecFloat.iter_pos shr_1 p mrs) = shr_m mrs / 2 ^ Z.pos p.
Proof.
  induction p as [p IH|p IH|]; intros mrs Hm; cbn [SpecFloat.iter_pos].
  - rewrite IH, IH, shr_1_m; auto.
    + change 2 with (2 ^ 1) at 1. rewrite !div_pow2_add by lia. f_equal. f_equal. lia.
    + rewrite shr_1_m by auto. change 2 with (2 ^ 1). now apply div_pow2_nonneg.
    + rewrite IH.
      * apply div_pow2_nonneg. rewrite shr_1_m by auto. change 2 with (2 ^ 1). now apply div_pow2_nonneg.
      * rewrite shr_1_m by auto. change 2 with (2 ^ 1). now apply div_pow2_nonneg.
  - rewrite IH, IH; auto.
    + rewrite !div_pow2_add by lia. f_equal. f_equal. lia.
    + rewrite IH by auto. now apply div_pow2_nonneg.
  - rewrite shr_1_m by auto. reflexivity.
Qed.

(** After [shr_fexp], the exponent is the canonical one of the input and the
    significand is the input shifted right accordingly. *)
Lemma shr_fexp_spec prec emax m e l :
  0 <= m -> e <= fexp prec emax (Zdigits2 m + e) ->
  let '(mrs, e') := shr_fexp prec emax m e l in
  e' = fexp prec emax (Zdigits2 m + e) /\ shr_m mrs = m / 2 ^ (e' - e).
Proof.
  intros Hm He. unfold shr_fexp, shr.
  assert (Hm' : shr_m (shr_record_of_loc m l) = m).
  { destruct l as [|[]]; reflexivity. }
  destruct (fexp prec emax (Zdigits2 m + e) - e) as [|p|p] eqn:Hn; try lia.
  - split; [lia|]. replace (e - e) with 0 by lia. rewrite Hm'. now rewrite Z.div_1_r.
  - split; [lia|]. rewrite iter_shr_1_m by lia. rewrite Hm'. f_equal. f_equal. lia.
Qed.

Lemma round_nearest_even_bounds m l :
  m <= round_nearest_even m l <= m + 1.
Proof. destruct l as [|[]]; simpl; try lia. destruct (Z.even m); lia. Qed.

Lemma binary_round_aux_valid prec emax s m e l :
  0 < prec -> 0 <= m -> e <= fexp prec emax (Zdigits2 m + e) ->
  valid_binary prec emax (binary_round_aux prec emax s m e l) = true.
Proof.
  intros Hprec Hm He. unfold binary_round_aux.
  pose proof (shr_fexp_spec prec emax m e l Hm He) as H1.
  destruct (shr_fexp prec emax m e l) as [mrs' e'].
  destruct H1 as [He' Hm'].
  set (m1 := round_nearest_even (shr_m mrs') (loc_of_shr_record mrs')).
  pose proof (round_nearest_even_bounds (shr_m mrs') (loc_of_shr_record mrs')) as Hb.
  fold m1 in Hb.
  assert (Hm'0 : 0 <= shr_m mrs') by (rewrite Hm'; now apply div_pow2_nonneg).
  assert (He1 : e' <= fexp prec emax (Zdigits2 m1 + e')).
  { destruct (Z.eq_dec (shr_m mrs') 0) as [Hz|Hnz].
    - (* the significand was shifted out: the exponent is the least one *)
      destruct (Z.eq_dec m 0) as [->|Hm0].
      + cbn [Zdigits2] in *. unfold fexp in *. lia.
      + assert (Hsmall : m < 2 ^ (e' - e)).
        { destruct (Z_lt_le_dec m (2 ^ (e' - e))) as [|Hge]; [assumption|].
          exfalso. rewrite Hm' in Hz.
          pose proof (Z.pow_pos_nonneg 2 (e' - e) ltac:(lia) ltac:(lia)).
          pose proof (Z.div_le_mono (2 ^ (e' - e)) m (2 ^ (e' - e)) ltac:(lia) Hge) as Hd.
          rewrite Z.div_same in Hd by lia. lia. }
        assert (Hlog : Z.log2 m < e' - e).
        { apply Z.log2_lt_pow2; lia. }
        rewrite (Zdigits2_log2 m) in He' by lia.
        unfold fexp in *. lia.
    - assert (Hd : Zdigits2 (shr_m mrs') = Zdigits2 m - (e' - e)).
      { rewrite Hm'. apply Zdigits2_div_pow2; lia. }
      pose proof (Zdigits2_mono (shr_m mrs') m1 ltac:(lia)).
      unfold fexp in *. lia. }
  pose proof (shr_fexp_spec prec emax m1 e' loc_Exact ltac:(lia) He1) as H2.
  destruct (shr_fexp prec emax m1 e' loc_Exact) as [mrs'' e''].
  destruct H2 as [He'' Hm''].
  destruct (shr_m mrs'') as [|p|p] eqn:Hp; try reflexivity.
  destruct (e'' <=? emax - prec) eqn:Hle; try reflexivity.
  cbn [valid_binary]. unfold bounded. rewrite Hle, andb_true_r.
  unfold canonical_mantissa. apply Z.eqb_eq.
  change (Z.pos (digits2_pos p)) with (Zdigits2 (Z.pos p)).
  rewrite Hm'', Zdigits2_div_pow2 by lia.
  replace (Zdigits2 m1 - (e'' - e') + e'') with (Zdigits2 m1 + e') by lia.
  now symmetry.
Qed.

Lemma Zdigits2_bounds m :
  0 < m -> 2 ^ (Zdigits2 m - 1) <= m < 2 ^ Zdigits2 m.
Proof.
  intros Hm. rewrite Zdigits2_log2 by lia.
  pose proof (Z.log2_spec m Hm). replace (Z.log2 m + 1 - 1) with (Z.log2 m) by lia.
  replace (Z.log2 m + 1) with (Z.succ (Z.log2 m)) by lia. lia.
Qed.

Lemma Zdigits2_lower k q : 0 <= k -> 2 ^ k <= q -> k + 1 <= Zdigits2 q.
Proof.
  intros Hk Hq. pose proof (Z.pow_pos_nonneg 2 k ltac:(lia) Hk).
  rewrite Zdigits2_log2 by lia.
  pose proof (Z.log2_le_mono _ _ Hq) as Hl. rewrite Z.log2_pow2 in Hl by lia. lia.
Qed.

Lemma SFdiv_core_binary_spec prec emax mx ex my ey :
  let '(q, e', _) := SFdiv_core_binary prec emax (Z.pos mx) ex (Z.pos my) ey in
  0 <= q /\ e' <= fexp prec emax (Zdigits2 q + e').
Proof.
  unfold SFdiv_core_binary.
  set (d1 := Zdigits2 (Z.pos mx)). set (d2 := Zdigits2 (Z.pos my)).
  set (e' := Z.min (fexp prec emax (d1 + ex - (d2 + ey))) (ex - ey)).
  set (s := ex - ey - e').
  assert (Hs : 0 <= s) by (unfold s, e'; lia).
  set (m' := match s with Z.pos _ => Z.shiftl (Z.pos mx) s | 0 => Z.pos mx | Z.neg _ => 0 end).
  assert (Hm' : m' = Z.pos mx * 2 ^ s).
  { unfold m'. destruct s as [|p|p] eqn:Hsp; try lia.
    rewrite Z.shiftl_mul_pow2; lia. }
  pose proof (Z_div_mod m' (Z.pos my) ltac:(lia)) as Hdm.
  unfold Z.div in *. destruct (Z.div_eucl m' (Z.pos my)) as [q r] eqn:Hqr.
  assert (Hq : q = m' / Z.pos my) by (unfold Z.div; now rewrite Hqr).
  pose proof (Z.pow_pos_nonneg 2 s ltac:(lia) Hs) as Hps.
  assert (Hq0 : 0 <= q).
  { rewrite Hq. apply Z.div_pos; lia. }
  split; [assumption|].
  assert (Hdig : d1 + s - d2 <= Zdigits2 q).
  { pose proof (Zdigits2_nonneg q).
    destruct (Z_lt_le_dec (d1 + s - d2) 1) as [|Hge]; [lia|].
    pose proof (Zdigits2_bounds (Z.pos mx) ltac:(lia)) as [Hb1 _].
    pose proof (Zdigits2_bounds (Z.pos my) ltac:(lia)) as [_ Hb2].
    fold d1 in Hb1. fold d2 in Hb2.
    pose proof (Zdigits2_nonneg (Z.pos my)) as Hd2. fold d2 in Hd2.
    assert (Hd1 : 1 <= d1).
    { unfold d1. cbn. lia. }
    pose proof (Zdigits2_lower (d1 - 1 + s - d2) q ltac:(lia)) as Hlow.
    assert (2 ^ (d1 - 1 + s - d2) <= q); [|lia].
    rewrite Hq.
    apply Z.div_le_lower_bound; [lia|].
    apply Z.le_trans with (2 ^ d2 * 2 ^ (d1 - 1 + s - d2)).
    - apply Z.mul_le_mono_nonneg_r; [apply Z.pow_nonneg; lia | lia].
    - rewrite <- Z.pow_add_r by lia. replace (d2 + (d1 - 1 + s - d2)) with ((d1 - 1) + s) by lia.
      rewrite Z.pow_add_r by lia. rewrite Hm'.
      apply Z.mul_le_mono_nonneg_r; lia. }
  unfold fexp in *. unfold s in Hdig. lia.
Qed.

Lemma SFdiv_valid prec emax x y :
  0 < prec -> valid_binary prec emax (SFdiv prec emax x y) = true.
Proof.
  intros Hprec.
  destruct x as [sx|sx| |sx mx ex], y as [sy|sy| |sy my ey]; try reflexivity.
  cbn [SFdiv].
  pose proof (SFdiv_core_binary_spec prec emax mx ex my ey) as Hc.
  destruct (SFdiv_core_binary prec emax (Z.pos mx) ex (Z.pos my) ey) as [[q e'] l].
  destruct Hc. now apply binary_round_aux_valid.
Qed.

Lemma binary_round_aux_canonical prec emax s m e :
  bounded prec emax m e = true ->
  binary_round_aux prec emax s (Z.pos m) e loc_Exact = S754_finite s m e.
Proof.
  unfold bounded, canonical_mantissa. intros Hb.
  apply andb_true_iff in Hb as [Hc Hle]. apply Z.eqb_eq in Hc.
  unfold binary_round_aux, shr_fexp, shr. cbn [Zdigits2 shr_record_of_loc].
  rewrite Hc, Z.sub_diag. cbn [shr_m loc_of_shr_record round_nearest_even Zdigits2].
  rewrite Hc, Z.sub_diag. cbn [shr_m]. now rewrite Hle.
Qed.

Lemma binary_round_aux_doubled prec emax s m e :
  bounded prec emax m e = true ->
  binary_round_aux prec emax s (Z.pos m~0) (e - 1) loc_Exact = S754_finite s m e.
Proof.
  unfold bounded, canonical_mantissa. intros Hb.
  apply andb_true_iff in Hb as [Hc Hle]. apply Z.eqb_eq in Hc.
  unfold binary_round_aux, shr_fexp, shr. cbn [Zdigits2 shr_record_of_loc digits2_pos].
  replace (Z.pos (Pos.succ (digits2_pos m)) + (e - 1)) with (Z.pos (digits2_pos m) + e) by lia.
  rewrite Hc. replace (e - (e - 1)) with 1 by lia.
  cbn [SpecFloat.iter_pos shr_1 shr_m loc_of_shr_record round_nearest_even Zdigits2 orb].
  replace (e - 1 + 1) with e by lia.
  rewrite Hc, Z.sub_diag. cbn [shr_m]. now rewrite Hle.
Qed.

Lemma F32_div_one x : F32.valid x = true -> F32.div x F32.one = x.
Proof.
  destruct x as [sx|sx| |sx mx ex]; try reflexivity.
  - intros _. cbn. now rewrite xorb_false_r.
  - intros _. cbn. now rewrite xorb_false_r.
  - unfold F32.valid, F32.div, F32.one. cbn [valid_binary SFdiv]. intros Hb.
    rewrite xorb_false_r.
    assert (Hc : fexp 24 128 (Zdigits2 (Z.pos mx) + ex) = ex).
    { unfold F32.prec, F32.emax, bounded, canonical_mantissa in Hb.
      apply andb_true_iff in Hb as [Hc _]. now apply Z.eqb_eq in Hc. }
    unfold SFdiv_core_binary.
    change (Zdigits2 (Z.pos 8388608)) with 24.
    set (d1 := Zdigits2 (Z.pos mx)) in *.
    assert (Hd1 : 1 <= d1) by (unfold d1; cbn; lia).
    set (e' := Z.min (fexp F32.prec F32.emax (d1 + ex - (24 + -23))) (ex - -23)).
    assert (Hk : e' = ex \/ e' = ex - 1).
    { unfold e', fexp, emin, F32.prec, F32.emax in *. lia. }
    assert (Hdiv : forall k, 0 <= k ->
              Z.div_eucl (Z.pos mx * 2 ^ k * 8388608) 8388608 = (Z.pos mx * 2 ^ k, 0)).
    { intros k Hk0.
      pose proof (Z.div_mul (Z.pos mx * 2 ^ k) 8388608 ltac:(lia)) as Hq.
      pose proof (Z.mod_mul (Z.pos mx * 2 ^ k) 8388608 ltac:(lia)) as Hr.
      unfold Z.div, Z.modulo in Hq, Hr.
      destruct (Z.div_eucl (Z.pos mx * 2 ^ k * 8388608) 8388608). now subst. }
    destruct Hk as [Hk|Hk]; rewrite Hk.
    + replace (ex - -23 - ex) with 23 by lia.
      replace (Z.shiftl (Z.pos mx) 23) with (Z.pos mx * 2 ^ 0 * 8388608)
        by (rewrite Z.shiftl_mul_pow2; lia).
      rewrite Hdiv by lia. cbn [Z.pow Z.mul]. rewrite Z.mul_1_r.
      change (new_location 8388608 0) with loc_Exact.
      now apply binary_round_aux_canonical.
    + replace (ex - -23 - (ex - 1)) with 24 by lia.
      replace (Z.shiftl (Z.pos mx) 24) with (Z.pos mx * 2 ^ 1 * 8388608)
        by (rewrite Z.shiftl_mul_pow2; lia).
      rewrite Hdiv by lia.
      change (new_location 8388608 0) with loc_Exact.
      replace (Z.pos mx * 2 ^ 1) with (Z.pos mx~0) by lia.
      now apply binary_round_aux_doubled.
Qed.

(** *** The sign of a rounded result *)

Lemma binary_round_aux_sign prec emax s m e l :
  match binary_round_aux prec emax s m e l with
  | S754_zero s' | S754_infinity s' | S754_finite s' _ _ => s' = s
  | S754_nan => True
  end.
Proof.
  unfold binary_round_aux.
  destruct (shr_fexp prec emax m e l) as [mrs' e'].
  destruct (shr_fexp prec emax _ e' loc_Exact) as [mrs'' e''].
  destruct (shr_m mrs''); auto.
  destruct (e'' <=? emax - prec); auto.
Qed.

(** The inverse of a depth in front of the camera is not negative. *)
Lemma inverse_depth_nonneg (d : float) :
  F32.leb d F32.zero = false ->
  F32.is_nan (F32.div F32.one d) = false ->
  F32.leb F32.zero (F32.div F32.one d) = true.
Proof.
  intros Hle Hnan.
  destruct d as [s|s| |s m e]; try discriminate.
  - destruct s; [discriminate|]. reflexivity.
  - destruct s; [discriminate|].
    unfold F32.div, F32.one in *. cbn [SFdiv xorb] in *.
    destruct (SFdiv_core_binary F32.prec F32.emax 8388608 (-23) (Z.pos m) e)
      as [[q e'] l].
    pose proof (binary_round_aux_sign F32.prec F32.emax false q e' l) as Hs.
    destruct (binary_round_aux F32.prec F32.emax false q e' l);
      try discriminate; subst; reflexivity.
Qed.

(** ** The projector *)

(** The buffers play no part in where a point lands or how it is shaded. *)
Lemma visible_cell_set_buffers ctx zb bb x y z :
  visible_cell (set_buffers ctx zb bb) x y z = visible_cell ctx x y z.
Proof. reflexivity. Qed.

Lemma shade_set_buffers ctx zb bb nx ny nz :
  shade (set_buffers ctx zb bb) nx ny nz = shade ctx nx ny nz.
Proof. reflexivity. Qed.

Lemma ooz_set_buffers ctx zb bb x y z :
  ooz (set_buffers ctx zb bb) x y z = ooz ctx x y z.
Proof. reflexivity. Qed.

(** [project_and_draw] on a point that passes the camera and bounds checks:
    what remains is the depth test and the two stores. *)
Lemma project_and_draw_visible ctx x y z nx ny nz idx :
  visible_cell ctx x y z = Ok (Some idx) ->
  project_and_draw x y z nx ny nz ctx =
    (stored ← load (zbuffer ctx) idx;
     if (ooz ctx x y z <=? stored)%f32 then Ok ctx else
     zb ← store (zbuffer ctx) idx (ooz ctx x y z);
     c ← shade ctx nx ny nz;
     bb ← store (bbuffer ctx) idx c;
     mret (set_buffers ctx zb bb)).
Proof.
  unfold visible_cell, project_and_draw, shade.
  destruct (final_z ctx x y z <=? F32.zero)%f32; [discriminate|].
  destruct (F32.to_int (screen_x ctx x y z)) as [xp| |]; try discriminate.
  destruct (F32.to_int (screen_y ctx x y z)) as [yp| |]; try discriminate.
  cbn [mbind result_bind].
  destruct (Int.mul (sw ctx) yp) as [swyp| |]; try discriminate.
  cbn [mbind result_bind].
  destruct (Int.add xp swyp) as [buffer_idx| |]; try discriminate.
  cbn [mbind result_bind].
  destruct ((xp <? 0) || (sw ctx <=? xp) || (yp <? 0) || (sh ctx <=? yp));
    [discriminate|].
  intros [= ->].
  destruct (load (zbuffer ctx) idx) as [stored| |]; try reflexivity.
  cbn [mbind result_bind].
  destruct (ooz ctx x y z <=? stored)%f32; [reflexivity|].
  destruct (store (zbuffer ctx) idx (ooz ctx x y z)) as [zb| |]; try reflexivity.
  cbn [mbind result_bind].
  destruct (palette_index ctx nx ny nz) as [p| |]; reflexivity.
Qed.

(** A visible cell lies inside the buffers. *)
Lemma visible_cell_in_bounds ctx x y z idx :
  visible_cell ctx x y z = Ok (Some idx) ->
  0 <= idx < sw ctx * sh ctx.
Proof.
  unfold visible_cell.
  destruct (final_z ctx x y z <=? F32.zero)%f32; [discriminate|].
  destruct (F32.to_int (screen_x ctx x y z)) as [xp| |]; try discriminate.
  destruct (F32.to_int (screen_y ctx x y z)) as [yp| |]; try discriminate.
  cbn [mbind result_bind]. unfold Int.mul, Int.add, Int.checked.
  destruct (Int.in_range (sw ctx * yp)); try discriminate.
  cbn [mbind result_bind].
  destruct (Int.in_range (xp + sw ctx * yp)); try discriminate.
  cbn [mbind result_bind].
  destruct ((xp <? 0) || (sw ctx <=? xp) || (yp <? 0) || (sh ctx <=? yp))
    eqn:Hb; [discriminate|].
  intros [= <-].
  apply orb_false_iff in Hb as [Hb Hy2]. apply orb_false_iff in Hb as [Hb Hy1].
  apply orb_false_iff in Hb as [Hx1 Hx2].
  apply Z.ltb_ge in Hx1, Hy1. apply Z.leb_gt in Hx2, Hy2. nia.
Qed.

(** A visible point is not behind the camera, and its inverse depth is a
    number: a NaN would have made the cast of the screen column undefined. *)
Lemma visible_cell_depth ctx x y z idx :
  visible_cell ctx x y z = Ok (Some idx) ->
  F32.leb (final_z ctx x y z) F32.zero = false /\
  F32.is_nan (ooz ctx x y z) = false.
Proof.
  unfold visible_cell.
  destruct (final_z ctx x y z <=? F32.zero)%f32 eqn:Hz; [discriminate|].
  intros Hv. split; [reflexivity|].
  destruct (ooz ctx x y z) eqn:Ho; try reflexivity.
  exfalso. unfold screen_x in Hv. rewrite Ho in Hv.
  rewrite mul_nan_r, add_nan_r, to_int_nan in Hv. discriminate.
Qed.

Lemma load_lookup {A : Type} (buf : list A) (idx : Z) (v : A) :
  0 <= idx -> buf !! Z.to_nat idx = Some v -> load buf idx = Ok v.
Proof.
  intros Hi Hl. unfold load. destruct (Z.ltb_spec idx 0); [lia|]. now rewrite Hl.
Qed.

Lemma store_in_bounds {A : Type} (buf : list A) (idx : Z) (v : A) :
  0 <= idx < Z.of_nat (length buf) ->
  store buf idx v = Ok (<[Z.to_nat idx := v]> buf).
Proof.
  intros Hi. unfold store.
  destruct (Z.leb_spec 0 idx); [|lia]. destruct (Z.ltb_spec idx (Z.of_nat (length buf))); [|lia].
  reflexivity.
Qed.

(** The depth test, on buffers of the right size. *)
Lemma project_and_draw_depth_test ctx x y z nx ny nz idx stored c :
  frame_buffers ctx ->
  visible_cell ctx x y z = Ok (Some idx) ->
  zbuffer ctx !! Z.to_nat idx = Some stored ->
  shade ctx nx ny nz = Ok c ->
  project_and_draw x y z nx ny nz ctx =
    if (ooz ctx x y z <=? stored)%f32 then Ok ctx
    else Ok (write_cell ctx idx (ooz ctx x y z) c).
Proof.
  intros [Hzs Hbs _] Hv Hst Hsh.
  pose proof (visible_cell_in_bounds _ _ _ _ _ Hv) as Hidx.
  rewrite (project_and_draw_visible _ _ _ _ _ _ _ _ Hv).
  rewrite (load_lookup _ _ _ (proj1 Hidx) Hst). cbn [mbind result_bind].
  destruct (ooz ctx x y z <=? stored)%f32; [reflexivity|].
  rewrite store_in_bounds by lia. cbn [mbind result_bind].
  rewrite Hsh. cbn [mbind result_bind].
  rewrite store_in_bounds by lia. reflexivity.
Qed.

(** Writing a number into a cell keeps the buffers in shape. *)
Lemma frame_buffers_write_cell ctx idx d c :
  frame_buffers ctx -> F32.is_nan d = false ->
  frame_buffers (write_cell ctx idx d c).
Proof.
  intros [Hzs Hbs Hn] Hd. split; cbn.
  - now rewrite length_insert.
  - now rewrite length_insert.
  - apply Forall_insert; auto.
Qed.

Lemma ltb_negb_leb (a b : float) :
  F32.is_nan a = false -> F32.is_nan b = false ->
  F32.ltb a b = negb (F32.leb b a).
Proof.
  intros Ha Hb. destruct (F32.leb b a) eqn:Hle; cbn.
  - destruct (F32.ltb a b) eqn:Hlt; [|reflexivity].
    apply ltb_leb_false in Hlt. congruence.
  - now apply leb_false_ltb.
Qed.

(** The depth test accepts a write exactly when the new inverse depth
    strictly exceeds the stored one. *)
Lemma project_and_draw_accepts ctx x y z nx ny nz idx stored c :
  frame_buffers ctx ->
  visible_cell ctx x y z = Ok (Some idx) ->
  zbuffer ctx !! Z.to_nat idx = Some stored ->
  shade ctx nx ny nz = Ok c ->
  project_and_draw x y z nx ny nz ctx =
    if (stored <? ooz ctx x y z)%f32
    then Ok (write_cell ctx idx (ooz ctx x y z) c)
    else Ok ctx.
Proof.
  intros Hfb Hv Hst Hsh.
  rewrite (project_and_draw_depth_test _ _ _ _ _ _ _ _ _ _ Hfb Hv Hst Hsh).
  destruct (visible_cell_depth _ _ _ _ _ Hv) as [_ Hn].
  assert (Hs : F32.is_nan stored = false).
  { destruct Hfb as [_ _ Hnum].
    eapply (proj1 (Forall_lookup _ _) Hnum); eassumption. }
  rewrite (ltb_negb_leb _ _ Hs Hn).
  now destruct (ooz ctx x y z <=? stored)%f32.
Qed.

Lemma write_cell_twice ctx idx d1 c1 d2 c2 :
  write_cell (write_cell ctx idx d1 c1) idx d2 c2 = write_cell ctx idx d2 c2.
Proof.
  unfold write_cell, set_buffers. cbn. now rewrite !list_insert_insert_eq.
Qed.

(** C2: a point whose depth after shear, yaw, pitch and camera translation
    is [final_z <= 0] makes [project_and_draw] return with both buffers, and
    the whole context, exactly as they were. *)
Theorem behind_camera_no_write (ctx : RenderContext) (x y z nx ny nz : float) :
  (final_z ctx x y z <=? F32.zero)%f32 = true ->
  project_and_draw x y z nx ny nz ctx = Ok ctx.
Proof. intros Hz. unfold project_and_draw. now rewrite Hz. Qed.

Lemma behind_camera_no_write_witness :
  (final_z Sample.ctx4x3 F32.zero F32.zero (F32.of_int (-30)) <=? F32.zero)%f32
    = true /\
  project_and_draw F32.zero F32.zero (F32.of_int (-30))
    F32.zero F32.one F32.zero Sample.ctx4x3 = Ok Sample.ctx4x3.
Proof.
  split; [reflexivity|].
  apply (behind_camera_no_write Sample.ctx4x3
           F32.zero F32.zero (F32.of_int (-30)) F32.zero F32.one F32.zero).
  reflexivity.
Defined.

(** C1: two points of one frame that pass the camera and bounds checks and
    land on the same cell, one with a strictly greater inverse depth.  Drawn
    in either order they leave the same buffers; the cell ends with the
    character and depth of the nearer point whenever that point is in front
    of what the cell held, in particular on a cell still clear; and each
    write is accepted exactly when the new inverse depth strictly exceeds
    the stored one. *)
Theorem nearer_point_wins (ctx : RenderContext)
    (x1 y1 z1 nx1 ny1 nz1 x2 y2 z2 nx2 ny2 nz2 : float)
    (idx : Z) (stored : float) (c1 c2 : ascii) :
  frame_buffers ctx ->
  visible_cell ctx x1 y1 z1 = Ok (Some idx) ->
  visible_cell ctx x2 y2 z2 = Ok (Some idx) ->
  zbuffer ctx !! Z.to_nat idx = Some stored ->
  shade ctx nx1 ny1 nz1 = Ok c1 ->
  shade ctx nx2 ny2 nz2 = Ok c2 ->
  (ooz ctx x1 y1 z1 <? ooz ctx x2 y2 z2)%f32 = true ->
  let far := project_and_draw x1 y1 z1 nx1 ny1 nz1 in
  let near := project_and_draw x2 y2 z2 nx2 ny2 nz2 in
  let d1 := ooz ctx x1 y1 z1 in
  let d2 := ooz ctx x2 y2 z2 in
  (far ctx ≫= near) = (near ctx ≫= far) /\
  (far ctx ≫= near) =
    (if (stored <? d2)%f32 then Ok (write_cell ctx idx d2 c2) else Ok ctx) /\
  (stored = F32.zero -> (far ctx ≫= near) = Ok (write_cell ctx idx d2 c2)) /\
  far ctx =
    (if (stored <? d1)%f32 then Ok (write_cell ctx idx d1 c1) else Ok ctx) /\
  near ctx =
    (if (stored <? d2)%f32 then Ok (write_cell ctx idx d2 c2) else Ok ctx).
Proof.
  intros Hfb Hv1 Hv2 Hst Hs1 Hs2 Hlt far near d1 d2.
  pose proof (visible_cell_in_bounds _ _ _ _ _ Hv1) as Hidx.
  destruct (visible_cell_depth _ _ _ _ _ Hv1) as [Hz1 Hn1].
  destruct (visible_cell_depth _ _ _ _ _ Hv2) as [Hz2 Hn2].
  assert (Hsn : F32.is_nan stored = false).
  { destruct Hfb as [_ _ Hnum].
    eapply (proj1 (Forall_lookup _ _) Hnum); eassumption. }
  assert (Hlen : (Z.to_nat idx < length (zbuffer ctx))%nat).
  { destruct Hfb as [Hzs _ _]. lia. }
  (* each point alone *)
  assert (Hfar : far ctx =
            if (stored <? d1)%f32 then Ok (write_cell ctx idx d1 c1) else Ok ctx)
    by (apply project_and_draw_accepts; assumption).
  assert (Hnear : near ctx =
            if (stored <? d2)%f32 then Ok (write_cell ctx idx d2 c2) else Ok ctx)
    by (apply project_and_draw_accepts; assumption).
  (* the far point on top of the near one is rejected *)
  assert (Hfar2 : far (write_cell ctx idx d2 c2) = Ok (write_cell ctx idx d2 c2)).
  { unfold far.
    rewrite (project_and_draw_accepts _ _ _ _ _ _ _ idx d2 c1);
      try assumption.
    - change (ooz (write_cell ctx idx d2 c2) x1 y1 z1) with d1.
      assert (Hge : (d2 <? d1)%f32 = false).
      { rewrite ltb_negb_leb by assumption.
        unfold d1, d2. now rewrite (ltb_leb _ _ Hlt). }
      now rewrite Hge.
    - now apply frame_buffers_write_cell.
    - cbn. now apply list_lookup_insert_eq. }
  (* the near point on top of the far one is accepted *)
  assert (Hnear2 : near (write_cell ctx idx d1 c1) = Ok (write_cell ctx idx d2 c2)).
  { unfold near.
    rewrite (project_and_draw_accepts _ _ _ _ _ _ _ idx d1 c2);
      try assumption.
    - change (ooz (write_cell ctx idx d1 c1) x2 y2 z2) with d2.
      unfold d1, d2. rewrite Hlt. apply f_equal, write_cell_twice.
    - now apply frame_buffers_write_cell.
    - cbn. now apply list_lookup_insert_eq. }
  (* the far point is in front of the cell only if the near one is *)
  assert (Hmono : (stored <? d1)%f32 = true -> (stored <? d2)%f32 = true).
  { intros H1. rewrite ltb_negb_leb by assumption.
    destruct (d2 <=? stored)%f32 eqn:Hle; [|reflexivity].
    pose proof (ltb_leb_trans _ _ _ Hlt Hle) as Hle1.
    apply ltb_leb_false in H1. unfold d1 in H1. congruence. }
  assert (Hseq : (far ctx ≫= near) =
            if (stored <? d2)%f32 then Ok (write_cell ctx idx d2 c2) else Ok ctx).
  { rewrite Hfar. destruct (stored <? d1)%f32 eqn:H1.
    - rewrite (Hmono eq_refl). cbn [mbind result_bind]. exact Hnear2.
    - cbn [mbind result_bind]. exact Hnear. }
  split; [|split; [exact Hseq|split; [|split; assumption]]].
  - rewrite Hseq, Hnear. destruct (stored <? d2)%f32 eqn:H2;
      cbn [mbind result_bind]; [now rewrite Hfar2|].
    rewrite Hfar. destruct (stored <? d1)%f32 eqn:H1; [|reflexivity].
    discriminate (Hmono eq_refl).
  - intros ->. rewrite Hseq.
    assert (Hpos : (F32.zero <? d2)%f32 = true); [|now rewrite Hpos].
    pose proof (inverse_depth_nonneg _ Hz1 Hn1) as H0.
    fold (ooz ctx x1 y1 z1) in H0. fold d1 in H0.
    rewrite ltb_negb_leb by assumption.
    destruct (d2 <=? F32.zero)%f32 eqn:Hle; [|reflexivity].
    (* d2 <= 0 <= d1 contradicts d1 < d2 *)
    pose proof (leb_trans _ _ _ Hle H0) as Hd2.
    apply ltb_leb_false in Hlt. unfold d1, d2 in Hd2. congruence.
Qed.

Lemma nearer_point_wins_witness :
  let ctx := Sample.ctx4x3 in
  let z2 := F32.of_int (-5) in
  let far := project_and_draw F32.zero F32.zero F32.zero F32.zero F32.one F32.zero in
  let near := project_and_draw F32.zero F32.zero z2 F32.zero F32.zero F32.zero in
  (frame_buffers ctx /\
   visible_cell ctx F32.zero F32.zero F32.zero = Ok (Some 6) /\
   visible_cell ctx F32.zero F32.zero z2 = Ok (Some 6) /\
   (ooz ctx F32.zero F32.zero F32.zero <? ooz ctx F32.zero F32.zero z2)%f32 = true) /\
  (far ctx ≫= near) = (near ctx ≫= far) /\
  exists ctx',
    (far ctx ≫= near) = Ok ctx' /\
    zbuffer ctx' !! 6%nat = Some (ooz ctx F32.zero F32.zero z2) /\
    bbuffer ctx' !! 6%nat = Some "."%char.
Proof.
  intros ctx z2 far near.
  assert (Hfb : frame_buffers ctx).
  { split; [reflexivity | reflexivity | repeat constructor]. }
  destruct (nearer_point_wins ctx
              F32.zero F32.zero F32.zero F32.zero F32.one F32.zero
              F32.zero F32.zero z2 F32.zero F32.zero F32.zero
              6 F32.zero "@"%char "."%char)
    as (Hcomm & _ & Hclear & _); try reflexivity; try exact Hfb.
  split.
  { split; [exact Hfb | split; [reflexivity | split; reflexivity]]. }
  split; [exact Hcomm|].
  eexists. split; [apply Hclear; reflexivity|]. split; reflexivity.
Defined.

(** [project_and_draw] is the visibility test followed by the depth test. *)
Lemma project_and_draw_factor ctx x y z nx ny nz :
  project_and_draw x y z nx ny nz ctx =
    (cell ← visible_cell ctx x y z;
     match cell with
     | None => Ok ctx
     | Some idx =>
         stored ← load (zbuffer ctx) idx;
         if (ooz ctx x y z <=? stored)%f32 then Ok ctx else
         zb ← store (zbuffer ctx) idx (ooz ctx x y z);
         c ← shade ctx nx ny nz;
         bb ← store (bbuffer ctx) idx c;
         mret (set_buffers ctx zb bb)
     end).
Proof.
  destruct (visible_cell ctx x y z) as [[idx|]| |] eqn:Hv.
  - now rewrite (project_and_draw_visible _ _ _ _ _ _ _ _ Hv).
  - revert Hv. unfold visible_cell, project_and_draw.
    destruct (final_z ctx x y z <=? F32.zero)%f32; [reflexivity|].
    destruct (F32.to_int (screen_x ctx x y z)) as [xp| |]; try discriminate.
    destruct (F32.to_int (screen_y ctx x y z)) as [yp| |]; try discriminate.
    cbn [mbind result_bind].
    destruct (Int.mul (sw ctx) yp) as [swyp| |]; try discriminate.
    cbn [mbind result_bind].
    destruct (Int.add xp swyp) as [buffer_idx| |]; try discriminate.
    cbn [mbind result_bind].
    now destruct ((xp <? 0) || (sw ctx <=? xp) || (yp <? 0) || (sh ctx <=? yp)).
  - revert Hv. unfold visible_cell, project_and_draw.
    destruct (final_z ctx x y z <=? F32.zero)%f32; [discriminate|].
    destruct (F32.to_int (screen_x ctx x y z)) as [xp| |]; try discriminate;
      try reflexivity.
    destruct (F32.to_int (screen_y ctx x y z)) as [yp| |]; try discriminate;
      try reflexivity.
    cbn [mbind result_bind].
    destruct (Int.mul (sw ctx) yp) as [swyp| |]; try discriminate;
      try reflexivity.
    cbn [mbind result_bind].
    destruct (Int.add xp swyp) as [buffer_idx| |]; try discriminate;
      try reflexivity.
    cbn [mbind result_bind].
    now destruct ((xp <? 0) || (sw ctx <=? xp) || (yp <? 0) || (sh ctx <=? yp)).
  - revert Hv. unfold visible_cell, project_and_draw.
    destruct (final_z ctx x y z <=? F32.zero)%f32; [discriminate|].
    destruct (F32.to_int (screen_x ctx x y z)) as [xp| |]; try discriminate;
      try reflexivity.
    destruct (F32.to_int (screen_y ctx x y z)) as [yp| |]; try discriminate;
      try reflexivity.
    cbn [mbind result_bind].
    destruct (Int.mul (sw ctx) yp) as [swyp| |]; try discriminate;
      try reflexivity.
    cbn [mbind result_bind].
    destruct (Int.add xp swyp) as [buffer_idx| |]; try discriminate;
      try reflexivity.
    cbn [mbind result_bind].
    now destruct ((xp <? 0) || (sw ctx <=? xp) || (yp <? 0) || (sh ctx <=? yp)).
Qed.

(** The shape of the buffers is an invariant of a frame: every call of the
    projector keeps it. *)
Lemma project_and_draw_frame_buffers ctx x y z nx ny nz ctx' :
  frame_buffers ctx ->
  project_and_draw x y z nx ny nz ctx = Ok ctx' ->
  frame_buffers ctx'.
Proof.
  intros Hfb. rewrite project_and_draw_factor.
  destruct (visible_cell ctx x y z) as [[idx|]| |] eqn:Hv;
    cbn [mbind result_bind]; try discriminate.
  - pose proof (visible_cell_in_bounds _ _ _ _ _ Hv) as Hidx.
    destruct (visible_cell_depth _ _ _ _ _ Hv) as [_ Hn].
    pose proof Hfb as [Hzs Hbs _].
    destruct (load (zbuffer ctx) idx) as [stored| |]; try discriminate.
    cbn [mbind result_bind].
    destruct (ooz ctx x y z <=? stored)%f32; [now intros [= <-]|].
    rewrite store_in_bounds by lia. cbn [mbind result_bind].
    destruct (shade ctx nx ny nz) as [c| |]; try discriminate.
    cbn [mbind result_bind].
    rewrite store_in_bounds by lia. cbn [mbind result_bind mret result_ret].
    intros [= <-].
    now apply (frame_buffers_write_cell ctx idx (ooz ctx x y z) c).
  - now intros [= <-].
Qed.

(** ** Palette index selection *)

(** After the clamp, truncation toward zero and rounding down agree. *)
Lemma clamp_trunc_floor (v : float) (t f len : Z) :
  F32.trunc v = Some t -> F32.floor v = Some f ->
  0 < len <= Int.max_signed ->
  clamp_palette_idx t len = Z.max 0 (Z.min f (len - 1)).
Proof.
  intros Ht Hf Hlen. unfold Int.max_signed in Hlen.
  assert (Hcases : (0 <= t /\ f = t) \/ (t <= 0 /\ f < 0)).
  { destruct v as [s|s| |s m e]; try discriminate; cbn in Ht, Hf.
    - inversion Ht; inversion Hf; subst. lia.
    - inversion Ht; inversion Hf; subst. clear Ht Hf.
      destruct s; cbn [cond_Zopp].
      + right. pose proof (Z.shiftl_nonneg (Z.pos m) e).
        split; [lia|]. change (- Z.pos m) with (Z.neg m).
        destruct (Z_lt_le_dec e 0) as [He|He].
        * rewrite Z.shiftl_div_pow2 by lia.
          assert (0 < 2 ^ (- e)) by (apply Z.pow_pos_nonneg; lia).
          apply Z.div_lt_upper_bound; lia.
        * rewrite Z.shiftl_mul_pow2 by lia.
          assert (0 < 2 ^ e) by (apply Z.pow_pos_nonneg; lia). nia.
      + left. split; [|reflexivity]. apply Z.shiftl_nonneg. lia. }
  unfold clamp_palette_idx, Int.of_size_t, Int.size_t_sub.
  destruct Hcases as [[Ht0 ->]|[Ht0 Hf0]].
  - destruct (Z.ltb_spec t 0); [lia|].
    destruct (Z.leb_spec len t).
    + rewrite (Z.mod_small (len - 1) (2 ^ 64)) by lia.
      rewrite (Z.mod_small (len - 1) (2 ^ 32)) by lia.
      destruct (Z.ltb_spec (len - 1) (2 ^ 31)); lia.
    + rewrite (Z.mod_small t (2 ^ 32)) by lia.
      destruct (Z.ltb_spec t (2 ^ 31)); lia.
  - destruct (Z.ltb_spec t 0); [lia|].
    assert (t = 0) by lia. subst t.
    destruct (Z.leb_spec len 0); [lia|].
    change (0 mod 2 ^ 32) with 0. change (0 <? 2 ^ 31) with true.
    cbv iota. lia.
Qed.

(** Whenever the cast [(int)(L * contrast)] is defined, the palette position
    is the one of the specification, and it lies inside the palette. *)
Lemma palette_index_defined ctx nx ny nz raw :
  0 < palette_len ctx <= Int.max_signed ->
  F32.to_int (luminance ctx nx ny nz * contrast ctx)%f32 = Ok raw ->
  exists p,
    palette_index ctx nx ny nz = Ok p /\
    spec_palette_index ctx nx ny nz = Some p /\
    0 <= p < palette_len ctx.
Proof.
  intros Hlen Hraw. unfold palette_index, spec_palette_index. rewrite Hraw.
  cbn [mbind result_bind mret result_ret].
  unfold F32.to_int in Hraw.
  destruct (F32.trunc _) as [t|] eqn:Ht; [|discriminate].
  assert (t = raw) as ->.
  { unfold Int.checked in Hraw. destruct (Int.in_range t); congruence. }
  destruct (F32.floor _) as [f|] eqn:Hf.
  - exists (clamp_palette_idx raw (palette_len ctx)).
    rewrite (clamp_trunc_floor _ _ _ _ Ht Hf Hlen). cbn. repeat split; lia.
  - exfalso. destruct (luminance ctx nx ny nz * contrast ctx)%f32; discriminate.
Qed.

(** C3, at an input where the specification and the code part ways: under
    [-c 1e10] a face lit head-on has [L * contrast = 1e10].  The
    specification selects [floor(L * contrast)] clamped, the last palette
    position, 11; in the code the cast to [int] comes before the clamp and is
    out of range, so the behaviour of [project_and_draw] is undefined
    there. *)
Theorem palette_index_cast_overflows :
  luminance Sample.ctx_high_contrast F32.zero F32.one F32.zero = F32.one /\
  spec_palette_index Sample.ctx_high_contrast F32.zero F32.one F32.zero
    = Some 11 /\
  palette_index Sample.ctx_high_contrast F32.zero F32.one F32.zero
    = Undefined /\
  project_and_draw F32.zero F32.zero F32.zero F32.zero F32.one F32.zero
    Sample.ctx_high_contrast = Undefined.
Proof. repeat split; reflexivity. Qed.

Example palette_index_default_contrast :
  palette_index Sample.ctx4x3 F32.zero F32.one F32.zero = Ok 11 /\
  palette_index Sample.ctx4x3 F32.zero (F32.of_int (-1)) F32.zero = Ok 0.
Proof. split; reflexivity. Qed.

(** ** The font table *)

Lemma for_each_skip {A St : Type} (l : list A)
    (body : A -> St -> result St) (s : St) :
  (forall a s, a ∈ l -> body a s = Ok s) ->
  for_each l body s = Ok s.
Proof.
  induction l as [|a l IH]; intros Hb; [reflexivity|].
  cbn [for_each]. rewrite Hb by apply list_elem_of_here.
  cbn [mbind result_bind]. apply IH. intros b s' Hin.
  apply Hb. now apply list_elem_of_further.
Qed.

Lemma segment_on_blank (i : Z) : segment_on 0 i = false.
Proof. unfold segment_on. now rewrite Z.shiftr_0_l. Qed.

(** A character without active segment leaves the buffers alone, whatever
    the fuel: the rasterizer is never entered. *)
Lemma draw_segments_blank {pf : Platform} cfg fuel char_center_x ctx :
  draw_segments cfg fuel 0 char_center_x ctx = Ok ctx.
Proof.
  unfold draw_segments. apply for_each_skip.
  intros i s _. now rewrite segment_on_blank.
Qed.

(** C4: a character code below 32 or at or above 32 + 96 is looked up as
    the space glyph; the mask of that glyph is 0, none of its 14 bits is set,
    and drawing the character runs the rasterizer for no segment: the
    context comes back unchanged even with no fuel at all. *)
Theorem unsupported_char_draws_nothing {pf : Platform} (cfg : Cfg.t)
    (fuel : nat) (c : ascii) (text_len char_idx : Z) (ctx : RenderContext) :
  char_value c < ASCII_OFFSET \/
  ASCII_OFFSET + SUPPORTED_CHARS <= char_value c ->
  font_lookup (char_value c) = font_lookup 32 /\
  font_lookup (char_value c) = Ok 0 /\
  (forall i, segment_on 0 i = false) /\
  draw_char cfg fuel text_len (char_idx, c) ctx = Ok ctx /\
  draw_char cfg 0 text_len (char_idx, c) ctx = Ok ctx.
Proof.
  intros Hout.
  assert (Hg : glyph_char (char_value c) = 32).
  { unfold glyph_char.
    destruct (Z.ltb_spec (char_value c) ASCII_OFFSET); [reflexivity|].
    destruct (Z.leb_spec (ASCII_OFFSET + SUPPORTED_CHARS) (char_value c));
      [reflexivity|lia]. }
  assert (Hl : font_lookup (char_value c) = Ok 0).
  { unfold font_lookup. now rewrite Hg. }
  repeat split.
  - now rewrite Hl.
  - exact Hl.
  - exact segment_on_blank.
  - unfold draw_char. rewrite Hl. apply draw_segments_blank.
  - unfold draw_char. rewrite Hl. apply draw_segments_blank.
Qed.

Lemma unsupported_char_draws_nothing_witness :
  (char_value (pf := Sample.platform) "010"%char < ASCII_OFFSET \/
   ASCII_OFFSET + SUPPORTED_CHARS
     <= char_value (pf := Sample.platform) "010"%char) /\
  font_lookup (char_value (pf := Sample.platform) "010"%char) = Ok 0 /\
  draw_char (pf := Sample.platform) Sample.default_cfg 0 1 (0, "010"%char)
    Sample.ctx4x3 = Ok Sample.ctx4x3.
Proof.
  assert (Hout : char_value (pf := Sample.platform) "010"%char < ASCII_OFFSET \/
                 ASCII_OFFSET + SUPPORTED_CHARS
                   <= char_value (pf := Sample.platform) "010"%char).
  { left. vm_compute. reflexivity. }
  destruct (unsupported_char_draws_nothing (pf := Sample.platform)
              Sample.default_cfg 0 "010"%char 1 0 Sample.ctx4x3 Hout)
    as (_ & Hl & _ & Hd & _).
  split; [exact Hout | split; [exact Hl | exact Hd]].
Defined.

(** Bytes above 127 are unsupported whether plain [char] is signed or not. *)
Lemma high_byte_unsupported {pf : Platform} (c : ascii) :
  128 <= Z.of_N (N_of_ascii c) ->
  char_value c < ASCII_OFFSET \/
  ASCII_OFFSET + SUPPORTED_CHARS <= char_value c.
Proof.
  intros Hc. unfold char_value, ASCII_OFFSET, SUPPORTED_CHARS.
  pose proof (N_ascii_bounded c) as Hb.
  destruct char_is_signed; cbn [andb].
  - destruct (Z.leb_spec 128 (Z.of_N (N_of_ascii c))); lia.
  - lia.
Qed.

(** Every supported character has an entry in the table. *)
Lemma font_lookup_total (code : Z) : exists mask, font_lookup code = Ok mask.
Proof.
  unfold font_lookup, glyph_char, ASCII_OFFSET, SUPPORTED_CHARS.
  destruct (Z.ltb_spec code 32); [now eexists|].
  destruct (Z.leb_spec (32 + 96) code); [now eexists|]. cbn [orb].
  unfold load. destruct (Z.ltb_spec (code - 32) 0); [lia|].
  destruct (FourteenSegmentASCII !! Z.to_nat (code - 32)) eqn:Hl; [now eexists|].
  apply lookup_ge_None in Hl. cbn in Hl. lia.
Qed.

(** ** Segment geometry *)

(** C5: the 14 segment lengths are those the specification gives to the
    kind of each segment (flat: W/2 - segment_width/2; outer upright:
    H/2 - segment_width; inner upright: H/4 - segment_width/2; diagonal:
    sqrt((W/4)^2 + (H/4)^2) - segment_width), there are four flat, four
    outer, two inner and four diagonal segments, placed as their kind says,
    and the character advance is W times the spacing factor. *)
Theorem segment_lengths_by_kind {pf : Platform} (cfg : Cfg.t) :
  segment_lengths cfg = spec_segment_length cfg <$> segment_kinds /\
  Forall2 (placed_as cfg) segment_kinds (seg_defs_init cfg) /\
  length (filter (fun k => k = Horizontal) segment_kinds) = 4%nat /\
  length (filter (fun k => k = VerticalOuter) segment_kinds) = 4%nat /\
  length (filter (fun k => k = VerticalInner) segment_kinds) = 2%nat /\
  length (filter (fun k => k = Diagonal) segment_kinds) = 4%nat /\
  char_spacing cfg = (Cfg.W cfg * Cfg.spacing_factor cfg)%f32.
Proof.
  split; [reflexivity|]. split.
  - unfold segment_kinds, seg_defs_init, placed_as.
    repeat (constructor;
            [first [ reflexivity | left; reflexivity | right; reflexivity
                   | split; [reflexivity|];
                     first [reflexivity | left; reflexivity | right; reflexivity] ]
            |]).
    constructor.
  - repeat split; reflexivity.
Qed.

(** ** The segment rasterizer *)

Lemma for_float_invariant {St : Type} (P : St -> Prop) (fuel : nat) :
  forall (i bound step : float) (body : float -> St -> result St) (s s' : St),
  (forall j t t', P t -> body j t = Ok t' -> P t') ->
  P s -> for_float fuel i bound step body s = Ok s' -> P s'.
Proof.
  induction fuel as [|fuel IH]; intros i bound step body s s' Hbody Hs;
    cbn [for_float]; [discriminate|].
  destruct (i <? bound)%f32; [|now intros [= <-]].
  destruct (body i s) as [t| |] eqn:Hb; cbn [mbind result_bind];
    try discriminate.
  apply IH; eauto.
Qed.

(** The flat-face loops hand over flat-face samples only. *)
Lemma flat_faces_samples fuel length seg_w seg_t density acc acc' :
  Forall (flat_sample seg_w) acc ->
  flat_faces record_sample fuel length seg_w seg_t density acc = Ok acc' ->
  Forall (flat_sample seg_w) acc'.
Proof.
  unfold flat_faces. intros Hacc.
  apply for_float_invariant; [|assumption].
  intros i t t' Ht.
  apply for_float_invariant; [|assumption].
  intros j u u' Hu. unfold record_sample. cbn [mbind result_bind].
  intros [= <-]. rewrite <- app_assoc.
  apply Forall_app. split; [assumption|].
  constructor; [left; cbn; auto|].
  constructor; [right; cbn; auto|]. constructor.
Qed.

(** A loop whose variable takes the values [vs] is the counted loop over
    them. *)
Lemma for_float_values {St : Type} (fuel : nat) :
  forall (i bound step : float) (body : float -> St -> result St) (s : St)
         (vs : list float),
  loop_values fuel i bound step = Ok vs ->
  for_float fuel i bound step body s = for_each vs body s.
Proof.
  induction fuel as [|fuel IH]; intros i bound step body s vs;
    cbn [loop_values for_float]; [discriminate|].
  destruct (i <? bound)%f32; [|now intros [= <-]].
  destruct (loop_values fuel (i + step)%f32 bound step) as [rest| |] eqn:Hrest;
    cbn [mbind result_bind mret result_ret]; try discriminate.
  intros [= <-]. cbn [for_each].
  destruct (body i s) as [s'| |]; cbn [mbind result_bind]; try reflexivity.
  now apply IH.
Qed.

Lemma for_each_ext {A St : Type} (l : list A) (f g : A -> St -> result St) :
  (forall a s, f a s = g a s) ->
  forall s, for_each l f s = for_each l g s.
Proof.
  intros Hfg. induction l as [|a l IH]; intros s; cbn [for_each];
    [reflexivity|].
  rewrite Hfg. destruct (g a s); cbn [mbind result_bind]; auto.
Qed.

Lemma for_each_app {A St : Type} (l1 l2 : list A) (f : A -> St -> result St) :
  forall s, for_each (l1 ++ l2) f s = (s' ← for_each l1 f s; for_each l2 f s').
Proof.
  induction l1 as [|a l1 IH]; intros s; cbn [app for_each mbind result_bind];
    [reflexivity|].
  destruct (f a s); cbn [mbind result_bind]; auto.
Qed.

Lemma for_each_flat_map {A B St : Type} (g : A -> list B)
    (f : B -> St -> result St) (l : list A) :
  forall s,
    for_each (flat_map g l) f s = for_each l (fun a s => for_each (g a) f s) s.
Proof.
  induction l as [|a l IH]; intros s; cbn [flat_map for_each]; [reflexivity|].
  rewrite for_each_app.
  destruct (for_each (g a) f s); cbn [mbind result_bind]; auto.
Qed.

(** The flat-face loops hand over the flat-face samples of the grid of
    their two loop variables, in order, whatever is done with the samples. *)
Lemma flat_faces_grid {St : Type}
    (emit : float -> float -> float -> float -> float -> St -> result St)
    (fuel : nat) (length seg_w seg_t density : float) (ivs jvs : list float)
    (s : St) :
  loop_values fuel (- length / F32.two)%f32 (length / F32.two)%f32 density
  = Ok ivs ->
  loop_values fuel (- seg_t / F32.two)%f32 (seg_t / F32.two)%f32 density
  = Ok jvs ->
  flat_faces emit fuel length seg_w seg_t density s
  = for_each (flat_face_samples seg_w ivs jvs)
      (fun p s => emit (s_px p) (s_py p) (s_pz p) (s_nx p) (s_ny p) s) s.
Proof.
  intros His Hjs. unfold flat_faces, flat_face_samples.
  rewrite (for_float_values fuel _ _ _ _ s ivs His).
  rewrite for_each_flat_map. apply for_each_ext. intros i t.
  rewrite (for_float_values fuel _ _ _ _ t jvs Hjs).
  rewrite for_each_flat_map. apply for_each_ext. intros j u.
  cbn [flat_pair for_each s_px s_py s_pz s_nx s_ny].
  destruct (emit i (seg_w / F32.two)%f32 j F32.zero F32.one u) as [v| |];
    cbn [mbind result_bind]; try reflexivity.
  now destruct (emit i (- seg_w / F32.two)%f32 j F32.zero (F32.of_int (-1)) v).
Qed.

(** Recording the samples of a list gives the list. *)
Lemma for_each_record (l acc : list sample) :
  for_each l
    (fun p acc => record_sample (s_px p) (s_py p) (s_pz p) (s_nx p) (s_ny p) acc)
    acc
  = Ok (acc ++ l).
Proof.
  revert acc. induction l as [|p l IH]; intros acc; cbn [for_each].
  - now rewrite app_nil_r.
  - assert (Hp : record_sample (s_px p) (s_py p) (s_pz p) (s_nx p) (s_ny p)
                   acc = Ok (acc ++ [p])) by (now destruct p).
    rewrite Hp. cbn [mbind result_bind]. rewrite IH.
    now rewrite <- app_assoc.
Qed.

Lemma flat_face_samples_length (seg_w : float) (ivs jvs : list float) :
  Datatypes.length (flat_face_samples seg_w ivs jvs)
  = (2 * Datatypes.length ivs * Datatypes.length jvs)%nat.
Proof.
  unfold flat_face_samples.
  assert (Hrow : forall i,
            Datatypes.length (flat_map (fun j => flat_pair seg_w i j) jvs)
            = (2 * Datatypes.length jvs)%nat).
  { intros i. induction jvs as [|j jvs IH]; cbn [flat_map]; [reflexivity|].
    rewrite length_app, IH. cbn. lia. }
  induction ivs as [|i ivs IH]; cbn [flat_map]; [reflexivity|].
  rewrite length_app, IH, Hrow. cbn [Datatypes.length]. lia.
Qed.

Lemma flat_face_samples_flat (seg_w : float) (ivs jvs : list float) :
  Forall (flat_sample seg_w) (flat_face_samples seg_w ivs jvs).
Proof.
  unfold flat_face_samples.
  induction ivs as [|i ivs IH]; cbn [flat_map]; [constructor|].
  apply Forall_app. split; [|exact IH]. clear IH.
  induction jvs as [|j jvs IHj]; cbn [flat_map]; [constructor|].
  apply Forall_app. split; [|exact IHj].
  constructor; [left; cbn; auto|].
  constructor; [right; cbn; auto|]. constructor.
Qed.

(** C7: when the slope-normal length [nl] of the end caps is below [1e-5],
    no end-cap sample is emitted, and the two flat faces are sampled and
    drawn all the same: with [ivs] the positions the first loop takes along
    the segment and [jvs] those the second takes across its thickness, the
    samples handed to [draw_rotated_point] are, for each [i] and each [j] in
    order, the one of the top face and the one of the bottom face, two for
    every point of the grid and nothing else, and what is drawn is what
    drawing these samples one after the other gives.  Nothing is reported:
    the samples are returned as for any other segment. *)
Theorem degenerate_end_caps_skipped (fuel : nat)
    (length seg_w seg_t point_len : float) (def : SegmentDef)
    (char_center_x density : float) (ctx : RenderContext)
    (ivs jvs : list float) :
  nl_degenerate seg_w point_len = true ->
  loop_values fuel (- length / F32.two)%f32 (length / F32.two)%f32 density
  = Ok ivs ->
  loop_values fuel (- seg_t / F32.two)%f32 (seg_t / F32.two)%f32 density
  = Ok jvs ->
  exists samples,
    segment_samples fuel length seg_w seg_t point_len density = Ok samples /\
    samples = flat_face_samples seg_w ivs jvs /\
    Datatypes.length samples
    = (2 * Datatypes.length ivs * Datatypes.length jvs)%nat /\
    Forall (flat_sample seg_w) samples /\
    draw_pointy_segment fuel length seg_w seg_t point_len def char_center_x
      density ctx
    = for_each samples (draw_sample def char_center_x) ctx.
Proof.
  intros Hnl His Hjs. exists (flat_face_samples seg_w ivs jvs).
  assert (Hskip : forall (St : Type) emit (s : St),
            sample_segment emit fuel length seg_w seg_t point_len density s
            = flat_faces emit fuel length seg_w seg_t density s).
  { intros St emit s. unfold sample_segment. rewrite Hnl.
    now destruct (flat_faces emit fuel length seg_w seg_t density s). }
  split; [|split; [reflexivity|split; [|split]]].
  - unfold segment_samples.
    rewrite Hskip, (flat_faces_grid _ _ _ _ _ _ ivs jvs [] His Hjs).
    apply for_each_record.
  - apply flat_face_samples_length.
  - apply flat_face_samples_flat.
  - unfold draw_pointy_segment.
    rewrite Hskip, (flat_faces_grid _ _ _ _ _ _ ivs jvs ctx His Hjs).
    reflexivity.
Qed.

Lemma degenerate_end_caps_skipped_witness :
  let ivs := [F32.of_int (-1); F32.zero] in
  let jvs := [S754_finite true 8388608 (-24)] in
  (nl_degenerate F32.zero tiny_point = true /\
   loop_values 10 (- F32.two / F32.two)%f32 (F32.two / F32.two)%f32 F32.one
   = Ok ivs /\
   loop_values 10 (- F32.one / F32.two)%f32 (F32.one / F32.two)%f32 F32.one
   = Ok jvs) /\
  (Datatypes.length
     <$> end_caps record_sample 10 F32.two F32.zero F32.one tiny_point
           F32.one []) = Ok 4%nat /\
  segment_samples 10 F32.two F32.zero F32.one tiny_point F32.one
  = Ok (flat_face_samples F32.zero ivs jvs) /\
  Datatypes.length (flat_face_samples F32.zero ivs jvs) = 4%nat /\
  draw_pointy_segment 10 F32.two F32.zero F32.one tiny_point Sample.upright
    F32.zero F32.one Sample.ctx4x3
  = for_each (flat_face_samples F32.zero ivs jvs)
      (draw_sample Sample.upright F32.zero) Sample.ctx4x3.
Proof.
  intros ivs jvs.
  assert (Hnl : nl_degenerate F32.zero tiny_point = true) by reflexivity.
  assert (His : loop_values 10 (- F32.two / F32.two)%f32
                  (F32.two / F32.two)%f32 F32.one = Ok ivs) by reflexivity.
  assert (Hjs : loop_values 10 (- F32.one / F32.two)%f32
                  (F32.one / F32.two)%f32 F32.one = Ok jvs) by reflexivity.
  destruct (degenerate_end_caps_skipped 10 F32.two F32.zero F32.one tiny_point
              Sample.upright F32.zero F32.one Sample.ctx4x3 ivs jvs Hnl His Hjs)
    as (samples & Hsamples & -> & Hlen & _ & Hdraw).
  split; [split; [exact Hnl | split; [exact His | exact Hjs]]|].
  split; [reflexivity|].
  split; [exact Hsamples|]. split; [exact Hlen | exact Hdraw].
Defined.

(** With a real point at the ends, the same segment has end-cap samples. *)
Example end_caps_sampled :
  nl_degenerate F32.zero F32.one = false /\
  (length <$> segment_samples 10 F32.two F32.zero F32.one F32.one F32.one)
  = Ok 8%nat /\
  (length <$> segment_samples 10 F32.two F32.zero F32.one F32.zero F32.one)
  = Ok 4%nat.
Proof. repeat split; reflexivity. Qed.

(** ** The frame orchestrator *)

Lemma length_realloc {A : Type} (old : list A) (n : Z) (fresh : nat -> A) :
  length (realloc old n fresh) = Z.to_nat n.
Proof. unfold realloc. now rewrite length_fmap, length_seq. Qed.

(** Clearing a buffer of [n] cells leaves [n] copies of the fill value. *)
Lemma memset_all {A : Type} (buf : list A) (v : A) (n : Z) :
  Z.of_nat (length buf) = n ->
  memset buf v n = Ok (replicate (Z.to_nat n) v).
Proof.
  intros Hn. unfold memset.
  destruct (Z.leb_spec 0 n); [|lia]. destruct (Z.leb_spec n (Z.of_nat (length buf))); [|lia].
  cbn [andb]. rewrite drop_ge by lia. now rewrite app_nil_r.
Qed.

(** What a handled resize leaves in the loop variables. *)
Lemma handle_resize_resized cfg env width st :
  Env.terminal_resized env = true ->
  Env.realloc_fails env = false ->
  0 <= Env.ws_col env * (Env.ws_row env - 1) <= Int.max_signed ->
  handle_resize cfg env width st =
    Ok (Some {| Loop.sw := Env.ws_col env; Loop.sh := Env.ws_row env - 1;
                Loop.zoom :=
                  resize_zoom cfg (Env.ws_col env) (Env.ws_row env - 1) width;
                Loop.zbuffer :=
                  realloc (Loop.zbuffer st)
                    (Env.ws_col env * (Env.ws_row env - 1)) (Env.fresh_z env);
                Loop.bbuffer :=
                  realloc (Loop.bbuffer st)
                    (Env.ws_col env * (Env.ws_row env - 1)) (Env.fresh_b env);
                Loop.allocated := true;
                Loop.A := Loop.A st; Loop.B := Loop.B st |}).
Proof.
  intros Hr Hf Hn. unfold handle_resize. rewrite Hr, Hf.
  unfold Int.mul, Int.checked, Int.in_range, Int.min_signed, Int.max_signed in *.
  destruct (Z.leb_spec (- 2 ^ 31) (Env.ws_col env * (Env.ws_row env - 1))); [|lia].
  destruct (Z.leb_spec (Env.ws_col env * (Env.ws_row env - 1)) (2 ^ 31 - 1)); [|lia].
  cbn [andb mbind result_bind].
  destruct (Z.ltb_spec (Env.ws_col env * (Env.ws_row env - 1)) 0); [lia|].
  reflexivity.
Qed.

(** Whatever a frame goes on with has buffers of the size of the screen. *)
Lemma handle_resize_ready cfg env width st :
  frame_ready env st ->
  exists st1, handle_resize cfg env width st = Ok (Some st1) /\ well_sized st1.
Proof.
  unfold frame_ready. destruct (Env.terminal_resized env) eqn:Hr.
  - intros [Hf Hn]. rewrite handle_resize_resized by assumption.
    eexists. split; [reflexivity|].
    split; cbn [Loop.sw Loop.sh Loop.zbuffer Loop.bbuffer].
    + unfold Int.in_range, Int.min_signed, Int.max_signed in *.
      apply andb_true_iff. split; apply Z.leb_le; lia.
    + rewrite length_realloc. lia.
    + rewrite length_realloc. lia.
  - intros Hws. exists st. split; [|assumption].
    unfold handle_resize. now rewrite Hr.
Qed.

(** Clearing the buffers of a well-sized loop state. *)
Lemma clear_buffers_well_sized {pf : Platform} cfg st :
  well_sized st ->
  clear_buffers (make_context cfg st) =
    Ok (set_buffers (make_context cfg st)
          (replicate (Z.to_nat (Loop.sw st * Loop.sh st)) F32.zero)
          (replicate (Z.to_nat (Loop.sw st * Loop.sh st)) " "%char)).
Proof.
  intros [Hr Hz Hb]. unfold clear_buffers.
  cbn [sw sh zbuffer bbuffer make_context].
  unfold Int.mul, Int.checked. rewrite Hr. cbn [mbind result_bind].
  rewrite (memset_all _ _ _ Hb). cbn [mbind result_bind].
  rewrite (memset_all _ _ _ Hz). reflexivity.
Qed.

Lemma screen_rows_blank ctx n :
  bbuffer ctx = replicate n " "%char ->
  Forall (Forall (fun c => c = " "%char)) (screen_rows ctx).
Proof.
  intros Hb. unfold screen_rows. rewrite Hb.
  apply Forall_fmap, Forall_forall. intros y _. cbn.
  apply Forall_take, Forall_drop, Forall_replicate. reflexivity.
Qed.

(** C8: for a zero-length text, a frame whose buffers have the size of the
    screen completes whatever the fuel, even with none, so no segment is
    rasterized; afterwards every cell of the character buffer is a space,
    every cell of the depth buffer is 0, and the rows printed are blank. *)
Theorem empty_text_blank_frame {pf : Platform} (cfg : Cfg.t) (env : Env.t)
    (st : Loop.t) :
  Env.text env = [] ->
  frame_ready env st ->
  exists st' rows,
    (forall fuel, frame cfg fuel env st = Ok (Rendered st' rows)) /\
    Loop.bbuffer st'
      = replicate (Z.to_nat (Loop.sw st' * Loop.sh st')) " "%char /\
    Loop.zbuffer st'
      = replicate (Z.to_nat (Loop.sw st' * Loop.sh st')) F32.zero /\
    Forall (Forall (fun c => c = " "%char)) rows.
Proof.
  intros Htext Hready.
  destruct (handle_resize_ready cfg env
              (total_text_3d_width cfg (text_length (Env.text env))) st Hready)
    as (st1 & Hres & Hws).
  set (n := Z.to_nat (Loop.sw st1 * Loop.sh st1)).
  set (ctx := set_buffers (make_context cfg st1)
                (replicate n F32.zero) (replicate n " "%char)).
  exists {| Loop.sw := Loop.sw st1; Loop.sh := Loop.sh st1;
            Loop.zoom := Loop.zoom st1;
            Loop.zbuffer := zbuffer ctx; Loop.bbuffer := bbuffer ctx;
            Loop.allocated := Loop.allocated st1;
            Loop.A := (Loop.A st1 + Cfg.speedA cfg)%f32;
            Loop.B := (Loop.B st1 + Cfg.speedB cfg)%f32 |}, (screen_rows ctx).
  split; [|split; [reflexivity|split; [reflexivity|]]].
  - intros fuel. unfold frame. rewrite Hres. cbn [mbind result_bind].
    unfold render. rewrite (clear_buffers_well_sized cfg st1 Hws).
    cbn [mbind result_bind]. rewrite Htext. reflexivity.
  - now apply (screen_rows_blank ctx n).
Qed.

Lemma empty_text_blank_frame_witness :
  let env := Sample.resized_env 80 24 "" in
  (Env.text env = [] /\ frame_ready env Loop.init) /\
  exists st' rows,
    (forall fuel,
       frame (pf := Sample.platform) Sample.default_cfg fuel env Loop.init
       = Ok (Rendered st' rows)) /\
    Loop.bbuffer st' = replicate 1840 " "%char /\
    Loop.zbuffer st' = replicate 1840 F32.zero.
Proof.
  intros env.
  assert (Hready : frame_ready env Loop.init).
  { split; [reflexivity|]. split; vm_compute; discriminate. }
  split; [split; [reflexivity | exact Hready]|].
  destruct (empty_text_blank_frame (pf := Sample.platform) Sample.default_cfg
              env Loop.init eq_refl Hready)
    as (st' & rows & Hframe & Hb & Hz & _).
  exists st', rows. split; [exact Hframe|].
  pose proof (Hframe 0%nat) as H0.
  assert (Hdim : Loop.sw st' = 80 /\ Loop.sh st' = 23).
  { vm_compute in H0. injection H0 as <- _. split; reflexivity. }
  destruct Hdim as [Hsw Hsh]. rewrite Hsw, Hsh in Hb, Hz.
  split; [exact Hb | exact Hz].
Defined.

(** *** What drawing preserves *)

Lemma same_settings_refl ctx : same_settings ctx ctx.
Proof. now destruct ctx. Qed.

Lemma same_settings_trans ctx1 ctx2 ctx3 :
  same_settings ctx1 ctx2 -> same_settings ctx2 ctx3 -> same_settings ctx1 ctx3.
Proof. unfold same_settings. intros -> ->. reflexivity. Qed.

Lemma project_and_draw_same_settings ctx x y z nx ny nz ctx' :
  project_and_draw x y z nx ny nz ctx = Ok ctx' -> same_settings ctx ctx'.
Proof.
  rewrite project_and_draw_factor.
  destruct (visible_cell ctx x y z) as [[idx|]| |];
    cbn [mbind result_bind]; try discriminate.
  - destruct (load (zbuffer ctx) idx) as [stored| |]; try discriminate.
    cbn [mbind result_bind].
    destruct (ooz ctx x y z <=? stored)%f32.
    + intros [= <-]. apply same_settings_refl.
    + destruct (store (zbuffer ctx) idx (ooz ctx x y z)) as [zb| |];
        try discriminate. cbn [mbind result_bind].
      destruct (shade ctx nx ny nz) as [c| |]; try discriminate.
      cbn [mbind result_bind].
      destruct (store (bbuffer ctx) idx c) as [bb| |]; try discriminate.
      cbn [mbind result_bind mret result_ret]. intros [= <-]. reflexivity.
  - intros [= <-]. apply same_settings_refl.
Qed.

Lemma project_and_draw_drawing ctx0 ctx x y z nx ny nz ctx' :
  drawing_of ctx0 ctx ->
  project_and_draw x y z nx ny nz ctx = Ok ctx' ->
  drawing_of ctx0 ctx'.
Proof.
  intros [Hfb Hs] Hp. split.
  - eapply project_and_draw_frame_buffers; eassumption.
  - eapply same_settings_trans; [eassumption|].
    eapply project_and_draw_same_settings; eassumption.
Qed.

Lemma for_each_invariant {A St : Type} (P : St -> Prop) (l : list A) :
  forall (body : A -> St -> result St) (s s' : St),
  (forall a t t', P t -> body a t = Ok t' -> P t') ->
  P s -> for_each l body s = Ok s' -> P s'.
Proof.
  induction l as [|a l IH]; intros body s s' Hbody Hs; cbn [for_each].
  - now intros [= <-].
  - destruct (body a s) as [t| |] eqn:Hb; cbn [mbind result_bind];
      try discriminate.
    apply IH; eauto.
Qed.

Lemma draw_pointy_segment_drawing ctx0 fuel length seg_w seg_t point_len def
    char_center_x density ctx ctx' :
  drawing_of ctx0 ctx ->
  draw_pointy_segment fuel length seg_w seg_t point_len def char_center_x
    density ctx = Ok ctx' ->
  drawing_of ctx0 ctx'.
Proof.
  intros Hd. unfold draw_pointy_segment, sample_segment.
  assert (Hemit : forall px py pz nx ny t t',
            drawing_of ctx0 t ->
            draw_rotated_point px py pz nx ny def char_center_x t = Ok t' ->
            drawing_of ctx0 t').
  { intros px py pz nx ny t t' Ht. unfold draw_rotated_point.
    now apply project_and_draw_drawing. }
  destruct (flat_faces _ fuel length seg_w seg_t density ctx) as [c1| |] eqn:Hf;
    cbn [mbind result_bind]; try discriminate.
  assert (Hc1 : drawing_of ctx0 c1).
  { revert Hf. unfold flat_faces.
    apply for_float_invariant; [|assumption]. intros i t t' Ht.
    apply for_float_invariant; [|assumption]. intros j u u' Hu.
    destruct (draw_rotated_point i _ j _ _ def char_center_x u) as [u1| |] eqn:H1;
      cbn [mbind result_bind]; try discriminate.
    apply Hemit. eapply Hemit; eassumption. }
  destruct (nl_degenerate seg_w point_len); [now intros [= <-]|].
  unfold end_caps.
  apply for_float_invariant; [|assumption]. intros u t t' Ht.
  apply for_float_invariant; [|assumption]. intros pz v v' Hv.
  cbv zeta.
  destruct (draw_rotated_point _ _ pz _ _ def char_center_x v) as [v1| |] eqn:H1;
    cbn [mbind result_bind]; try discriminate.
  destruct (draw_rotated_point _ _ pz _ _ def char_center_x v1) as [v2| |] eqn:H2;
    cbn [mbind result_bind]; try discriminate.
  destruct (draw_rotated_point _ _ pz _ _ def char_center_x v2) as [v3| |] eqn:H3;
    cbn [mbind result_bind]; try discriminate.
  apply Hemit. eapply Hemit; [|eassumption]. eapply Hemit; [|eassumption].
  eapply Hemit; eassumption.
Qed.

Lemma draw_text_drawing {pf : Platform} cfg fuel text text_len ctx0 ctx ctx' :
  drawing_of ctx0 ctx ->
  draw_text cfg fuel text text_len ctx = Ok ctx' ->
  drawing_of ctx0 ctx'.
Proof.
  unfold draw_text. apply for_each_invariant.
  intros [char_idx c] t t' Ht. unfold draw_char.
  destruct (font_lookup (char_value c)) as [seg_data| |];
    cbn [mbind result_bind]; try discriminate.
  unfold draw_segments. apply for_each_invariant; [|assumption].
  intros i u u' Hu. destruct (segment_on seg_data i); [|now intros [= <-]].
  destruct (load (segment_lengths cfg) i) as [len| |];
    cbn [mbind result_bind]; try discriminate.
  destruct (load (seg_defs cfg) i) as [def| |];
    cbn [mbind result_bind]; try discriminate.
  now apply draw_pointy_segment_drawing.
Qed.

(** *** Determinism *)

(** The buffers of a frame do not depend on what the buffers held before. *)
Lemma render_independent {pf : Platform} cfg fuel text st1 st2 :
  well_sized st1 -> well_sized st2 -> same_variables st1 st2 ->
  render cfg fuel text st1 = render cfg fuel text st2.
Proof.
  intros Hw1 Hw2 [Hsw Hsh Hzoom HA HB]. unfold render.
  rewrite (clear_buffers_well_sized cfg st1 Hw1).
  rewrite (clear_buffers_well_sized cfg st2 Hw2).
  unfold make_context, set_buffers. cbn.
  now rewrite Hsw, Hsh, Hzoom, HA, HB.
Qed.

(** After a frame the buffers still have the size of the screen. *)
Lemma render_drawing {pf : Platform} cfg fuel text st ctx :
  well_sized st ->
  render cfg fuel text st = Ok ctx ->
  drawing_of (make_context cfg st) ctx.
Proof.
  intros Hw. unfold render. rewrite (clear_buffers_well_sized cfg st Hw).
  cbn [mbind result_bind]. intros Hd.
  assert (H0 : drawing_of (make_context cfg st)
                 (set_buffers (make_context cfg st)
                    (replicate (Z.to_nat (Loop.sw st * Loop.sh st)) F32.zero)
                    (replicate (Z.to_nat (Loop.sw st * Loop.sh st)) " "%char))).
  { destruct Hw as [Hr Hz Hb]. split; [|reflexivity].
    split; cbn; rewrite ?length_replicate; try lia.
    apply Forall_replicate. reflexivity. }
  eapply draw_text_drawing; eassumption.
Qed.

Lemma frame_unfold {pf : Platform} cfg fuel env st :
  frame cfg fuel env st =
    (resized ← handle_resize cfg env
                 (total_text_3d_width cfg (text_length (Env.text env))) st;
     match resized with
     | None => Ok Stopped
     | Some st1 =>
         ctx ← render cfg fuel (Env.text env) st1;
         mret (Rendered (next_variables cfg st1 ctx) (screen_rows ctx))
     end).
Proof. reflexivity. Qed.

(** C9: the frame computation is a function of the configuration, the
    text, the terminal dimensions and the loop variables, and of nothing
    else: two runs of a frame that agree on those, whatever the buffers held
    before and whatever fresh memory contains, have the same outcome, down
    to every cell of both buffers and every row printed.  Unless the frame
    handles a resize that succeeds, the two runs are to agree on whether
    buffers were allocated before: a resize that fails stops the one cleanly
    and frees the buffers of the other twice. *)
Theorem frame_deterministic {pf : Platform} (cfg : Cfg.t) (fuel : nat)
    (env1 env2 : Env.t) (st1 st2 : Loop.t) :
  same_inputs env1 env2 ->
  same_variables st1 st2 ->
  (Env.terminal_resized env1 = false -> well_sized st1 /\ well_sized st2) ->
  resize_succeeds env1 \/ Loop.allocated st1 = Loop.allocated st2 ->
  frame cfg fuel env1 st1 = frame cfg fuel env2 st2.
Proof.
  intros [Ht Hr Hc Hrow Hf] Hv Hsteady Hown. rewrite !frame_unfold.
  rewrite <- Ht.
  set (width := total_text_3d_width cfg (text_length (Env.text env1))).
  destruct (Env.terminal_resized env1) eqn:Hr1.
  - (* both frames resize *)
    unfold handle_resize. rewrite <- Hr, Hr1, <- Hc, <- Hrow, <- Hf.
    destruct (Int.mul (Env.ws_col env1) (Env.ws_row env1 - 1)) as [n| |] eqn:Hn;
      cbn [mbind result_bind]; try reflexivity.
    assert (Hn' : n = Env.ws_col env1 * (Env.ws_row env1 - 1) /\
                  Int.in_range n = true).
    { unfold Int.mul, Int.checked in Hn.
      destruct (Int.in_range (Env.ws_col env1 * (Env.ws_row env1 - 1))) eqn:Hrg;
        [|discriminate]. injection Hn as <-. auto. }
    destruct Hn' as [Hneq Hrange].
    destruct ((n <? 0) || Env.realloc_fails env1) eqn:Hfail.
    { (* the resize fails in both *)
      destruct Hown as [(_ & Hok & Hpos) | ->]; [|reflexivity].
      apply orb_true_iff in Hfail as [Hneg | Hre]; [|congruence].
      apply Z.ltb_lt in Hneg. lia. }
    apply orb_false_iff in Hfail as [Hn0 _]. apply Z.ltb_ge in Hn0.
    cbn [mbind result_bind].
    match goal with
    | |- context [render cfg fuel (Env.text env1) ?a ≫= _] =>
        match goal with
        | |- _ = (render cfg fuel (Env.text env1) ?b ≫= _) =>
            set (s1 := a); set (s2 := b)
        end
    end.
    assert (Hw1 : well_sized s1).
    { split; cbn; rewrite ?length_realloc; rewrite <- ?Hneq; try lia; assumption. }
    assert (Hw2 : well_sized s2).
    { split; cbn; rewrite ?length_realloc; rewrite <- ?Hneq; try lia; assumption. }
    assert (Hsv : same_variables s1 s2).
    { destruct Hv. split; cbn; congruence. }
    rewrite (render_independent cfg fuel _ s1 s2 Hw1 Hw2 Hsv).
    destruct (render cfg fuel (Env.text env1) s2) as [ctx| |];
      cbn [mbind result_bind mret result_ret]; try reflexivity.
    unfold next_variables. destruct Hsv as [Hsw Hsh Hzoom HA HB].
    now rewrite Hsw, Hsh, Hzoom, HA, HB.
  - (* neither does *)
    destruct (Hsteady eq_refl) as [Hw1 Hw2].
    unfold handle_resize. rewrite <- Hr, Hr1. cbn [mbind result_bind].
    rewrite (render_independent cfg fuel _ st1 st2 Hw1 Hw2 Hv).
    destruct (render cfg fuel (Env.text env1) st2) as [ctx| |];
      cbn [mbind result_bind mret result_ret]; try reflexivity.
    unfold next_variables. destruct Hv as [Hsw Hsh Hzoom HA HB].
    destruct Hown as [(Hres & _) | Hown]; [congruence|].
    now rewrite Hsw, Hsh, Hzoom, HA, HB, Hown.
Qed.

Lemma frame_deterministic_witness :
  let env1 := Sample.resized_env 20 11 "8" in
  let env2 := Sample.other_memory env1 in
  (same_inputs env1 env2 /\ same_variables Loop.init Sample.littered /\
   resize_succeeds env1) /\
  frame (pf := Sample.platform) Sample.coarse_cfg 20 env1 Loop.init
  = frame (pf := Sample.platform) Sample.coarse_cfg 20 env2 Sample.littered.
Proof.
  intros env1 env2.
  assert (Hi : same_inputs env1 env2) by (split; reflexivity).
  assert (Hv : same_variables Loop.init Sample.littered) by (split; reflexivity).
  assert (Hs : resize_succeeds env1).
  { split; [reflexivity|]. split; [reflexivity|]. vm_compute. congruence. }
  split; [split; [assumption | split; assumption]|].
  apply (frame_deterministic (pf := Sample.platform) Sample.coarse_cfg 20
           env1 env2 Loop.init Sample.littered Hi Hv).
  - intros Hr. discriminate Hr.
  - left. exact Hs.
Defined.

(** The frame of the text "8" on a screen of 20 by 10 cells, sampled with
    the coarse step: the rows printed. *)
Example frame_of_8 :
  match frame (pf := Sample.platform) Sample.coarse_cfg 20
          (Sample.resized_env 20 11 "8") Loop.init with
  | Ok (Rendered _ rows) => string_of_list_ascii <$> rows
  | _ => []
  end
  = [ "          @ @@@@    ";
      "    .; = . .. . . ==";
      "    . ==       .. = ";
      "   .  =        . =  ";
      "   . =@ @@@@@@.@ =  ";
      "  . =@...... .. =   ";
      " .. =        . ==   ";
      " . ==       .. =    ";
      ".. = @@@@@@ . ==    ";
      "    . .. .          " ]%string.
Proof. vm_compute. reflexivity. Qed.

(** *** A run that does not rotate *)

Lemma add_zero_speed (v : float) : is_zero v -> F32.add F32.zero v = F32.zero.
Proof. now intros [-> | ->]. Qed.

Lemma render_well_sized {pf : Platform} cfg fuel text st ctx :
  well_sized st ->
  render cfg fuel text st = Ok ctx ->
  well_sized (next_variables cfg st ctx).
Proof.
  intros Hw Hr. pose proof Hw as [Hrange _ _].
  destruct (render_drawing _ _ _ _ _ Hw Hr) as [[Hz Hb _] Hs].
  unfold same_settings in Hs. rewrite Hs in Hz, Hb. cbn in Hz, Hb.
  split; cbn; assumption.
Qed.

(** With both speeds at zero, each frame of a steady run starts at rest and
    prints the rows of the run at rest. *)
Lemma frame_at_rest {pf : Platform} cfg fuel text cols rows env st st' printed :
  is_zero (Cfg.speedA cfg) -> is_zero (Cfg.speedB cfg) ->
  Env.text env = text -> Env.ws_col env = cols -> Env.ws_row env = rows ->
  Loop.A st = F32.zero -> Loop.B st = F32.zero ->
  (Env.terminal_resized env = false ->
   well_sized st /\ same_variables st (rest_variables cfg text cols rows)) ->
  frame cfg fuel env st = Ok (Rendered st' printed) ->
  printed = rest_rows cfg fuel text cols rows /\
  well_sized st' /\ same_variables st' (rest_variables cfg text cols rows).
Proof.
  intros HsA HsB Htext Hcols Hrows HA HB Hsteady. rewrite frame_unfold.
  set (st0 := rest_variables cfg text cols rows).
  assert (Hst1 : forall st1,
            handle_resize cfg env
              (total_text_3d_width cfg (text_length (Env.text env))) st
            = Ok (Some st1) ->
            well_sized st1 /\ same_variables st1 st0).
  { intros st1. unfold handle_resize.
    destruct (Env.terminal_resized env) eqn:Hr.
    - destruct (Int.mul (Env.ws_col env) (Env.ws_row env - 1)) as [n| |] eqn:Hn;
        cbn [mbind result_bind]; try discriminate.
      destruct ((n <? 0) || Env.realloc_fails env) eqn:Hfail;
        [now destruct (Loop.allocated st)|].
      apply orb_false_iff in Hfail as [Hn0 _]. apply Z.ltb_ge in Hn0.
      unfold Int.mul, Int.checked in Hn.
      destruct (Int.in_range (Env.ws_col env * (Env.ws_row env - 1))) eqn:Hrg;
        [|discriminate]. injection Hn as <-.
      intros [= <-]. split.
      + split; cbn; rewrite ?length_realloc; try lia; assumption.
      + split; cbn; subst; auto.
    - intros [= <-]. now apply Hsteady. }
  destruct (handle_resize cfg env _ st) as [[st1|]| |] eqn:Hres;
    cbn [mbind result_bind]; try discriminate.
  destruct (Hst1 st1 eq_refl) as [Hw1 Hv1].
  assert (Hw0 : well_sized st0).
  { destruct Hw1 as [Hrange Hz _]. destruct Hv1 as [Hsw Hsh _ _ _].
    cbn in Hsw, Hsh. rewrite Hsw, Hsh in Hrange, Hz.
    split; cbn; rewrite ?length_replicate; try lia; assumption. }
  rewrite Htext.
  rewrite (render_independent cfg fuel text st1 st0 Hw1 Hw0 Hv1).
  unfold rest_rows. fold st0.
  destruct (render cfg fuel text st0) as [ctx| |] eqn:Hrender;
    cbn [mbind result_bind mret result_ret]; try discriminate.
  intros [= <- <-]. split; [reflexivity|]. split.
  - assert (Hr1 : render cfg fuel text st1 = Ok ctx)
      by now rewrite (render_independent cfg fuel text st1 st0 Hw1 Hw0 Hv1).
    now apply (render_well_sized cfg fuel text st1 ctx).
  - destruct Hv1 as [Hsw Hsh Hzoom HA1 HB1].
    assert (HA1' : Loop.A st1 = F32.zero) by (rewrite HA1; reflexivity).
    assert (HB1' : Loop.B st1 = F32.zero) by (rewrite HB1; reflexivity).
    split; cbn [next_variables Loop.sw Loop.sh Loop.zoom Loop.A Loop.B];
      try assumption.
    + rewrite HA1'. now apply add_zero_speed.
    + rewrite HB1'. now apply add_zero_speed.
Qed.

Lemma main_loop_at_rest {pf : Platform} cfg fuel text cols rows :
  is_zero (Cfg.speedA cfg) -> is_zero (Cfg.speedB cfg) ->
  forall envs st screens,
  steady_run text cols rows envs ->
  well_sized st -> same_variables st (rest_variables cfg text cols rows) ->
  main_loop cfg fuel envs st = Ok screens ->
  screens = replicate (length screens) (rest_rows cfg fuel text cols rows).
Proof.
  intros HsA HsB. induction envs as [|env envs IH];
    intros st screens Hrun Hw Hv; cbn [main_loop].
  - now intros [= <-].
  - apply Forall_cons in Hrun as [(Htext & Hcols & Hrows & _) Hrun].
    destruct (frame cfg fuel env st) as [[st' printed|]| |] eqn:Hf;
      cbn [mbind result_bind]; try discriminate; [|now intros [= <-]].
    destruct (main_loop cfg fuel envs st') as [rest| |] eqn:Hl;
      cbn [mbind result_bind mret result_ret]; try discriminate.
    intros [= <-].
    destruct (frame_at_rest cfg fuel text cols rows env st st' printed)
      as (Hp & Hw' & Hv'); auto.
    + now destruct Hv.
    + now destruct Hv.
    + cbn [length replicate]. rewrite Hp. f_equal. now apply (IH st').
Qed.

(** With pitch speed 0 and yaw speed 0, a fixed text and a terminal that
    keeps its size, every frame of a run prints the same rows. *)
Theorem still_run_repeats_frame {pf : Platform} (cfg : Cfg.t) (fuel : nat)
    (text : list ascii) (cols rows : Z) (env : Env.t) (envs : list Env.t)
    (screens : list (list (list ascii))) :
  is_zero (Cfg.speedA cfg) -> is_zero (Cfg.speedB cfg) ->
  steady_run text cols rows (env :: envs) ->
  Env.terminal_resized env = true ->
  main_loop cfg fuel (env :: envs) Loop.init = Ok screens ->
  screens = replicate (length screens) (rest_rows cfg fuel text cols rows).
Proof.
  intros HsA HsB Hrun Hr. cbn [main_loop].
  apply Forall_cons in Hrun as [(Htext & Hcols & Hrows & _) Hrun].
  destruct (frame cfg fuel env Loop.init) as [[st' printed|]| |] eqn:Hf;
    cbn [mbind result_bind]; try discriminate; [|now intros [= <-]].
  destruct (main_loop cfg fuel envs st') as [rest| |] eqn:Hl;
    cbn [mbind result_bind mret result_ret]; try discriminate.
  intros [= <-].
  destruct (frame_at_rest cfg fuel text cols rows env Loop.init st' printed)
    as (Hp & Hw' & Hv'); auto.
  - intros Hr'. congruence.
  - cbn [length replicate]. rewrite Hp. f_equal.
    now apply (main_loop_at_rest cfg fuel text cols rows HsA HsB envs st').
Qed.

Lemma still_run_repeats_frame_witness :
  let envs := [ Sample.resized_env 20 11 "8"; Sample.steady_env 20 11 "8";
                Sample.other_memory (Sample.resized_env 20 11 "8") ] in
  (is_zero (Cfg.speedA Sample.still_cfg) /\
   steady_run (list_ascii_of_string "8") 20 11 envs) /\
  exists printed,
    main_loop (pf := Sample.platform) Sample.still_cfg 20 envs Loop.init
    = Ok [printed; printed; printed].
Proof.
  intros envs.
  assert (Hz : is_zero F32.zero) by now left.
  assert (Hrun : steady_run (list_ascii_of_string "8") 20 11 envs).
  { repeat constructor. }
  split; [split; [exact Hz | exact Hrun]|].
  destruct (main_loop (pf := Sample.platform) Sample.still_cfg 20 envs Loop.init)
    as [screens| |] eqn:Hl; try (vm_compute in Hl; discriminate).
  pose proof (still_run_repeats_frame (pf := Sample.platform) Sample.still_cfg
                20 (list_ascii_of_string "8") 20 11 _ _ screens Hz Hz Hrun
                eq_refl Hl) as Hrep.
  assert (Hlen : length screens = 3%nat).
  { vm_compute in Hl. injection Hl as <-. reflexivity. }
  rewrite Hlen in Hrep. eexists. now rewrite Hrep.
Defined.

(** ** Zoom *)

Lemma fminf_valid (a b : float) :
  F32.valid a = true -> F32.valid b = true -> F32.valid (F32.fminf a b) = true.
Proof.
  intros Ha Hb. unfold F32.fminf.
  destruct (F32.is_nan a); [assumption|].
  destruct (F32.is_nan b); [assumption|].
  now destruct (F32.ltb b a).
Qed.

Lemma F32_div_valid (a b : float) : F32.valid (F32.div a b) = true.
Proof. apply SFdiv_valid. reflexivity. Qed.

(** The zoom computed by the code is the one of the specification: the
    division by 1 changes nothing. *)
Lemma auto_zoom_spec (cfg : Cfg.t) (sw sh text_len : Z) :
  auto_zoom cfg sw sh (total_text_3d_width cfg text_len)
  = spec_auto_zoom cfg sw sh text_len.
Proof.
  unfold auto_zoom, spec_auto_zoom, total_text_3d_width, char_spacing.
  change (F32.of_int 1) with F32.one.
  rewrite F32_div_one by (apply fminf_valid; apply F32_div_valid).
  now rewrite (F32_mul_comm _ F32.two).
Qed.

Lemma resize_zoom_no_override (cfg : Cfg.t) (sw sh : Z) (width : float) :
  Cfg.manual_zoom cfg = NO_MANUAL_ZOOM ->
  resize_zoom cfg sw sh width = auto_zoom cfg sw sh width.
Proof. unfold resize_zoom. now intros ->. Qed.

(** A frame that goes on has handled the pending resize, if any, and kept
    the dimensions and the zoom it then had. *)
Lemma frame_rendered {pf : Platform} cfg fuel env st st' rows :
  frame cfg fuel env st = Ok (Rendered st' rows) ->
  exists st1,
    handle_resize cfg env
      (total_text_3d_width cfg (text_length (Env.text env))) st
    = Ok (Some st1) /\
    Loop.sw st' = Loop.sw st1 /\ Loop.sh st' = Loop.sh st1 /\
    Loop.zoom st' = Loop.zoom st1.
Proof.
  rewrite frame_unfold.
  destruct (handle_resize cfg env _ st) as [[st1|]| |];
    cbn [mbind result_bind]; try discriminate.
  destruct (render cfg fuel (Env.text env) st1) as [ctx| |];
    cbn [mbind result_bind mret result_ret]; try discriminate.
  intros [= <- <-]. exists st1. auto.
Qed.

(** C6: when a frame handles a resize (the terminal has answered, both
    reallocations have succeeded) and no manual zoom is configured
    ([manual_zoom] kept at its initial -1), the loop variables are set to
    [sw = columns], [sh = rows - 1] and to the zoom
    [min(sh * 0.85 * 25 / H, sw * 0.85 * 25 / (2 * total_text_width))],
    where the width is [(text_len - 1) * char_spacing + W] for a text of
    more than one character and [W] otherwise; a frame that goes on to
    render keeps them. *)
Theorem resize_sets_auto_zoom {pf : Platform} (cfg : Cfg.t) (fuel : nat)
    (env : Env.t) (st : Loop.t) :
  Cfg.manual_zoom cfg = NO_MANUAL_ZOOM ->
  Env.terminal_resized env = true ->
  Env.realloc_fails env = false ->
  0 <= Env.ws_col env * (Env.ws_row env - 1) <= Int.max_signed ->
  let text_len := text_length (Env.text env) in
  let auto :=
    spec_auto_zoom cfg (Env.ws_col env) (Env.ws_row env - 1) text_len in
  (exists st1,
     handle_resize cfg env (total_text_3d_width cfg text_len) st
     = Ok (Some st1) /\
     Loop.sw st1 = Env.ws_col env /\ Loop.sh st1 = Env.ws_row env - 1 /\
     Loop.zoom st1 = auto) /\
  (forall st' rows,
     frame cfg fuel env st = Ok (Rendered st' rows) ->
     Loop.sw st' = Env.ws_col env /\ Loop.sh st' = Env.ws_row env - 1 /\
     Loop.zoom st' = auto).
Proof.
  intros Hz Hr Hf Hn text_len auto.
  pose proof (handle_resize_resized cfg env
                (total_text_3d_width cfg text_len) st Hr Hf Hn) as Hres.
  assert (Hauto : resize_zoom cfg (Env.ws_col env) (Env.ws_row env - 1)
                    (total_text_3d_width cfg text_len) = auto).
  { rewrite resize_zoom_no_override by assumption. apply auto_zoom_spec. }
  split.
  - eexists. split; [exact Hres|]. cbn [Loop.sw Loop.sh Loop.zoom]. auto.
  - intros st' rows Hframe.
    destruct (frame_rendered _ _ _ _ _ _ Hframe)
      as (st1 & Hres' & Hsw & Hsh & Hzoom).
    fold text_len in Hres'. rewrite Hres in Hres'. injection Hres' as <-.
    cbn [Loop.sw Loop.sh Loop.zoom] in *. rewrite Hsw, Hsh, Hzoom. auto.
Qed.

Lemma resize_sets_auto_zoom_witness :
  let env := Sample.resized_env 80 24 "" in
  (Cfg.manual_zoom Sample.default_cfg = NO_MANUAL_ZOOM /\
   Env.terminal_resized env = true /\ Env.realloc_fails env = false /\
   0 <= Env.ws_col env * (Env.ws_row env - 1) <= Int.max_signed) /\
  exists st' rows,
    frame (pf := Sample.platform) Sample.default_cfg 0 env Loop.init
    = Ok (Rendered st' rows) /\
    Loop.zoom st' = spec_auto_zoom Sample.default_cfg 80 23 0 /\
    Loop.zoom st' = S754_finite false 10676907 (-18).
Proof.
  intros env.
  assert (Hn : 0 <= Env.ws_col env * (Env.ws_row env - 1) <= Int.max_signed).
  { split; vm_compute; discriminate. }
  split; [repeat split; try reflexivity; apply Hn|].
  destruct (frame (pf := Sample.platform) Sample.default_cfg 0 env Loop.init)
    as [[st' rows|]| |] eqn:Hframe; try (vm_compute in Hframe; discriminate).
  exists st', rows. split; [reflexivity|].
  destruct (resize_sets_auto_zoom (pf := Sample.platform) Sample.default_cfg 0
              env Loop.init eq_refl eq_refl eq_refl Hn) as [_ Hkeep].
  destruct (Hkeep st' rows Hframe) as (_ & _ & Hzoom).
  split; [exact Hzoom|]. rewrite Hzoom. vm_compute. reflexivity.
Defined.

(** Only the zoom chosen on a resize looks at the manual zoom. *)
Lemma frame_with_manual_zoom {pf : Platform} cfg z fuel env st :
  (forall sw sh width,
     resize_zoom (with_manual_zoom cfg z) sw sh width
     = resize_zoom cfg sw sh width) ->
  frame (with_manual_zoom cfg z) fuel env st = frame cfg fuel env st.
Proof.
  intros Hzoom. rewrite !frame_unfold.
  change (total_text_3d_width (with_manual_zoom cfg z))
    with (total_text_3d_width cfg).
  assert (Hres : forall width,
            handle_resize (with_manual_zoom cfg z) env width st
            = handle_resize cfg env width st).
  { intros width. unfold handle_resize. now rewrite Hzoom. }
  rewrite Hres. reflexivity.
Qed.

(** C10, as the code has it: a manual zoom for which [manual_zoom <= 0]
    holds (zero of either sign, or negative) makes every frame, hence every
    resize, behave exactly as without an override; any other value is used
    verbatim as the zoom of a resize, and the other values are the strictly
    positive ones and NaN. *)
Theorem manual_zoom_override {pf : Platform} (cfg : Cfg.t) :
  ((Cfg.manual_zoom cfg <=? F32.zero)%f32 = true ->
   forall fuel env st,
     frame cfg fuel env st
     = frame (with_manual_zoom cfg NO_MANUAL_ZOOM) fuel env st) /\
  ((Cfg.manual_zoom cfg <=? F32.zero)%f32 = false ->
   forall sw sh width, resize_zoom cfg sw sh width = Cfg.manual_zoom cfg) /\
  ((Cfg.manual_zoom cfg <=? F32.zero)%f32 = false <->
   (F32.zero <? Cfg.manual_zoom cfg)%f32 = true \/
   F32.is_nan (Cfg.manual_zoom cfg) = true).
Proof.
  split; [|split].
  - intros Hle fuel env st. symmetry. apply frame_with_manual_zoom.
    intros sw sh width. unfold resize_zoom.
    change (F32.of_int 0) with F32.zero. rewrite Hle. reflexivity.
  - intros Hle sw sh width. unfold resize_zoom.
    change (F32.of_int 0) with F32.zero. now rewrite Hle.
  - split.
    + intros Hle. destruct (F32.is_nan (Cfg.manual_zoom cfg)) eqn:Hn; [now right|].
      left. now apply leb_false_ltb.
    + intros [Hlt|Hn].
      * now apply ltb_leb_false.
      * now destruct (Cfg.manual_zoom cfg).
Qed.

Lemma manual_zoom_override_witness :
  let cfg := with_manual_zoom Sample.default_cfg F32.zero in
  let env := Sample.resized_env 80 24 "" in
  (Cfg.manual_zoom cfg <=? F32.zero)%f32 = true /\
  frame (pf := Sample.platform) cfg 0 env Loop.init
  = frame (pf := Sample.platform) Sample.default_cfg 0 env Loop.init.
Proof.
  intros cfg env. split; [reflexivity|].
  exact (proj1 (manual_zoom_override (pf := Sample.platform) cfg) eq_refl
           0%nat env Loop.init).
Defined.

(** C10 does not hold for [-z nan]: the test [manual_zoom <= 0] is false for
    a NaN, so the NaN is used verbatim, in place of the automatic zoom,
    although it is not strictly positive. *)
Lemma manual_zoom_nan_used_verbatim :
  let cfg := with_manual_zoom Sample.default_cfg S754_nan in
  ~ (resize_zoom cfg 80 23 (Cfg.W cfg) = Cfg.manual_zoom cfg ->
     resize_zoom cfg 80 23 (Cfg.W cfg) <> auto_zoom cfg 80 23 (Cfg.W cfg) ->
     (F32.zero <? Cfg.manual_zoom cfg)%f32 = true).
Proof.
  intros cfg Honly.
  assert (Hfalse : (F32.zero <? Cfg.manual_zoom cfg)%f32 = true).
  { apply Honly; [reflexivity|]. vm_compute. discriminate. }
  discriminate Hfalse.
Qed.


(* ===================================================================== *)
(** * Part II, continued: further properties of the code                  *)
(* ===================================================================== *)

(** ** The projector: what one call does to the buffers *)

Lemma leb_refl (d : float) : F32.is_nan d = false -> F32.leb d d = true.
Proof. intros Hd. apply leb_rank. auto. Qed.

(** What a call that returns has done: nothing, or one write at the visible
    cell. *)
Lemma project_and_draw_effect (ctx ctx' : RenderContext)
    (x y z nx ny nz : float) :
  project_and_draw x y z nx ny nz ctx = Ok ctx' ->
  ctx' = ctx \/
  exists idx stored c,
    visible_cell ctx x y z = Ok (Some idx) /\
    zbuffer ctx !! Z.to_nat idx = Some stored /\
    (ooz ctx x y z <=? stored)%f32 = false /\
    shade ctx nx ny nz = Ok c /\
    ctx' = write_cell ctx idx (ooz ctx x y z) c /\
    zbuffer ctx' !! Z.to_nat idx = Some (ooz ctx x y z) /\
    bbuffer ctx' !! Z.to_nat idx = Some c /\
    (forall i, i <> Z.to_nat idx ->
       zbuffer ctx' !! i = zbuffer ctx !! i /\
       bbuffer ctx' !! i = bbuffer ctx !! i).
Proof.
  rewrite project_and_draw_factor.
  destruct (visible_cell ctx x y z) as [[idx|]| |] eqn:Hv;
    cbn [mbind result_bind]; try discriminate; [|intros [= <-]; now left].
  unfold load, store.
  destruct (Z.ltb_spec idx 0) as [|Hidx]; [discriminate|].
  destruct (zbuffer ctx !! Z.to_nat idx) as [stored|] eqn:Hst; [|discriminate].
  cbn [mbind result_bind].
  destruct (ooz ctx x y z <=? stored)%f32 eqn:Hle; [intros [= <-]; now left|].
  destruct ((0 <=? idx) && (idx <? Z.of_nat (length (zbuffer ctx)))) eqn:Hzb;
    [|discriminate]. cbn [mbind result_bind].
  destruct (shade ctx nx ny nz) as [c| |]; try discriminate.
  cbn [mbind result_bind].
  destruct ((0 <=? idx) && (idx <? Z.of_nat (length (bbuffer ctx)))) eqn:Hbb;
    [|discriminate]. cbn [mbind result_bind mret result_ret].
  intros [= <-]. right. exists idx, stored, c.
  apply andb_true_iff in Hzb as [_ Hzb]. apply Z.ltb_lt in Hzb.
  apply andb_true_iff in Hbb as [_ Hbb]. apply Z.ltb_lt in Hbb.
  repeat split; try reflexivity; try assumption; cbn.
  - apply list_lookup_insert_eq. lia.
  - apply list_lookup_insert_eq. lia.
  - now apply list_lookup_insert_ne.
  - now apply list_lookup_insert_ne.
Qed.

(** X1: A call of [project_and_draw] that returns has either changed nothing or
    written one cell, the one the point is visible at: the new depth is the
    point's inverse depth, strictly above the depth stored before, the new
    character is the shade of the normal, and every other cell of both
    buffers, like every setting, is as before. *)
Theorem project_and_draw_writes_one_cell (ctx ctx' : RenderContext)
    (x y z nx ny nz : float) :
  project_and_draw x y z nx ny nz ctx = Ok ctx' ->
  ctx' = ctx \/
  exists idx stored c,
    visible_cell ctx x y z = Ok (Some idx) /\
    zbuffer ctx !! Z.to_nat idx = Some stored /\
    (ooz ctx x y z <=? stored)%f32 = false /\
    shade ctx nx ny nz = Ok c /\
    ctx' = write_cell ctx idx (ooz ctx x y z) c /\
    zbuffer ctx' !! Z.to_nat idx = Some (ooz ctx x y z) /\
    bbuffer ctx' !! Z.to_nat idx = Some c /\
    (forall i, i <> Z.to_nat idx ->
       zbuffer ctx' !! i = zbuffer ctx !! i /\
       bbuffer ctx' !! i = bbuffer ctx !! i).
Proof. apply project_and_draw_effect. Qed.

Lemma project_and_draw_writes_one_cell_witness :
  let d := ooz Sample.ctx4x3 F32.zero F32.zero F32.zero in
  let ctx' := write_cell Sample.ctx4x3 6 d "@"%char in
  project_and_draw F32.zero F32.zero F32.zero F32.zero F32.one F32.zero
    Sample.ctx4x3 = Ok ctx' /\
  (ctx' = Sample.ctx4x3 \/
   exists idx stored c,
     visible_cell Sample.ctx4x3 F32.zero F32.zero F32.zero = Ok (Some idx) /\
     zbuffer Sample.ctx4x3 !! Z.to_nat idx = Some stored /\
     (d <=? stored)%f32 = false /\
     shade Sample.ctx4x3 F32.zero F32.one F32.zero = Ok c /\
     ctx' = write_cell Sample.ctx4x3 idx d c /\
     zbuffer ctx' !! Z.to_nat idx = Some d /\
     bbuffer ctx' !! Z.to_nat idx = Some c /\
     (forall i, i <> Z.to_nat idx ->
        zbuffer ctx' !! i = zbuffer Sample.ctx4x3 !! i /\
        bbuffer ctx' !! i = bbuffer Sample.ctx4x3 !! i)).
Proof.
  intros d ctx'.
  assert (Hp : project_and_draw F32.zero F32.zero F32.zero
                 F32.zero F32.one F32.zero Sample.ctx4x3 = Ok ctx')
    by (vm_compute; reflexivity).
  split; [exact Hp|].
  exact (project_and_draw_writes_one_cell Sample.ctx4x3 ctx'
           F32.zero F32.zero F32.zero F32.zero F32.one F32.zero Hp).
Defined.

(** X2: Drawing the same point a second time changes nothing: at equal depth the
    cell keeps what it has. *)
Theorem project_and_draw_idempotent (ctx ctx' : RenderContext)
    (x y z nx ny nz : float) :
  project_and_draw x y z nx ny nz ctx = Ok ctx' ->
  project_and_draw x y z nx ny nz ctx' = Ok ctx'.
Proof.
  intros Hp.
  destruct (project_and_draw_effect _ _ _ _ _ _ _ _ Hp)
    as [-> | (idx & stored & c & Hv & _ & _ & _ & Hctx & Hz & _)];
    [assumption|].
  destruct (visible_cell_depth _ _ _ _ _ Hv) as [_ Hn].
  assert (Hv' : visible_cell ctx' x y z = Ok (Some idx)) by now rewrite Hctx.
  assert (Ho : ooz ctx' x y z = ooz ctx x y z) by now rewrite Hctx.
  rewrite (project_and_draw_visible _ _ _ _ _ _ _ _ Hv').
  assert (Hidx : 0 <= idx).
  { revert Hp. rewrite (project_and_draw_visible _ _ _ _ _ _ _ _ Hv).
    unfold load. destruct (Z.ltb_spec idx 0); [discriminate|lia]. }
  rewrite (load_lookup _ _ _ Hidx Hz). cbn [mbind result_bind].
  now rewrite Ho, leb_refl.
Qed.

Lemma project_and_draw_idempotent_witness :
  let d := ooz Sample.ctx4x3 F32.zero F32.zero F32.zero in
  let ctx' := write_cell Sample.ctx4x3 6 d "@"%char in
  project_and_draw F32.zero F32.zero F32.zero F32.zero F32.one F32.zero
    Sample.ctx4x3 = Ok ctx' /\
  project_and_draw F32.zero F32.zero F32.zero F32.zero F32.one F32.zero
    ctx' = Ok ctx'.
Proof.
  intros d ctx'.
  assert (Hp : project_and_draw F32.zero F32.zero F32.zero
                 F32.zero F32.one F32.zero Sample.ctx4x3 = Ok ctx')
    by (vm_compute; reflexivity).
  split; [exact Hp|].
  exact (project_and_draw_idempotent Sample.ctx4x3 ctx'
           F32.zero F32.zero F32.zero F32.zero F32.one F32.zero Hp).
Defined.

(** X3: A point in front of the camera whose screen column or row falls outside
    [[0,sw) x [0,sh)] is dropped, provided the index [xp + sw * yp], which
    the code computes before the bounds test, does not overflow. *)
Theorem off_screen_no_write (ctx : RenderContext) (x y z nx ny nz : float)
    (xp yp : Z) :
  F32.to_int (screen_x ctx x y z) = Ok xp ->
  F32.to_int (screen_y ctx x y z) = Ok yp ->
  Int.in_range (sw ctx * yp) = true ->
  Int.in_range (xp + sw ctx * yp) = true ->
  xp < 0 \/ sw ctx <= xp \/ yp < 0 \/ sh ctx <= yp ->
  project_and_draw x y z nx ny nz ctx = Ok ctx.
Proof.
  intros Hx Hy Hm Ha Hout. unfold project_and_draw.
  destruct (final_z ctx x y z <=? F32.zero)%f32; [reflexivity|].
  rewrite Hx, Hy. cbn [mbind result_bind].
  unfold Int.mul, Int.add, Int.checked. rewrite Hm. cbn [mbind result_bind].
  rewrite Ha. cbn [mbind result_bind].
  destruct (Z.ltb_spec xp 0); [reflexivity|].
  destruct (Z.leb_spec (sw ctx) xp); [reflexivity|].
  destruct (Z.ltb_spec yp 0); [reflexivity|].
  destruct (Z.leb_spec (sh ctx) yp); [reflexivity|]. lia.
Qed.

Lemma off_screen_no_write_witness :
  let x := F32.of_int 100 in
  (F32.to_int (screen_x Sample.ctx4x3 x F32.zero F32.zero) = Ok 10 /\
   F32.to_int (screen_y Sample.ctx4x3 x F32.zero F32.zero) = Ok 1 /\
   sw Sample.ctx4x3 <= 10) /\
  project_and_draw x F32.zero F32.zero F32.zero F32.one F32.zero Sample.ctx4x3
  = Ok Sample.ctx4x3.
Proof.
  intros x. split; [repeat split; vm_compute; congruence|].
  apply (off_screen_no_write Sample.ctx4x3 x F32.zero F32.zero
           F32.zero F32.one F32.zero 10 1); try reflexivity.
  right. left. vm_compute. congruence.
Defined.

(** X4: The index is computed before the bounds test: a point in front of the
    camera whose row makes [sw * yp] overflow has no defined behaviour,
    although it is far off the screen. *)
Theorem off_screen_index_overflow (ctx : RenderContext)
    (x y z nx ny nz : float) (xp yp : Z) :
  (final_z ctx x y z <=? F32.zero)%f32 = false ->
  F32.to_int (screen_x ctx x y z) = Ok xp ->
  F32.to_int (screen_y ctx x y z) = Ok yp ->
  Int.in_range (sw ctx * yp) = false ->
  project_and_draw x y z nx ny nz ctx = Undefined.
Proof.
  intros Hz Hx Hy Hm. unfold project_and_draw. rewrite Hz, Hx, Hy.
  cbn [mbind result_bind]. unfold Int.mul, Int.checked. now rewrite Hm.
Qed.

Lemma off_screen_index_overflow_witness :
  let ctx := ctx_wide in
  ((final_z ctx F32.zero F32.one F32.zero <=? F32.zero)%f32 = false /\
   F32.to_int (screen_x ctx F32.zero F32.one F32.zero) = Ok 32767 /\
   F32.to_int (screen_y ctx F32.zero F32.one F32.zero) = Ok (-39998) /\
   Int.in_range (sw ctx * -39998) = false) /\
  project_and_draw F32.zero F32.one F32.zero F32.zero F32.one F32.zero ctx
  = Undefined.
Proof.
  intros ctx. split; [repeat split; reflexivity|].
  apply (off_screen_index_overflow ctx F32.zero F32.one F32.zero
           F32.zero F32.one F32.zero 32767 (-39998)); reflexivity.
Defined.

(** ** Invariants of the drawing of a frame *)

(** What every call of the projector keeps, the rasterizer keeps. *)
Lemma draw_pointy_segment_preserves (P : RenderContext -> Prop)
    fuel length seg_w seg_t point_len def char_center_x density ctx ctx' :
  (forall x y z nx ny nz c c',
     P c -> project_and_draw x y z nx ny nz c = Ok c' -> P c') ->
  P ctx ->
  draw_pointy_segment fuel length seg_w seg_t point_len def char_center_x
    density ctx = Ok ctx' ->
  P ctx'.
Proof.
  intros Hproj Hd. unfold draw_pointy_segment, sample_segment.
  assert (Hemit : forall px py pz nx ny t t',
            P t ->
            draw_rotated_point px py pz nx ny def char_center_x t = Ok t' ->
            P t').
  { intros px py pz nx ny t t' Ht. unfold draw_rotated_point.
    now apply Hproj. }
  destruct (flat_faces _ fuel length seg_w seg_t density ctx) as [c1| |] eqn:Hf;
    cbn [mbind result_bind]; try discriminate.
  assert (Hc1 : P c1).
  { revert Hf. unfold flat_faces.
    apply for_float_invariant; [|assumption]. intros i t t' Ht.
    apply for_float_invariant; [|assumption]. intros j u u' Hu.
    destruct (draw_rotated_point i _ j _ _ def char_center_x u) as [u1| |] eqn:H1;
      cbn [mbind result_bind]; try discriminate.
    apply Hemit. eapply Hemit; eassumption. }
  destruct (nl_degenerate seg_w point_len); [now intros [= <-]|].
  unfold end_caps.
  apply for_float_invariant; [|assumption]. intros u t t' Ht.
  apply for_float_invariant; [|assumption]. intros pz v v' Hv.
  cbv zeta.
  destruct (draw_rotated_point _ _ pz _ _ def char_center_x v) as [v1| |] eqn:H1;
    cbn [mbind result_bind]; try discriminate.
  destruct (draw_rotated_point _ _ pz _ _ def char_center_x v1) as [v2| |] eqn:H2;
    cbn [mbind result_bind]; try discriminate.
  destruct (draw_rotated_point _ _ pz _ _ def char_center_x v2) as [v3| |] eqn:H3;
    cbn [mbind result_bind]; try discriminate.
  apply Hemit. eapply Hemit; [|eassumption]. eapply Hemit; [|eassumption].
  eapply Hemit; eassumption.
Qed.

Lemma draw_text_preserves {pf : Platform} (P : RenderContext -> Prop)
    cfg fuel text text_len ctx ctx' :
  (forall x y z nx ny nz c c',
     P c -> project_and_draw x y z nx ny nz c = Ok c' -> P c') ->
  P ctx ->
  draw_text cfg fuel text text_len ctx = Ok ctx' ->
  P ctx'.
Proof.
  intros Hproj. unfold draw_text. apply for_each_invariant.
  intros [char_idx c] t t' Ht. unfold draw_char.
  destruct (font_lookup (char_value c)) as [seg_data| |];
    cbn [mbind result_bind]; try discriminate.
  unfold draw_segments. apply for_each_invariant; [|assumption].
  intros i u u' Hu. destruct (segment_on seg_data i); [|now intros [= <-]].
  destruct (load (segment_lengths cfg) i) as [len| |];
    cbn [mbind result_bind]; try discriminate.
  destruct (load (seg_defs cfg) i) as [def| |];
    cbn [mbind result_bind]; try discriminate.
  now apply draw_pointy_segment_preserves.
Qed.

Lemma ltb_trans (a b c : float) :
  F32.ltb a b = true -> F32.ltb b c = true -> F32.ltb a c = true.
Proof.
  intros Hab Hbc. apply ltb_rank in Hab as (Ha & Hb & Hr).
  apply ltb_rank in Hbc as (_ & Hc & Hr').
  apply ltb_rank. repeat split; auto.
  destruct (rank a) as [[a1 a2] a3], (rank b) as [[b1 b2] b3],
           (rank c) as [[c1 c2] c3].
  simpl in *. lia.
Qed.

Lemma cell_step_trans (a b c : float * ascii) :
  cell_step a b -> cell_step b c -> cell_step a c.
Proof.
  unfold cell_step. intros [->|Hab] [->|Hbc]; auto.
  right. eapply ltb_trans; eassumption.
Qed.

(** One call raises cells, on the buffers of a frame. *)
Lemma project_and_draw_raises ctx ctx' x y z nx ny nz :
  frame_buffers ctx ->
  project_and_draw x y z nx ny nz ctx = Ok ctx' ->
  cells_raised ctx ctx'.
Proof.
  intros Hfb Hp i d c d' c' Hd Hc Hd' Hc'.
  destruct (project_and_draw_effect _ _ _ _ _ _ _ _ Hp)
    as [-> | (idx & stored & ch & Hv & Hst & Hle & _ & _ & Hz & Hb & Hothers)].
  - left. congruence.
  - destruct (Nat.eq_dec i (Z.to_nat idx)) as [->|Hne].
    + right. cbn. rewrite Hd in Hst. injection Hst as ->.
      rewrite Hd' in Hz. injection Hz as ->.
      destruct (visible_cell_depth _ _ _ _ _ Hv) as [_ Hn].
      apply leb_false_ltb; try assumption.
      destruct Hfb as [_ _ Hnum].
      eapply (proj1 (Forall_lookup _ _) Hnum); eassumption.
    + left. destruct (Hothers i Hne) as [Hz' Hb']. congruence.
Qed.

(** X5: The drawing of a text only ever raises cells: from the buffers of a
    frame, each cell of the result either is as it was, depth and character,
    or holds a strictly greater depth.  No depth is ever lowered and no
    character changes without its depth growing. *)
Theorem draw_text_raises_cells {pf : Platform} (cfg : Cfg.t) (fuel : nat)
    (text : list ascii) (text_len : Z) (ctx ctx' : RenderContext) :
  frame_buffers ctx ->
  draw_text cfg fuel text text_len ctx = Ok ctx' ->
  cells_raised ctx ctx' /\ frame_buffers ctx' /\ same_settings ctx ctx'.
Proof.
  intros Hfb Hd.
  assert (HP : drawing_of ctx ctx' /\ cells_raised ctx ctx').
  { revert Hd.
    apply (draw_text_preserves
             (fun c => drawing_of ctx c /\ cells_raised ctx c)).
    - intros x y z nx ny nz c c' [Hdr Hr] Hp. split.
      + eapply project_and_draw_drawing; eassumption.
      + pose proof (project_and_draw_raises _ _ _ _ _ _ _ _ (proj1 Hdr) Hp) as Hr'.
        pose proof (project_and_draw_drawing _ _ _ _ _ _ _ _ _ Hdr Hp) as Hdr'.
        intros i d ch d' ch' Hd0 Hc0 Hd1 Hc1.
        (* the cell exists in the intermediate buffers as well *)
        destruct Hdr as [[Hz1 Hb1 _] Hs1]. destruct Hfb as [Hz0 Hb0 _].
        assert (Hsw : sw c = sw ctx /\ sh c = sh ctx)
          by (rewrite Hs1; split; reflexivity).
        destruct Hsw as [Hsw Hsh]. rewrite Hsw, Hsh in Hz1, Hb1.
        destruct (zbuffer c !! i) as [dm|] eqn:Hdm.
        2:{ apply lookup_ge_None in Hdm. apply lookup_lt_Some in Hd0. lia. }
        destruct (bbuffer c !! i) as [cm|] eqn:Hcm.
        2:{ apply lookup_ge_None in Hcm. apply lookup_lt_Some in Hc0. lia. }
        eapply cell_step_trans; [eapply Hr | eapply Hr']; eassumption.
    - split; [split; [assumption | apply same_settings_refl]|].
      intros i d c d' c' Hd0 Hc0 Hd1 Hc1. left. congruence. }
  destruct HP as [[Hfb' Hs] Hr]. auto.
Qed.

Lemma draw_text_raises_cells_witness :
  frame_buffers Sample.ctx4x3 /\
  exists ctx',
    draw_text (pf := Sample.platform) Sample.coarse_cfg 20
      (list_ascii_of_string "8") 1 Sample.ctx4x3 = Ok ctx' /\
    ctx' <> Sample.ctx4x3 /\
    cells_raised Sample.ctx4x3 ctx'.
Proof.
  assert (Hfb : frame_buffers Sample.ctx4x3).
  { split; [reflexivity | reflexivity | repeat constructor]. }
  split; [exact Hfb|].
  destruct (draw_text (pf := Sample.platform) Sample.coarse_cfg 20
              (list_ascii_of_string "8") 1 Sample.ctx4x3)
    as [ctx'| |] eqn:Hd; try (vm_compute in Hd; discriminate).
  exists ctx'. split; [reflexivity|]. split.
  - vm_compute in Hd. injection Hd as <-. discriminate.
  - exact (proj1 (draw_text_raises_cells (pf := Sample.platform)
                    Sample.coarse_cfg 20 (list_ascii_of_string "8") 1
                    Sample.ctx4x3 ctx' Hfb Hd)).
Defined.

(** The character of a shade is one of the palette. *)
Lemma shade_in_palette ctx nx ny nz c :
  palette_usable ctx -> shade ctx nx ny nz = Ok c -> c ∈ palette ctx.
Proof.
  intros [Hlen Hpos]. unfold shade.
  destruct (palette_index ctx nx ny nz) as [p| |] eqn:Hp;
    cbn [mbind result_bind]; try discriminate.
  assert (Hrange : 0 <= p < palette_len ctx).
  { unfold palette_index in Hp.
    destruct (F32.to_int (luminance ctx nx ny nz * contrast ctx)%f32)
      as [raw| |] eqn:Hraw; cbn [mbind result_bind] in Hp; try discriminate.
    destruct (palette_index_defined ctx nx ny nz raw Hpos Hraw)
      as (p' & Hp' & _ & Hr).
    unfold palette_index in Hp'. rewrite Hraw in Hp'.
    cbn [mbind result_bind] in Hp'. congruence. }
  unfold load_cstring, load.
  destruct (Z.eqb_spec p (Z.of_nat (length (palette ctx)))); [lia|].
  destruct (Z.ltb_spec p 0); [lia|].
  destruct (palette ctx !! Z.to_nat p) as [ch|] eqn:Hl; [|discriminate].
  intros [= <-]. apply list_elem_of_lookup. eauto.
Qed.

(** One call keeps the cells presentable. *)
Lemma project_and_draw_cells_shown ctx ctx' x y z nx ny nz :
  frame_buffers ctx -> palette_usable ctx ->
  Forall2 (cell_shown (palette ctx)) (zbuffer ctx) (bbuffer ctx) ->
  project_and_draw x y z nx ny nz ctx = Ok ctx' ->
  Forall2 (cell_shown (palette ctx)) (zbuffer ctx') (bbuffer ctx').
Proof.
  intros Hfb Hpal Hcells Hp.
  destruct (project_and_draw_effect _ _ _ _ _ _ _ _ Hp)
    as [-> | (idx & stored & ch & Hv & Hst & Hle & Hsh & -> & _)];
    [assumption|].
  cbn [write_cell set_buffers zbuffer bbuffer].
  apply Forall2_insert; [assumption|].
  destruct (visible_cell_depth _ _ _ _ _ Hv) as [Hz Hn].
  pose proof (inverse_depth_nonneg _ Hz Hn) as H0.
  fold (ooz ctx x y z) in H0.
  split; [exact H0|]. split.
  - intros Hneg. exfalso.
    (* the depth stored before was not negative *)
    assert (Hs0 : F32.leb F32.zero stored = true).
    { destruct (Forall2_lookup_l _ _ _ _ _ Hcells Hst) as (c0 & _ & Hc0 & _).
      exact Hc0. }
    pose proof (leb_trans _ _ _ Hneg Hs0). congruence.
  - right. eapply shade_in_palette; eassumption.
Qed.

(** X6: After the drawing of a frame, whatever the text, every cell holds a
    depth that is a number and is not negative, a cell whose depth is still 0
    shows a space, and every cell shows a space or a character of the
    palette, provided the palette is not empty. *)
Theorem frame_cells_shown {pf : Platform} (cfg : Cfg.t) (fuel : nat)
    (text : list ascii) (st : Loop.t) (ctx : RenderContext) :
  well_sized st ->
  0 < Z.of_nat (length (Cfg.palette cfg)) <= Int.max_signed ->
  render cfg fuel text st = Ok ctx ->
  Forall2 (cell_shown (Cfg.palette cfg)) (zbuffer ctx) (bbuffer ctx).
Proof.
  intros Hw Hpal. unfold render.
  rewrite (clear_buffers_well_sized cfg st Hw). cbn [mbind result_bind].
  set (ctx0 := set_buffers (make_context cfg st) _ _).
  pose (P := fun c : RenderContext =>
               drawing_of ctx0 c /\
               Forall2 (cell_shown (Cfg.palette cfg)) (zbuffer c) (bbuffer c)).
  intros Hd. cut (P ctx); [now intros [_ H]|].
  revert Hd. apply (draw_text_preserves P).
  - intros x y z nx ny nz c c' [Hdr Hc] Hp. split.
    + eapply project_and_draw_drawing; eassumption.
    + destruct Hdr as [Hfb Hs].
      assert (Hpc : palette c = Cfg.palette cfg) by (rewrite Hs; reflexivity).
      assert (Hpu : palette_usable c).
      { unfold palette_usable. rewrite Hs. cbn. auto. }
      rewrite <- Hpc in *.
      eapply project_and_draw_cells_shown; eassumption.
  - split.
    + destruct Hw as [Hr Hz Hb]. split; [|reflexivity].
      split; cbn; rewrite ?length_replicate; try lia.
      apply Forall_replicate. reflexivity.
    + cbn. apply Forall2_replicate. repeat split; auto.
Qed.

Lemma frame_cells_shown_witness :
  let st := rest_variables Sample.coarse_cfg (list_ascii_of_string "8") 20 11 in
  (well_sized st /\
   0 < Z.of_nat (length (Cfg.palette Sample.coarse_cfg)) <= Int.max_signed) /\
  exists ctx,
    render (pf := Sample.platform) Sample.coarse_cfg 20
      (list_ascii_of_string "8") st = Ok ctx /\
    Forall2 (cell_shown (Cfg.palette Sample.coarse_cfg))
      (zbuffer ctx) (bbuffer ctx).
Proof.
  intros st.
  assert (Hw : well_sized st).
  { split; reflexivity. }
  assert (Hp : 0 < Z.of_nat (length (Cfg.palette Sample.coarse_cfg))
               <= Int.max_signed).
  { split; vm_compute; congruence. }
  split; [split; assumption|].
  destruct (render (pf := Sample.platform) Sample.coarse_cfg 20
              (list_ascii_of_string "8") st) as [ctx| |] eqn:Hr;
    try (vm_compute in Hr; discriminate).
  exists ctx. split; [reflexivity|].
  exact (frame_cells_shown (pf := Sample.platform) Sample.coarse_cfg 20
           (list_ascii_of_string "8") st ctx Hw Hp Hr).
Defined.

(** ** The palette: the empty one *)

(** X7: With an empty palette (an empty [-P] argument) the clamp yields [palette_len - 1], that
    is -1, for every face whose raw index is not negative, and the character
    is read before the start of the palette; a face with a negative raw index
    is shown as the terminating NUL. *)
Theorem empty_palette_shade (ctx : RenderContext) (nx ny nz : float) (raw : Z) :
  palette ctx = [] -> palette_len ctx = 0 ->
  F32.to_int (luminance ctx nx ny nz * contrast ctx)%f32 = Ok raw ->
  palette_index ctx nx ny nz = Ok (if raw <? 0 then 0 else -1) /\
  shade ctx nx ny nz = if raw <? 0 then Ok "000"%char else Undefined.
Proof.
  intros Hp Hl Hraw. unfold shade, palette_index. rewrite Hraw, Hp, Hl.
  cbn [mbind result_bind mret result_ret]. unfold clamp_palette_idx.
  destruct (Z.ltb_spec raw 0); [split; reflexivity|].
  destruct (Z.leb_spec 0 raw); [|lia]. split; reflexivity.
Qed.

Lemma empty_palette_shade_witness :
  (palette ctx_no_palette = [] /\ palette_len ctx_no_palette = 0 /\
   F32.to_int (luminance ctx_no_palette F32.zero F32.one F32.zero
               * contrast ctx_no_palette)%f32 = Ok 20) /\
  shade ctx_no_palette F32.zero F32.one F32.zero = Undefined /\
  project_and_draw F32.zero F32.zero F32.zero F32.zero F32.one F32.zero
    ctx_no_palette = Undefined.
Proof.
  split; [repeat split; reflexivity|]. split; [|reflexivity].
  exact (proj2 (empty_palette_shade ctx_no_palette F32.zero F32.one F32.zero 20
                  eq_refl eq_refl eq_refl)).
Defined.

(** ** The segment rasterizer: loops that do not run, loops that do not end *)

Lemma for_float_no_iteration {St : Type} (fuel : nat) (i bound step : float)
    (body : float -> St -> result St) (s s' : St) :
  (i <? bound)%f32 = false ->
  for_float fuel i bound step body s = Ok s' -> s' = s.
Proof.
  intros Hlt. destruct fuel as [|fuel]; cbn [for_float]; [discriminate|].
  rewrite Hlt. now intros [= <-].
Qed.

(** For a thickness that is zero or negative, the range of the thickness
    loops is empty. *)
Lemma thickness_range_empty (seg_t : float) :
  (seg_t <=? F32.zero)%f32 = true ->
  (- seg_t / F32.two <? seg_t / F32.two)%f32 = false.
Proof.
  destruct seg_t as [s|s| |s m e]; try discriminate.
  - now destruct s.
  - now destruct s.
  - destruct s; [|discriminate]. intros _.
    unfold F32.div, F32.neg, F32.two. cbn [SFopp SFdiv negb xorb].
    destruct (SFdiv_core_binary F32.prec F32.emax (Z.pos m) e 8388608 (-22))
      as [[q e'] l].
    pose proof (binary_round_aux_sign F32.prec F32.emax false q e' l) as H1.
    pose proof (binary_round_aux_sign F32.prec F32.emax true q e' l) as H2.
    destruct (binary_round_aux F32.prec F32.emax false q e' l);
      destruct (binary_round_aux F32.prec F32.emax true q e' l);
      subst; reflexivity.
Qed.

(** X8: A segment whose thickness is zero or negative is not drawn at all: the
    thickness loops never run their body, neither on the flat faces nor on
    the end caps, so a call that returns leaves the buffers untouched and no
    sample is emitted. *)
Theorem no_thickness_no_drawing (fuel : nat)
    (length seg_w seg_t point_len : float) (def : SegmentDef)
    (char_center_x density : float) (ctx ctx' : RenderContext) :
  (seg_t <=? F32.zero)%f32 = true ->
  (draw_pointy_segment fuel length seg_w seg_t point_len def char_center_x
     density ctx = Ok ctx' -> ctx' = ctx) /\
  (forall samples,
     segment_samples fuel length seg_w seg_t point_len density = Ok samples ->
     samples = []).
Proof.
  intros Ht. pose proof (thickness_range_empty seg_t Ht) as Hempty.
  assert (Hskip : forall (St : Type) emit (s s' : St),
            sample_segment emit fuel length seg_w seg_t point_len density s
            = Ok s' -> s' = s).
  { intros St emit s s'. unfold sample_segment.
    destruct (flat_faces emit fuel length seg_w seg_t density s)
      as [s1| |] eqn:Hf; cbn [mbind result_bind]; try discriminate.
    assert (s1 = s) as ->.
    { revert Hf. unfold flat_faces.
      apply (for_float_invariant (fun t => t = s)); [|reflexivity].
      intros i t t' -> Hin. eapply for_float_no_iteration; eassumption. }
    destruct (nl_degenerate seg_w point_len); [now intros [= <-]|].
    unfold end_caps.
    apply (for_float_invariant (fun t => t = s)); [|reflexivity].
    intros u t t' -> Hin. eapply for_float_no_iteration; eassumption. }
  split; [apply Hskip|]. intros samples. apply Hskip.
Qed.

Lemma no_thickness_no_drawing_witness :
  (F32.zero <=? F32.zero)%f32 = true /\
  draw_pointy_segment 10 F32.two F32.one F32.zero F32.one Sample.upright
    F32.zero F32.one Sample.ctx4x3 = Ok Sample.ctx4x3 /\
  segment_samples 10 F32.two F32.one F32.zero F32.one F32.one = Ok [].
Proof.
  split; [reflexivity|].
  destruct (no_thickness_no_drawing 10 F32.two F32.one F32.zero F32.one
              Sample.upright F32.zero F32.one Sample.ctx4x3 Sample.ctx4x3
              eq_refl) as [_ Hs].
  split; [reflexivity|].
  destruct (segment_samples 10 F32.two F32.one F32.zero F32.one F32.one)
    as [l| |] eqn:Hl; try (vm_compute in Hl; discriminate).
  now rewrite (Hs l eq_refl).
Defined.

(** A loop whose step is absorbed by rounding never ends. *)
Lemma for_float_absorbed_step {St : Type} (i bound step : float)
    (body : float -> St -> result St) :
  (i <? bound)%f32 = true -> (i + step)%f32 = i ->
  forall fuel s s', for_float fuel i bound step body s <> Ok s'.
Proof.
  intros Hlt Habs. induction fuel as [|fuel IH]; intros s s';
    cbn [for_float]; [discriminate|].
  rewrite Hlt, Habs.
  destruct (body i s) as [t| |]; cbn [mbind result_bind];
    [apply IH | discriminate | discriminate].
Qed.

(** X9: The test [density > 0] of the option parser does not make the
    rasterizer terminate: when the sampling step is so small that adding it
    to the start [-length / 2] of the first loop gives [-length / 2] again,
    [draw_pointy_segment] returns for no amount of fuel. *)
Theorem absorbed_density_never_returns (length seg_w seg_t point_len : float)
    (def : SegmentDef) (char_center_x density : float) :
  (- length / F32.two <? length / F32.two)%f32 = true ->
  (- length / F32.two + density)%f32 = (- length / F32.two)%f32 ->
  forall fuel ctx ctx',
    draw_pointy_segment fuel length seg_w seg_t point_len def char_center_x
      density ctx <> Ok ctx'.
Proof.
  intros Hlt Habs fuel ctx ctx'. unfold draw_pointy_segment, sample_segment.
  destruct (flat_faces _ fuel length seg_w seg_t density ctx) as [c1| |] eqn:Hf;
    cbn [mbind result_bind]; try discriminate.
  exfalso. revert Hf. unfold flat_faces.
  now apply for_float_absorbed_step.
Qed.

Lemma absorbed_density_never_returns_witness :
  let length := horiz_len Sample.default_cfg in
  ((- length / F32.two <? length / F32.two)%f32 = true /\
   (- length / F32.two + tiny_density)%f32 = (- length / F32.two)%f32 /\
   (F32.zero <? tiny_density)%f32 = true) /\
  forall fuel ctx',
    draw_pointy_segment fuel length (Cfg.seg_w Sample.default_cfg)
      (Cfg.seg_t Sample.default_cfg) (Cfg.point_len Sample.default_cfg)
      Sample.upright F32.zero tiny_density Sample.ctx4x3 <> Ok ctx'.
Proof.
  intros length. split; [repeat split; reflexivity|].
  intros fuel ctx'.
  apply (absorbed_density_never_returns length
           (Cfg.seg_w Sample.default_cfg) (Cfg.seg_t Sample.default_cfg)
           (Cfg.point_len Sample.default_cfg) Sample.upright F32.zero
           tiny_density); reflexivity.
Defined.

(** ** The font table *)

(** X10: The glyph lookup never leaves the table, whatever the value of the
    character, negative values included, and every mask it returns fits in
    14 bits: the loop over the 14 segments sees every bit that is set. *)
Theorem font_lookup_in_table (code : Z) :
  exists mask,
    font_lookup code = Ok mask /\
    0 <= mask < 2 ^ NUM_SEGMENTS /\
    (forall i, NUM_SEGMENTS <= i -> segment_on mask i = false).
Proof.
  assert (Hall : Forall (fun m => 0 <= m < 2 ^ NUM_SEGMENTS) FourteenSegmentASCII).
  { unfold FourteenSegmentASCII, NUM_SEGMENTS.
    repeat (constructor; [split; [discriminate | reflexivity]|]).
    constructor. }
  destruct (font_lookup_total code) as [mask Hm]. exists mask.
  assert (Hb : 0 <= mask < 2 ^ NUM_SEGMENTS).
  { unfold font_lookup, load in Hm.
    destruct (glyph_char code - ASCII_OFFSET <? 0); [discriminate|].
    destruct (FourteenSegmentASCII !! _) as [m|] eqn:Hl; [|discriminate].
    injection Hm as <-.
    exact (proj1 (Forall_lookup _ _) Hall _ _ Hl). }
  split; [exact Hm|]. split; [exact Hb|].
  intros i Hi. unfold segment_on, NUM_SEGMENTS in *.
  destruct (Z.eq_dec mask 0) as [->|Hne].
  - now rewrite Z.shiftr_0_l.
  - rewrite Z.shiftr_eq_0; [reflexivity | lia |].
    apply Z.log2_lt_pow2; [lia|].
    apply Z.lt_le_trans with (2 ^ 14); [lia|].
    apply Z.pow_le_mono_r; lia.
Qed.

Example tiny_density_value :
  F32.div F32.one (F32.of_int 1000000000) = tiny_density.
Proof. reflexivity. Qed.

(** ** The projector: memory safety and the centre of the screen *)

(** X11: On the buffers of a frame and with a usable palette, the only ways for
    [project_and_draw] to go wrong are its three casts to [int] and the
    index arithmetic: when those are defined, the call returns, so neither
    buffer nor the palette is ever accessed out of bounds. *)
Theorem project_and_draw_safe (ctx : RenderContext) (x y z nx ny nz : float)
    (xp yp raw : Z) :
  frame_buffers ctx -> palette_usable ctx ->
  F32.to_int (screen_x ctx x y z) = Ok xp ->
  F32.to_int (screen_y ctx x y z) = Ok yp ->
  Int.in_range (sw ctx * yp) = true ->
  Int.in_range (xp + sw ctx * yp) = true ->
  F32.to_int (luminance ctx nx ny nz * contrast ctx)%f32 = Ok raw ->
  exists ctx', project_and_draw x y z nx ny nz ctx = Ok ctx'.
Proof.
  intros Hfb [Hlen Hpos] Hx Hy Hm Ha Hraw.
  rewrite project_and_draw_factor.
  destruct (visible_cell ctx x y z) as [[idx|]| |] eqn:Hv;
    cbn [mbind result_bind].
  - pose proof (visible_cell_in_bounds _ _ _ _ _ Hv) as Hidx.
    pose proof Hfb as [Hzs Hbs _].
    unfold load. destruct (Z.ltb_spec idx 0); [lia|].
    destruct (zbuffer ctx !! Z.to_nat idx) as [stored|] eqn:Hst.
    2:{ apply lookup_ge_None in Hst. lia. }
    cbn [mbind result_bind].
    destruct (ooz ctx x y z <=? stored)%f32; [now eexists|].
    rewrite store_in_bounds by lia. cbn [mbind result_bind].
    destruct (palette_index_defined ctx nx ny nz raw Hpos Hraw)
      as (p & Hp & _ & Hr).
    unfold shade. rewrite Hp. cbn [mbind result_bind].
    unfold load_cstring, load.
    destruct (Z.eqb_spec p (Z.of_nat (length (palette ctx)))); [lia|].
    destruct (Z.ltb_spec p 0); [lia|].
    destruct (palette ctx !! Z.to_nat p) as [c|] eqn:Hc.
    2:{ apply lookup_ge_None in Hc. lia. }
    cbn [mbind result_bind]. rewrite store_in_bounds by lia. now eexists.
  - now eexists.
  - exfalso. revert Hv. unfold visible_cell.
    destruct (final_z ctx x y z <=? F32.zero)%f32; [discriminate|].
    rewrite Hx, Hy. cbn [mbind result_bind].
    unfold Int.mul, Int.add, Int.checked. rewrite Hm.
    cbn [mbind result_bind]. rewrite Ha. cbn [mbind result_bind].
    now destruct ((xp <? 0) || (sw ctx <=? xp) || (yp <? 0) || (sh ctx <=? yp)).
  - exfalso. revert Hv. unfold visible_cell.
    destruct (final_z ctx x y z <=? F32.zero)%f32; [discriminate|].
    rewrite Hx, Hy. cbn [mbind result_bind].
    unfold Int.mul, Int.add, Int.checked. rewrite Hm.
    cbn [mbind result_bind]. rewrite Ha. cbn [mbind result_bind].
    now destruct ((xp <? 0) || (sw ctx <=? xp) || (yp <? 0) || (sh ctx <=? yp)).
Qed.

Lemma project_and_draw_safe_witness :
  (frame_buffers Sample.ctx4x3 /\ palette_usable Sample.ctx4x3 /\
   F32.to_int (screen_x Sample.ctx4x3 F32.one F32.one F32.zero) = Ok 2 /\
   F32.to_int (screen_y Sample.ctx4x3 F32.one F32.one F32.zero) = Ok 1 /\
   F32.to_int (luminance Sample.ctx4x3 F32.zero F32.one F32.zero
               * contrast Sample.ctx4x3)%f32 = Ok 20) /\
  exists ctx',
    project_and_draw F32.one F32.one F32.zero F32.zero F32.one F32.zero
      Sample.ctx4x3 = Ok ctx'.
Proof.
  assert (Hfb : frame_buffers Sample.ctx4x3).
  { split; [reflexivity | reflexivity | repeat constructor]. }
  assert (Hpal : palette_usable Sample.ctx4x3).
  { split; [reflexivity|]. split; vm_compute; congruence. }
  split; [repeat split; try reflexivity; try apply Hfb; apply Hpal|].
  apply (project_and_draw_safe Sample.ctx4x3 F32.one F32.one F32.zero
           F32.zero F32.one F32.zero 2 1 20 Hfb Hpal); reflexivity.
Defined.

Lemma mul_zero_l (a b : float) :
  is_zero_b a = true -> is_finite b = true -> is_zero_b (F32.mul a b) = true.
Proof. destruct a, b; try discriminate; reflexivity. Qed.

Lemma mul_zero_r (a b : float) :
  is_finite a = true -> is_zero_b b = true -> is_zero_b (F32.mul a b) = true.
Proof. destruct a, b; try discriminate; reflexivity. Qed.

Lemma add_zeros (a b : float) :
  is_zero_b a = true -> is_zero_b b = true -> is_zero_b (F32.add a b) = true.
Proof. destruct a as [[]| | |], b as [[]| | |]; try discriminate; reflexivity. Qed.

Lemma sub_zeros (a b : float) :
  is_zero_b a = true -> is_zero_b b = true -> is_zero_b (F32.sub a b) = true.
Proof. destruct a as [[]| | |], b as [[]| | |]; try discriminate; reflexivity. Qed.

Lemma to_int_add_zero (a b : float) :
  is_zero_b b = true -> F32.to_int (F32.add a b) = F32.to_int a.
Proof.
  destruct a as [[]| | |], b as [[]| | |]; try discriminate; reflexivity.
Qed.

Lemma to_int_sub_zero (a b : float) :
  is_zero_b b = true -> F32.to_int (F32.sub a b) = F32.to_int a.
Proof.
  destruct a as [[]| | |], b as [[]| | |]; try discriminate; reflexivity.
Qed.

(** X12: The origin of character space is projected onto the centre of the
    screen, at the camera distance, whatever the rotation, the tilt and the
    zoom, as long as these are finite numbers and doubling the zoom does not
    overflow: the text turns about the centre cell. *)
Theorem origin_projects_to_centre (ctx : RenderContext) :
  is_finite (cosA ctx) = true -> is_finite (sinA ctx) = true ->
  is_finite (cosB ctx) = true -> is_finite (sinB ctx) = true ->
  is_finite (tilt_factor ctx) = true ->
  is_finite (zoom ctx) = true ->
  is_finite (zoom ctx * F32.two)%f32 = true ->
  final_z ctx F32.zero F32.zero F32.zero = CAMERA_DISTANCE /\
  F32.to_int (screen_x ctx F32.zero F32.zero F32.zero)
  = F32.to_int (F32.of_int (sw ctx) / F32.two)%f32 /\
  F32.to_int (screen_y ctx F32.zero F32.zero F32.zero)
  = F32.to_int (F32.of_int (sh ctx) / F32.two)%f32.
Proof.
  intros HcA HsA HcB HsB Ht Hz Hz2.
  assert (H0 : is_zero_b F32.zero = true) by reflexivity.
  assert (Hsx : is_zero_b (sheared_x ctx F32.zero F32.zero) = true).
  { unfold sheared_x. apply add_zeros; [assumption|]. now apply mul_zero_l. }
  assert (Hrx : is_zero_b (rot_x ctx F32.zero F32.zero F32.zero) = true).
  { unfold rot_x. apply sub_zeros; now apply mul_zero_l. }
  assert (Hrz : is_zero_b (rot_z ctx F32.zero F32.zero F32.zero) = true).
  { unfold rot_z. apply add_zeros; now apply mul_zero_l. }
  assert (Hfy : is_zero_b (final_y ctx F32.zero F32.zero F32.zero) = true).
  { unfold final_y. apply sub_zeros; now apply mul_zero_l. }
  assert (Hfz : final_z ctx F32.zero F32.zero F32.zero = CAMERA_DISTANCE).
  { unfold final_z.
    assert (Hs : is_zero_b (F32.zero * sinA ctx
                            + rot_z ctx F32.zero F32.zero F32.zero * cosA ctx)%f32
                 = true)
      by (apply add_zeros; now apply mul_zero_l).
    destruct (F32.zero * sinA ctx
              + rot_z ctx F32.zero F32.zero F32.zero * cosA ctx)%f32
      as [[]| | |]; try discriminate; reflexivity. }
  assert (Hooz : is_finite (ooz ctx F32.zero F32.zero F32.zero) = true).
  { unfold ooz. rewrite Hfz. reflexivity. }
  split; [exact Hfz|]. split.
  - unfold screen_x. apply to_int_add_zero.
    apply mul_zero_l; [|assumption]. now apply mul_zero_r.
  - unfold screen_y. apply to_int_sub_zero.
    apply mul_zero_l; [|assumption]. now apply mul_zero_r.
Qed.

Lemma origin_projects_to_centre_witness :
  let ctx := make_context (pf := Sample.platform) Sample.default_cfg
               (rest_variables Sample.default_cfg [] 80 24) in
  (is_finite (zoom ctx) = true /\ is_finite (zoom ctx * F32.two)%f32 = true) /\
  visible_cell ctx F32.zero F32.zero F32.zero = Ok (Some (40 + 80 * 11)).
Proof.
  intros ctx. split; [split; reflexivity|].
  destruct (origin_projects_to_centre ctx eq_refl eq_refl eq_refl eq_refl
              eq_refl eq_refl eq_refl) as (Hz & Hx & Hy).
  unfold visible_cell. rewrite Hz, Hx, Hy. reflexivity.
Defined.

(** ** The frame: printed rows, buffer sizes, failed resize *)

Lemma rows_tile {A : Type} (w h : nat) (l : list A) :
  length l = (w * h)%nat ->
  concat ((fun y => take w (drop (y * w) l)) <$> seq 0 h) = l
  /\ Forall (fun r => length r = w)
       ((fun y => take w (drop (y * w) l)) <$> seq 0 h).
Proof.
  revert l. induction h as [|h IH]; intros l Hl.
  - rewrite Nat.mul_0_r in Hl. destruct l; [|discriminate].
    split; [reflexivity | constructor].
  - cbn [seq fmap list_fmap]. rewrite <- fmap_S_seq, <- list_fmap_compose.
    destruct (IH (drop w l)) as [Hc Hf].
    { rewrite length_drop. lia. }
    assert (Heq : ((fun y => take w (drop (y * w) l)) ∘ S <$> seq 0 h)
                  = ((fun y => take w (drop (y * w) (drop w l))) <$> seq 0 h)).
    { apply list_fmap_ext. intros i y _. cbn.
      rewrite drop_drop. now replace (w + y * w)%nat with (w + y * w)%nat by lia. }
    rewrite Heq. split.
    + cbn [concat]. rewrite Hc. cbn. rewrite drop_0. apply take_drop.
    + constructor; [|exact Hf]. cbn. rewrite drop_0, length_take. lia.
Qed.

Lemma screen_rows_tile (ctx : RenderContext) :
  0 <= sw ctx ->
  Z.of_nat (length (bbuffer ctx)) = sw ctx * sh ctx ->
  length (screen_rows ctx) = Z.to_nat (sh ctx)
  /\ Forall (fun r => length r = Z.to_nat (sw ctx)) (screen_rows ctx)
  /\ concat (screen_rows ctx) = bbuffer ctx.
Proof.
  intros Hw Hb. unfold screen_rows, seqZ.
  rewrite <- list_fmap_compose.
  split; [now rewrite length_fmap, length_seq|].
  assert (Heq : ((fun y => take (Z.to_nat (sw ctx))
                            (drop (Z.to_nat (y * sw ctx)) (bbuffer ctx)))
                 ∘ (fun i : nat => Z.of_nat i + 0)) <$> seq 0 (Z.to_nat (sh ctx))
                = (fun y => take (Z.to_nat (sw ctx))
                              (drop (y * Z.to_nat (sw ctx)) (bbuffer ctx)))
                  <$> seq 0 (Z.to_nat (sh ctx))).
  { apply list_fmap_ext. intros i y _. cbn. do 2 f_equal. nia. }
  rewrite Heq.
  destruct (rows_tile (Z.to_nat (sw ctx)) (Z.to_nat (sh ctx)) (bbuffer ctx))
    as [Hc Hf]; [nia|]. now split.
Qed.

(** X13: A frame that starts with buffers of the size of the screen, or with a
    resize that succeeds, leaves buffers of the size of the screen to the
    next frame, and what it prints is the character buffer cut into one row
    per screen line, each as wide as the screen. *)
Theorem frame_rows_tile_buffer {pf : Platform} (cfg : Cfg.t) (fuel : nat)
    (env : Env.t) (st st' : Loop.t) (rows : list (list ascii)) :
  frame_ready env st ->
  frame cfg fuel env st = Ok (Rendered st' rows) ->
  0 <= Loop.sw st' ->
  well_sized st'
  /\ length rows = Z.to_nat (Loop.sh st')
  /\ Forall (fun r => length r = Z.to_nat (Loop.sw st')) rows
  /\ concat rows = Loop.bbuffer st'.
Proof.
  intros Hready Hf Hsw. rewrite frame_unfold in Hf.
  destruct (handle_resize_ready cfg env
              (total_text_3d_width cfg (text_length (Env.text env))) st Hready)
    as (st1 & Hh & Hw).
  rewrite Hh in Hf. cbn [mbind result_bind] in Hf.
  destruct (render cfg fuel (Env.text env) st1) as [ctx| |] eqn:Hr;
    cbn [mbind result_bind mret result_ret] in Hf; try discriminate.
  injection Hf as <- <-.
  split; [exact (render_well_sized _ _ _ _ _ Hw Hr)|].
  destruct (render_drawing _ _ _ _ _ Hw Hr) as [[_ Hb _] Hs].
  unfold same_settings in Hs.
  assert (Hcw : sw ctx = Loop.sw st1) by (now rewrite Hs).
  assert (Hch : sh ctx = Loop.sh st1) by (now rewrite Hs).
  cbn [next_variables Loop.sw Loop.sh Loop.bbuffer] in *.
  rewrite <- Hcw, <- Hch. apply screen_rows_tile; [lia | exact Hb].
Qed.

Lemma frame_rows_tile_buffer_witness :
  let env := Sample.steady_env 20 11 "8" in
  let st := rest_variables Sample.coarse_cfg (list_ascii_of_string "8") 20 11 in
  frame_ready env st /\
  exists st' rows,
    frame (pf := Sample.platform) Sample.coarse_cfg 20 env st
    = Ok (Rendered st' rows)
    /\ well_sized st' /\ length rows = 10%nat
    /\ Forall (fun r => length r = 20%nat) rows
    /\ concat rows = Loop.bbuffer st'.
Proof.
  intros env st.
  assert (Hready : frame_ready env st).
  { repeat split; vm_compute; congruence. }
  split; [exact Hready|].
  destruct (frame (pf := Sample.platform) Sample.coarse_cfg 20 env st)
    as [[st' rows|]| |] eqn:Hf; try (vm_compute in Hf; discriminate).
  exists st', rows. split; [reflexivity|].
  assert (Hsw : Loop.sw st' = 20 /\ Loop.sh st' = 10).
  { destruct (frame_rendered _ _ _ _ _ _ Hf) as (st1 & Hh & Hw & Hs & _).
    vm_compute in Hh. injection Hh as <-. now split. }
  destruct Hsw as [Hsw Hsh].
  destruct (frame_rows_tile_buffer (pf := Sample.platform) Sample.coarse_cfg
              20 env st st' rows Hready Hf) as (Hws & Hl & Hfa & Hc).
  { rewrite Hsw. lia. }
  rewrite Hsw in Hfa. rewrite Hsh in Hl. auto.
Defined.

(** A resize whose buffers cannot be had: a clean stop only while no buffer
    is allocated. *)
Lemma resize_failure cfg env width st :
  Env.terminal_resized env = true ->
  Int.in_range (Env.ws_col env * (Env.ws_row env - 1)) = true ->
  Env.ws_col env * (Env.ws_row env - 1) < 0 \/ Env.realloc_fails env = true ->
  handle_resize cfg env width st
  = if Loop.allocated st then Undefined else Ok None.
Proof.
  intros Hr Hin Hfail. unfold handle_resize. rewrite Hr.
  unfold Int.mul, Int.checked. rewrite Hin. cbn [mbind result_bind].
  destruct Hfail as [Hneg | Hre].
  - apply Z.ltb_lt in Hneg. now rewrite Hneg.
  - rewrite Hre, orb_true_r. reflexivity.
Qed.

(** X14: When the terminal was resized before any buffer was allocated, and
    the new buffers cannot be had (realloc fails, or the buffer size is
    negative), the frame draws nothing and the render loop ends at once,
    whatever frames were still to come. *)
Theorem resize_failure_stops {pf : Platform} (cfg : Cfg.t) (fuel : nat)
    (env : Env.t) (envs : list Env.t) (st : Loop.t) :
  Loop.allocated st = false ->
  Env.terminal_resized env = true ->
  Int.in_range (Env.ws_col env * (Env.ws_row env - 1)) = true ->
  Env.ws_col env * (Env.ws_row env - 1) < 0 \/ Env.realloc_fails env = true ->
  frame cfg fuel env st = Ok Stopped
  /\ main_loop cfg fuel (env :: envs) st = Ok [].
Proof.
  intros Hnull Hr Hin Hfail.
  assert (Hf : frame cfg fuel env st = Ok Stopped).
  { rewrite frame_unfold. rewrite (resize_failure cfg env _ st Hr Hin Hfail).
    now rewrite Hnull. }
  split; [exact Hf|]. cbn [main_loop]. now rewrite Hf.
Qed.

Lemma resize_failure_stops_witness :
  let env := no_memory_env 80 24 "8" in
  (Loop.allocated Loop.init = false /\ Env.terminal_resized env = true) /\
  frame (pf := Sample.platform) Sample.default_cfg 2000 env Loop.init
  = Ok Stopped /\
  main_loop (pf := Sample.platform) Sample.default_cfg 2000
    [env; Sample.resized_env 80 24 "8"] Loop.init = Ok [].
Proof.
  intros env. split; [split; reflexivity|].
  apply (resize_failure_stops (pf := Sample.platform) Sample.default_cfg 2000
           env [Sample.resized_env 80 24 "8"] Loop.init);
    [reflexivity | reflexivity | reflexivity | right; reflexivity].
Defined.



(** ** Argument parsing *)

Lemma leb_false_cases (d : float) :
  (d <=? F32.zero)%f32 = false ->
  F32.is_nan d = true \/ (F32.zero <? d)%f32 = true.
Proof.
  destruct d as [[]|[]| |[] m e]; cbn; intros H; try discriminate; auto.
Qed.

Lemma handle_option_density atof sscanf_pair opt optarg s s' :
  handle_option atof sscanf_pair opt optarg s = Proceed s' ->
  (Cfg.density (cfg_of s) <=? F32.zero)%f32 = false ->
  (Cfg.density (cfg_of s') <=? F32.zero)%f32 = false.
Proof.
  unfold handle_option.
  repeat match goal with
         | |- context [Ascii.eqb opt ?c] => destruct (Ascii.eqb opt c)
         end;
    try (intros [= <-]; cbn; trivial; fail).
  - cbv zeta.
    destruct (Cfg.density (cfg_of (assign_atof atof V_density optarg s))
              <=? F32.of_int 0)%f32 eqn:Hd; [discriminate|].
    intros [= <-] _. exact Hd.
  - destruct (sscanf_pair optarg) as [[lx ly]|]; [|discriminate].
    intros [= <-]. cbn. trivial.
Qed.

(** X15: Whatever options are given, when the option loop lets [main] go on the
    density is positive or not a number, if it was before the loop: the test
    [density <= 0] rejects zero and the negative values only. *)
Theorem parsed_density_positive_or_nan
    (atof : list ascii -> float)
    (sscanf_pair : list ascii -> option (float * float))
    (opts : list (ascii * list ascii)) (s s' : settings) :
  (Cfg.density (cfg_of s) <=? F32.zero)%f32 = false ->
  parse_options atof sscanf_pair opts s = Proceed s' ->
  F32.is_nan (Cfg.density (cfg_of s')) = true
  \/ (F32.zero <? Cfg.density (cfg_of s'))%f32 = true.
Proof.
  intros Hd Hp. apply leb_false_cases.
  revert s Hd Hp. induction opts as [|[opt optarg] rest IH]; intros s Hd.
  - now intros [= <-].
  - cbn [parse_options].
    destruct (handle_option atof sscanf_pair opt optarg s) as [s1|] eqn:Hh;
      [|discriminate].
    apply IH. exact (handle_option_density _ _ _ _ _ _ Hh Hd).
Qed.

Lemma parsed_density_positive_or_nan_witness :
  exists s',
    parse_options sample_atof sample_sscanf_pair
      [("d"%char, list_ascii_of_string "nan");
       ("P"%char, []);
       ("L"%char, list_ascii_of_string "1,0")] default_settings = Proceed s'
    /\ Cfg.density (cfg_of s') = S754_nan
    /\ (F32.is_nan (Cfg.density (cfg_of s')) = true
        \/ (F32.zero <? Cfg.density (cfg_of s'))%f32 = true).
Proof.
  eexists. split; [reflexivity|]. split; [reflexivity|].
  apply (parsed_density_positive_or_nan sample_atof sample_sscanf_pair
           [("d"%char, list_ascii_of_string "nan");
            ("P"%char, []);
            ("L"%char, list_ascii_of_string "1,0")] default_settings);
    reflexivity.
Defined.

(** ** Text Handling *)

Lemma store_app {A : Type} (done rest : list A) (old c : A) :
  store (done ++ old :: rest) (Z.of_nat (length done)) c
  = Ok (done ++ c :: rest).
Proof.
  rewrite store_in_bounds by (rewrite length_app; cbn; lia).
  rewrite Nat2Z.id. f_equal.
  rewrite insert_app_r_alt by lia. now rewrite Nat.sub_diag.
Qed.

Lemma write_chars_app (s done old rest : list ascii) :
  length old = length s ->
  write_chars (done ++ old ++ rest) (Z.of_nat (length done)) s
  = Ok (done ++ s ++ rest).
Proof.
  revert done old. induction s as [|c s IH]; intros done old Hl.
  - destruct old; [reflexivity | discriminate].
  - destruct old as [|o old]; [discriminate|]. cbn [write_chars app].
    rewrite store_app. cbn [mbind result_bind].
    replace (Z.of_nat (length done) + 1)
      with (Z.of_nat (length (done ++ [c])))
      by (rewrite length_app; cbn; lia).
    replace (done ++ c :: old ++ rest) with ((done ++ [c]) ++ old ++ rest)
      by now rewrite <- app_assoc.
    rewrite IH by (cbn in Hl; lia). now rewrite <- app_assoc.
Qed.

Lemma total_len_from (rest : list (list ascii)) (n : Z) :
  foldl (fun n a => n + (Z.of_nat (length a) + 1)) n rest
  = n + total_len rest.
Proof.
  unfold total_len. revert n.
  induction rest as [|b rest IH]; intros n; cbn [foldl]; [lia|].
  rewrite (IH (n + _)), (IH (0 + _)). lia.
Qed.

Lemma total_len_cons (a : list ascii) (rest : list (list ascii)) :
  total_len (a :: rest) = Z.of_nat (length a) + 1 + total_len rest.
Proof.
  unfold total_len at 1. cbn [foldl]. rewrite total_len_from. lia.
Qed.

Lemma total_len_nonneg (args : list (list ascii)) : 0 <= total_len args.
Proof.
  induction args as [|a rest IH]; [reflexivity|].
  rewrite total_len_cons. lia.
Qed.

Lemma copy_args_spec (args : list (list ascii)) (done junk : list ascii) :
  args <> [] ->
  Z.of_nat (length junk) = total_len args ->
  exists last,
    copy_args args (done ++ junk) (Z.of_nat (length done))
    = Ok (done ++ spaced args ++ [last],
          Z.of_nat (length done) + Z.of_nat (length (spaced args))).
Proof.
  revert done junk. induction args as [|a rest IH]; intros done junk Hne Hl;
    [congruence|].
  rewrite total_len_cons in Hl.
  pose proof (total_len_nonneg rest) as Hpos.
  assert (Hsplit : exists old junk',
             junk = old ++ junk' /\ length old = length (a ++ [NUL])
             /\ Z.of_nat (length junk') = total_len rest).
  { exists (take (length a + 1) junk), (drop (length a + 1) junk).
    rewrite take_drop, length_take, length_drop, length_app. cbn.
    repeat split; lia. }
  destruct Hsplit as (old & junk' & -> & Hold & Hjunk).
  cbn [copy_args]. unfold strcpy.
  rewrite (write_chars_app _ _ _ _ Hold). cbn [mbind result_bind].
  destruct rest as [|b rest].
  - cbn [copy_args spaced]. exists NUL.
    destruct junk'; [|cbn in Hjunk; lia].
    rewrite app_nil_r. reflexivity.
  - replace (done ++ (a ++ [NUL]) ++ junk')
      with ((done ++ a) ++ NUL :: junk')
      by (now rewrite <- !app_assoc).
    replace (Z.of_nat (length done) + Z.of_nat (length a))
      with (Z.of_nat (length (done ++ a)))
      by (rewrite length_app; lia).
    rewrite store_app. cbn [mbind result_bind].
    replace (Z.of_nat (length (done ++ a)) + 1)
      with (Z.of_nat (length ((done ++ a) ++ [" "%char])))
      by (rewrite !length_app; cbn; lia).
    replace ((done ++ a) ++ " "%char :: junk')
      with (((done ++ a) ++ [" "%char]) ++ junk')
      by (now rewrite <- !app_assoc).
    destruct (IH ((done ++ a) ++ [" "%char]) junk')
      as [last Hc]; [congruence | exact Hjunk |].
    exists last. rewrite Hc.
    change (spaced (a :: b :: rest)) with (a ++ " "%char :: spaced (b :: rest)).
    f_equal. f_equal.
    + now rewrite <- !app_assoc.
    + rewrite !length_app. cbn [length]. lia.
Qed.

(** X16: When arguments are given, the block that joins them never writes outside
    the memory it allocated and fills it exactly: whatever that memory held,
    it ends up as the arguments with one space between two of them, then the
    terminator. *)
Theorem combine_args_joins (args : list (list ascii)) (fresh : nat -> ascii) :
  args <> [] ->
  combine_args args (Some fresh) = Ok (Some (spaced args ++ [NUL])).
Proof.
  intros Hne. unfold combine_args.
  destruct (copy_args_spec args [] (fresh <$> seq 0 (Z.to_nat (total_len args)))
              Hne) as [last Hc].
  { rewrite length_fmap, length_seq. pose proof (total_len_nonneg args). lia. }
  cbn [app length] in Hc. change (Z.of_nat 0) with 0 in Hc.
  rewrite Hc. cbn [mbind result_bind].
  rewrite Z.add_0_l, store_app. reflexivity.
Qed.

Lemma combine_args_joins_witness :
  combine_args [list_ascii_of_string "HELLO"; list_ascii_of_string "WORLD"]
    (Some (fun _ => "?"%char))
  = Ok (Some (list_ascii_of_string "HELLO WORLD" ++ [NUL])).
Proof.
  apply (combine_args_joins
           [list_ascii_of_string "HELLO"; list_ascii_of_string "WORLD"]
           (fun _ => "?"%char)).
  discriminate.
Defined.

(** ** Frame pacing *)

(** X17: With times as a monotonic clock gives them, the pacing arithmetic does
    not overflow; a frame that took less than the period of 33333333 ns is
    followed by a sleep of under a second that completes the period exactly,
    and a longer one by no sleep. *)
Theorem sleep_completes_period (frame_start frame_end : timespec) :
  clock_time frame_start -> clock_time frame_end ->
  nanoseconds frame_start <= nanoseconds frame_end ->
  exists r,
    sleep_time frame_start frame_end = Ok r /\
    match r with
    | Some d =>
        tv_sec d = 0 /\ 0 < tv_nsec d <= 33333333 /\
        (nanoseconds frame_end - nanoseconds frame_start) + nanoseconds d
        = 33333333
    | None => 33333333 <= nanoseconds frame_end - nanoseconds frame_start
    end.
Proof.
  destruct frame_start as [s0 n0], frame_end as [s1 n1].
  unfold clock_time, nanoseconds. cbn [tv_sec tv_nsec].
  intros [Hs0 Hn0] [Hs1 Hn1] Hle.
  unfold sleep_time, elapsed_ns. cbn [tv_sec tv_nsec].
  unfold Long.sub, Long.mul, Long.add, Long.checked.
  assert (Hr : forall z, - 2 ^ 63 <= z <= 2 ^ 63 - 1 -> Long.in_range z = true).
  { intros z Hz. unfold Long.in_range, Long.min_signed, Long.max_signed.
    apply andb_true_iff. split; apply Z.leb_le; lia. }
  rewrite (Hr (s1 - s0)) by lia. cbn [mbind result_bind].
  rewrite (Hr ((s1 - s0) * 1000000000)) by lia. cbn [mbind result_bind].
  rewrite (Hr (n1 - n0)) by lia. cbn [mbind result_bind].
  rewrite (Hr ((s1 - s0) * 1000000000 + (n1 - n0))) by lia.
  cbn [mbind result_bind].
  change target_frame_ns with 33333333.
  destruct (Z.ltb_spec ((s1 - s0) * 1000000000 + (n1 - n0)) 33333333) as [Hlt|Hge].
  - rewrite (Hr (33333333 - ((s1 - s0) * 1000000000 + (n1 - n0)))) by lia.
    cbn [mbind result_bind mret result_ret]. eexists. split; [reflexivity|].
    cbn [tv_sec tv_nsec].
    rewrite Z.quot_small, Z.rem_small by lia. lia.
  - cbn [mret result_ret]. eexists. split; [reflexivity|].
    cbv beta iota. lia.
Qed.

Lemma sleep_completes_period_witness :
  let frame_start := {| tv_sec := 1; tv_nsec := 999999999 |} in
  let frame_end := {| tv_sec := 2; tv_nsec := 5 |} in
  (clock_time frame_start /\ clock_time frame_end) /\
  exists r,
    sleep_time frame_start frame_end = Ok r /\
    match r with
    | Some d =>
        tv_sec d = 0 /\ 0 < tv_nsec d <= 33333333 /\
        (nanoseconds frame_end - nanoseconds frame_start) + nanoseconds d
        = 33333333
    | None => 33333333 <= nanoseconds frame_end - nanoseconds frame_start
    end.
Proof.
  intros frame_start frame_end.
  assert (H0 : clock_time frame_start) by (unfold clock_time; cbn; lia).
  assert (H1 : clock_time frame_end) by (unfold clock_time; cbn; lia).
  split; [split; assumption|].
  apply (sleep_completes_period frame_start frame_end H0 H1).
  unfold nanoseconds; cbn; lia.
Defined.
